(** * Signal dashboard data generator

    A shallow embedding of
    [src/acquisition/covidcast/signal_dash_data_generator.py]
    and the properties of its coverage/status computation, of its
    registry store and of its orchestration.

    Conventions of the embedding.
    - A Python [int] is a [Z]; a [str] is a [string].
    - A [datetime.date] is its proleptic Gregorian ordinal
      ([date.toordinal()]), a [Z]; the order on dates is the order on [Z].
    - A pandas [Timestamp] is [NaT] or a number of nanoseconds since the
      epoch; its [date()] is [NaT] or a date.
    - A pandas data frame is the list of its rows, in row order.
    - Code that may raise returns a [result]; code that works on the store
      connection threads it explicitly. *)

From Stdlib Require Import ZArith Lia Ascii String.
From stdpp Require Import gmap strings list fin_maps pretty.

Open Scope Z_scope.

(** ** Exceptions *)

(** The exception classes that the script can raise or meet.  The payload is
    the message, [str(e)], where the script or Python words it.  pandas words
    the errors of [pd.to_datetime] differently from version to version:
    [ToDatetimeError] is its [ValueError] (the subclass [OutOfBoundsDatetime]
    included) and holds the text that could not be converted.  [TypeError]
    marks a [NaT] read as a date, which no run of the script gets to (see
    [as_date]). *)
Inductive exn : Type :=
| ValueError (msg : string)
| ToDatetimeError (text : string)
| IndexError (msg : string)
| AttributeError (msg : string)
| TypeError (msg : string)
| RuntimeError (msg : string)
| MySQLError (msg : string).   (* mysql.connector.Error *)

(** The outcome of a call: it returns a value or raises. *)
Inductive result (A : Type) : Type :=
| Return (x : A)
| Raise (e : exn).
Arguments Return {A} x.
Arguments Raise {A} e.

#[global] Instance result_ret : MRet result := λ A x, Return x.
#[global] Instance result_bind : MBind result := λ A B f m,
  match m with
  | Raise e => Raise e
  | Return x => f x
  end.

#[global] Instance result_fmap : FMap result := λ A B f m,
  match m with
  | Raise e => Raise e
  | Return x => Return (f x)
  end.

#[global] Instance exn_eq_dec : EqDecision exn.
Proof. solve_decision. Defined.

(** ** Calendar dates *)

Abbreviation date := Z (only parsing).

(** [datetime._is_leap], [_days_in_month], [_days_before_year],
    [_days_before_month], [_ymd2ord]. *)
Definition is_leap (year : Z) : bool :=
  (year mod 4 =? 0) && (negb (year mod 100 =? 0) || (year mod 400 =? 0)).

Definition days_in_month (year month : Z) : Z :=
  if month =? 2 then (if is_leap year then 29 else 28)
  else if (month =? 4) || (month =? 6) || (month =? 9) || (month =? 11)
       then 30 else 31.

Definition days_before_year (year : Z) : Z :=
  let y := year - 1 in
  y * 365 + y / 4 - y / 100 + y / 400.

Definition days_before_month (year month : Z) : Z :=
  foldr (λ m acc, days_in_month year m + acc) 0
        (Z.of_nat <$> seq 1 (Z.to_nat (month - 1))).

Definition ymd2ord (year month day : Z) : date :=
  days_before_year year + days_before_month year month + day.

(** The check of the [datetime.date] constructor. *)
Definition valid_ymd (year month day : Z) : bool :=
  (1 <=? year) && (year <=? 9999) &&
  (1 <=? month) && (month <=? 12) &&
  (1 <=? day) && (day <=? days_in_month year month).

(** ** pandas timestamps *)

Inductive Timestamp : Type :=
| NaT
| Ts (ns : Z).

(** What [Timestamp.date()] returns: a [datetime.date], or [NaT] again. *)
Inductive date_or_NaT : Type :=
| NaT_date
| Date (d : date).

#[global] Instance date_or_NaT_eq_dec : EqDecision date_or_NaT.
Proof. solve_decision. Defined.

Definition ns_per_day : Z := 86400000000000.
Definition epoch_ordinal : date := 719163.      (* date(1970, 1, 1).toordinal() *)

(** Midnight of a date, as a timestamp. *)
Definition Timestamp_of_date (d : date) : Timestamp :=
  Ts ((d - epoch_ordinal) * ns_per_day).

(** [Timestamp.date()]; [NaT.date()] is [NaT], it does not raise. *)
Definition Timestamp_date (t : Timestamp) : date_or_NaT :=
  match t with
  | NaT => NaT_date
  | Ts ns => Date (epoch_ordinal + ns / ns_per_day)
  end.

(** The value of [Timestamp.date()] where it is read as the [datetime.date]
    that the data classes declare and that the data API and the store take.
    The script hands the value on unchecked.  It is [NaT] for a source
    without metadata rows only, and there [iloc[0]] in [get_coverage] raises
    before the value is read as a date: the [NaT] case is reached by no call
    of [get_coverage] and by no run of the loop of [main] (lemmas
    [get_coverage_reads_a_date] and [generate_reads_dates]). *)
Definition as_date (v : date_or_NaT) : result date :=
  match v with
  | Date d => mret d
  | NaT_date => Raise (TypeError "NaT is not a datetime.date")
  end.

(** The dates whose midnight a nanosecond timestamp can hold:
    1677-09-22 to 2262-04-11. *)
Definition in_ns_bounds (d : date) : bool :=
  (ymd2ord 1677 9 22 <=? d) && (d <=? ymd2ord 2262 4 11).

(** ** Parsing with the format ["%Y%m%d"]

    [pd.to_datetime(text, format="%Y%m%d")] matches the regular expression
    of the format against the text, as [strptime] does:
    [(?P<Y>\d\d\d\d)(?P<m>1[0-2]|0[1-9]|[1-9])(?P<d>3[0-1]|[1-2]\d|0[1-9]|[1-9]| [1-9])].
    A regular expression is given by the ways in which it matches a prefix
    of the text, in the order in which the engine tries them, each with the
    number read and the text left; the match that the engine finds is the
    first way of the whole expression. *)
Definition regex : Type := string → list (Z * string).

Definition digit_of (c : ascii) : option Z :=
  let n := Z.of_N (N_of_ascii c) in
  if (48 <=? n) && (n <=? 57) then Some (n - 48) else None.

(** A digit of the class [[lo-hi]]; [\d] is [[0-9]]. *)
Definition digit_in (lo hi : Z) : regex := λ text,
  match text with
  | String c rest =>
      match digit_of c with
      | Some n => if (lo <=? n) && (n <=? hi) then [(n, rest)] else []
      | None => []
      end
  | EmptyString => []
  end.

(** A space: it reads no digit. *)
Definition space : regex := λ text,
  match text with
  | String " "%char rest => [(0, rest)]
  | _ => []
  end.

(** One expression after another; the digits read make one number. *)
Definition followed_by (r1 r2 : regex) : regex := λ text,
  p1 ← r1 text; p2 ← r2 p1.2; [(p1.1 * 10 + p2.1, p2.2)].

(** [r1|r2]. *)
Definition or_else (r1 r2 : regex) : regex := λ text, r1 text ++ r2 text.

Definition regex_Y : regex :=
  followed_by
    (followed_by (followed_by (digit_in 0 9) (digit_in 0 9)) (digit_in 0 9))
    (digit_in 0 9).

Definition regex_m : regex :=
  or_else (followed_by (digit_in 1 1) (digit_in 0 2))
    (or_else (followed_by (digit_in 0 0) (digit_in 1 9))
       (digit_in 1 9)).

Definition regex_d : regex :=
  or_else (followed_by (digit_in 3 3) (digit_in 0 1))
    (or_else (followed_by (digit_in 1 2) (digit_in 0 9))
       (or_else (followed_by (digit_in 0 0) (digit_in 1 9))
          (or_else (digit_in 1 9)
             (followed_by space (digit_in 1 9))))).

(** [format_regex.match(text)]: the groups [Y], [m], [d] of the first match
    and the text after it. *)
Definition match_Ymd (text : string) : option (Z * Z * Z * string) :=
  head (Y ← regex_Y text; m ← regex_m Y.2; d ← regex_d m.2;
        [(Y.1, m.1, d.1, d.2)]).

(** [pd.to_datetime(str(x), format="%Y%m%d")] where [x] is the maximum of an
    integer column.  [None] stands for the [nan] of an empty column, whose
    string is a null and gives [NaT].  The string of an integer must match
    the format with no text left over, name a date that exists, and lie in
    the range of a nanosecond timestamp. *)
Definition to_datetime_Ymd (x : option Z) : result Timestamp :=
  match x with
  | None => mret NaT
  | Some n =>
      let text := pretty n in
      match match_Ymd text with
      | Some (year, month, day, EmptyString) =>
          if valid_ymd year month day && in_ns_bounds (ymd2ord year month day)
          then mret (Timestamp_of_date (ymd2ord year month day))
          else Raise (ToDatetimeError text)
      | _ => Raise (ToDatetimeError text)
      end
  end.

(** ** Data classes *)

Record DashboardSignal : Type := {
  db_id : Z;
  name : string;
  source : string;
  latest_coverage_update : date;
  latest_status_update : date
}.

Record DashboardSignalCoverage : Type := {
  cov_signal_id : Z;
  cov_date : date;
  geo_type : string;
  count : Z
}.

Record DashboardSignalStatus : Type := {
  signal_id : Z;
  date_ : date;
  latest_issue : date;
  latest_time_value : date
}.

#[global] Instance DashboardSignalCoverage_eq_dec : EqDecision DashboardSignalCoverage.
Proof. solve_decision. Defined.
#[global] Instance DashboardSignalStatus_eq_dec : EqDecision DashboardSignalStatus.
Proof. solve_decision. Defined.

(** ** Data frames of the data API *)

(** A row of [covidcast.metadata()]. *)
Module Metadata.
Record row : Type := {
  data_source : string;
  signal : string;
  max_issue : Z;          (* integer, YYYYMMDD *)
  max_time : Z            (* timestamp, nanoseconds since the epoch *)
}.
End Metadata.

(** A row of [covidcast.signal(...)]: the four columns the script groups
    by (the others are not read). *)
Module TimeSeries.
Record row : Type := {
  geo_type : string;
  data_source : string;
  time_value : Z;
  signal : string
}.
End TimeSeries.

(** [Series.max()]: [None] for an empty column (pandas gives [nan] or
    [NaT]). *)
Definition Series_max (s : list Z) : option Z :=
  match s with
  | [] => None
  | x :: xs => Some (fold_left Z.max xs x)
  end.

(** [Series.iloc[0]]. *)
Definition iloc0 {A : Type} (s : list A) : result A :=
  match s with
  | [] => Raise (IndexError "single positional indexer is out-of-bounds")
  | x :: _ => mret x
  end.

(** [metadata[metadata.data_source == src]]. *)
Definition rows_for_source (src : string) (metadata : list Metadata.row)
  : list Metadata.row :=
  filter (λ r, Metadata.data_source r = src) metadata.

(** [df.groupby(['geo_type', 'data_source', 'time_value', 'signal']).size()]:
    the groups with their sizes.  Groups are listed here in the order of
    their first row; pandas lists them by key, and the script reads only the
    number of groups and, when there is one group, that group. *)
Definition group_key : Type := (string * string * Z * string)%type.

Definition key_of (r : TimeSeries.row) : group_key :=
  (TimeSeries.geo_type r, TimeSeries.data_source r,
   TimeSeries.time_value r, TimeSeries.signal r).

Definition key_geo_type (k : group_key) : string := k.1.1.1.

Fixpoint add_to_group (k : group_key) (groups : list (group_key * nat))
  : list (group_key * nat) :=
  match groups with
  | [] => [(k, 1%nat)]
  | (k', n) :: rest =>
      if decide (k = k') then (k', S n) :: rest
      else (k', n) :: add_to_group k rest
  end.

Definition groupby_size (df : list TimeSeries.row) : list (group_key * nat) :=
  fold_left (λ groups r, add_to_group (key_of r) groups) df [].

(** ** The coverage calculator *)

Definition get_latest_issue_from_metadata
    (dashboard_signal : DashboardSignal) (metadata : list Metadata.row)
  : result date_or_NaT :=
  let df_for_source := rows_for_source (source dashboard_signal) metadata in
  let max_issue := Series_max (Metadata.max_issue <$> df_for_source) in
  Timestamp_date <$> to_datetime_Ymd max_issue.

Definition get_latest_time_value_from_metadata
    (dashboard_signal : DashboardSignal) (metadata : list Metadata.row)
  : result date_or_NaT :=
  let df_for_source := rows_for_source (source dashboard_signal) metadata in
  mret (Timestamp_date
          (from_option Ts NaT
             (Series_max (Metadata.max_time <$> df_for_source)))).

Section Calculator.

(** [covidcast.signal(data_source, signal, start_day, end_day)]: the rows
    of the answer, or [None] when the API has no data for the days. *)
Variable covidcast_signal :
  string → string → date → date → option (list TimeSeries.row).

Definition get_coverage
    (dashboard_signal : DashboardSignal) (metadata : list Metadata.row)
  : result (list DashboardSignalCoverage) :=
  latest_time_value ←
    get_latest_time_value_from_metadata dashboard_signal metadata;
  let df_for_source := rows_for_source (source dashboard_signal) metadata in
  signal ← iloc0 (Metadata.signal <$> df_for_source);
  latest_time_value ← as_date latest_time_value;
  latest_data ←
    match covidcast_signal (source dashboard_signal) signal
                           latest_time_value latest_time_value with
    | None =>
        Raise (AttributeError "'NoneType' object has no attribute 'groupby'")
    | Some df => mret df
    end;
  let count_by_geo_type_df := groupby_size latest_data in
  if decide (1 < length count_by_geo_type_df)%nat then
    Raise (ValueError ("Expected one row for coverage, got "
                       +:+ pretty (length count_by_geo_type_df) +:+ "."))
  else
    geo ← iloc0 ((λ g, key_geo_type g.1) <$> count_by_geo_type_df);
    cnt ← iloc0 (snd <$> count_by_geo_type_df);
    mret [ {| cov_signal_id := db_id dashboard_signal;
              cov_date := latest_time_value;
              geo_type := geo;
              count := Z.of_nat cnt |} ].

End Calculator.

(** ** The registry store *)

(** A row of the table [dashboard_signal]. *)
Module SignalTable.
Record row : Type := {
  id : Z;
  name : string;
  source : string;
  enabled : bool;
  latest_coverage_update : date;
  latest_status_update : date
}.
End SignalTable.

(** The three tables.  [dashboard_signal] is the list of its rows in storage
    order; the status and coverage tables are maps from their unique key,
    [(signal_id, date)] and [(signal_id, date, geo_type)], to the other
    columns, [(latest_issue, latest_time_value)] and [count]. *)
Record tables : Type := {
  dashboard_signal : list SignalTable.row;
  dashboard_signal_status : gmap (Z * Z) (Z * Z);
  dashboard_signal_coverage : gmap (Z * Z * string) Z
}.

(** The connection with its cursor: the committed tables, the tables as the
    open transaction sees them, and the failures to come.  Each statement
    sent to the server and each commit consumes one entry of [faults]:
    [Some msg] makes it raise [mysql.connector.Error], [None] (or no entry)
    lets it succeed.  A statement that raises leaves the transaction as it
    was. *)
Record connection : Type := {
  committed : tables;
  working : tables;
  faults : list (option string)
}.

(** A method of [Database]: it returns or raises, and leaves a connection. *)
Definition store (A : Type) : Type := connection → result A * connection.

#[global] Instance store_ret : MRet store := λ A x c, (Return x, c).
#[global] Instance store_bind : MBind store := λ A B f m c,
  match m c with
  | (Return x, c') => f x c'
  | (Raise e, c') => (Raise e, c')
  end.

Definition server_call : store () := λ c,
  match faults c with
  | [] => (Return (), c)
  | None :: fs =>
      (Return (), {| committed := committed c; working := working c; faults := fs |})
  | Some msg :: fs =>
      (Raise (MySQLError msg),
       {| committed := committed c; working := working c; faults := fs |})
  end.

Definition modify_connection (f : connection → connection) : store () :=
  λ c, (Return (), f c).

Definition in_transaction (f : tables → tables) : store () :=
  modify_connection
    (λ c, {| committed := committed c; working := f (working c);
             faults := faults c |}).

Definition read_transaction : store tables := λ c, (Return (working c), c).

(** [cursor.execute(statement, params)]. *)
Definition execute (statement : tables → tables) : store () :=
  _ ← server_call; in_transaction statement.

(** [cursor.executemany] of an INSERT: the connector sends one multi-row
    statement, which handles the rows in order, and sends nothing when
    there are no rows. *)
Definition executemany_insert {A : Type}
    (statement : A → tables → tables) (seq_params : list A) : store () :=
  match seq_params with
  | [] => mret ()
  | _ => execute (λ t, fold_left (λ t p, statement p t) seq_params t)
  end.

(** [cursor.executemany] of another statement: one [execute] for each
    parameter tuple. *)
Fixpoint executemany {A : Type}
    (statement : A → tables → tables) (seq_params : list A) : store () :=
  match seq_params with
  | [] => mret ()
  | p :: rest => _ ← execute (statement p); executemany statement rest
  end.

(** [connection.commit()]. *)
Definition commit : store () :=
  _ ← server_call;
  modify_connection
    (λ c, {| committed := working c; working := working c;
             faults := faults c |}).

(** INSERT INTO dashboard_signal_status ... ON DUPLICATE KEY UPDATE
    latest_issue = VALUES(latest_issue),
    latest_time_value = VALUES(latest_time_value). *)
Definition insert_status (p : Z * Z * Z * Z) (t : tables) : tables :=
  let '(signal_id, date, latest_issue, latest_time_value) := p in
  {| dashboard_signal := dashboard_signal t;
     dashboard_signal_status :=
       <[(signal_id, date) := (latest_issue, latest_time_value)]>
         (dashboard_signal_status t);
     dashboard_signal_coverage := dashboard_signal_coverage t |}.

(** INSERT INTO dashboard_signal_coverage ... ON DUPLICATE KEY UPDATE
    signal_id = signal_id. *)
Definition insert_coverage (p : Z * Z * string * Z) (t : tables) : tables :=
  let '(signal_id, date, geo_type, count) := p in
  {| dashboard_signal := dashboard_signal t;
     dashboard_signal_status := dashboard_signal_status t;
     dashboard_signal_coverage :=
       match dashboard_signal_coverage t !! (signal_id, date, geo_type) with
       | Some _ => dashboard_signal_coverage t
       | None =>
           <[(signal_id, date, geo_type) := count]> (dashboard_signal_coverage t)
       end |}.

(** [SET latest_status_update = v] and [SET latest_coverage_update = v] on
    a row of [dashboard_signal]. *)
Definition set_latest_status_update (v : Z) (r : SignalTable.row)
  : SignalTable.row :=
  {| SignalTable.id := SignalTable.id r;
     SignalTable.name := SignalTable.name r;
     SignalTable.source := SignalTable.source r;
     SignalTable.enabled := SignalTable.enabled r;
     SignalTable.latest_coverage_update := SignalTable.latest_coverage_update r;
     SignalTable.latest_status_update := v |}.

Definition set_latest_coverage_update (v : Z) (r : SignalTable.row)
  : SignalTable.row :=
  {| SignalTable.id := SignalTable.id r;
     SignalTable.name := SignalTable.name r;
     SignalTable.source := SignalTable.source r;
     SignalTable.enabled := SignalTable.enabled r;
     SignalTable.latest_coverage_update := v;
     SignalTable.latest_status_update := SignalTable.latest_status_update r |}.

(** UPDATE dashboard_signal
    SET latest_status_update = GREATEST(latest_status_update, %s)
    WHERE id = %s. *)
Definition update_latest_status (p : Z * Z) (t : tables) : tables :=
  {| dashboard_signal :=
       (λ r, if decide (SignalTable.id r = p.2) then
               set_latest_status_update
                 (Z.max (SignalTable.latest_status_update r) p.1) r
             else r) <$> dashboard_signal t;
     dashboard_signal_status := dashboard_signal_status t;
     dashboard_signal_coverage := dashboard_signal_coverage t |}.

(** The same statement for [latest_coverage_update]. *)
Definition update_latest_coverage (p : Z * Z) (t : tables) : tables :=
  {| dashboard_signal :=
       (λ r, if decide (SignalTable.id r = p.2) then
               set_latest_coverage_update
                 (Z.max (SignalTable.latest_coverage_update r) p.1) r
             else r) <$> dashboard_signal t;
     dashboard_signal_status := dashboard_signal_status t;
     dashboard_signal_coverage := dashboard_signal_coverage t |}.

(** A Python [dict] from signal ids to dates, in insertion order. *)
Fixpoint dict_get (k : Z) (d : list (Z * Z)) : option Z :=
  match d with
  | [] => None
  | (k', v) :: rest => if decide (k = k') then Some v else dict_get k rest
  end.

Fixpoint dict_update (k v : Z) (d : list (Z * Z)) : list (Z * Z) :=
  match d with
  | [] => [(k, v)]
  | (k', v') :: rest =>
      if decide (k = k') then (k, v) :: rest else (k', v') :: dict_update k v rest
  end.

(** The loop that fills [latest_status_dates] (and [latest_coverage_dates]):
    [entries] are the [(x.signal_id, x.date)] of the batch. *)
Definition latest_dates (entries : list (Z * Z)) : list (Z * Z) :=
  fold_left
    (λ latest_dates x,
       match dict_get x.1 latest_dates with
       | None => dict_update x.1 x.2 latest_dates
       | Some latest_date =>
           if decide (latest_date < x.2) then dict_update x.1 x.2 latest_dates
           else latest_dates
       end)
    entries [].

Module Database.

(** [Database()]: open the connection and its cursor. *)
Definition init : store () := server_call.

Definition write_status (status_list : list DashboardSignalStatus) : store () :=
  let status_as_tuples :=
    (λ x, (signal_id x, date_ x, latest_issue x, latest_time_value x))
      <$> status_list in
  _ ← executemany_insert insert_status status_as_tuples;
  let latest_status_dates :=
    latest_dates ((λ x, (signal_id x, date_ x)) <$> status_list) in
  let latest_status_tuples := (λ kv, (kv.2, kv.1)) <$> latest_status_dates in
  _ ← executemany update_latest_status latest_status_tuples;
  commit.

Definition write_coverage (coverage_list : list DashboardSignalCoverage)
  : store () :=
  let coverage_as_tuples :=
    (λ x, (cov_signal_id x, cov_date x, geo_type x, count x))
      <$> coverage_list in
  _ ← executemany_insert insert_coverage coverage_as_tuples;
  let latest_coverage_dates :=
    latest_dates ((λ x, (cov_signal_id x, cov_date x)) <$> coverage_list) in
  let latest_coverage_tuples :=
    (λ kv, (kv.2, kv.1)) <$> latest_coverage_dates in
  _ ← executemany update_latest_coverage latest_coverage_tuples;
  commit.

(** SELECT id, name, source, latest_coverage_update, latest_status_update
    FROM dashboard_signal WHERE enabled. *)
Definition get_enabled_signals : store (list DashboardSignal) :=
  _ ← server_call;
  t ← read_transaction;
  mret ((λ result,
           {| db_id := SignalTable.id result;
              name := SignalTable.name result;
              source := SignalTable.source result;
              latest_coverage_update :=
                SignalTable.latest_coverage_update result;
              latest_status_update :=
                SignalTable.latest_status_update result |})
          <$> filter (λ r, SignalTable.enabled r = true) (dashboard_signal t)).

End Database.

(** ** The orchestrator *)

(** What the structured logger has received: the event of a
    [logger.info] (its keyword fields are left out) or the exception of a
    [logger.exception]. *)
Inductive log_record : Type :=
| LogInfo (event : string)
| LogException (e : exn).

Record world : Type := {
  conn : connection;
  log : list log_record
}.

(** A step of the script: it returns or raises, and leaves a world. *)
Definition run (A : Type) : Type := world → result A * world.

#[global] Instance run_ret : MRet run := λ A x w, (Return x, w).
#[global] Instance run_bind : MBind run := λ A B f m w,
  match m w with
  | (Return x, w') => f x w'
  | (Raise e, w') => (Raise e, w')
  end.

Definition on_database {A : Type} (m : store A) : run A := λ w,
  let '(r, c) := m (conn w) in (r, {| conn := c; log := log w |}).

Definition computed {A : Type} (r : result A) : run A := λ w, (r, w).

Definition logger_info (event : string) : run () := λ w,
  (Return (), {| conn := conn w; log := log w ++ [LogInfo event] |}).

Definition logger_exception (e : exn) : run () := λ w,
  (Return (), {| conn := conn w; log := log w ++ [LogException e] |}).

(** [try: body  except mysql.connector.Error as exception:
    logger.exception(exception)]. *)
Definition try_except_mysql (body : run ()) : run () := λ w,
  match body w with
  | (Raise (MySQLError msg), w') => logger_exception (MySQLError msg) w'
  | outcome => outcome
  end.

(** The parsed command line. *)
Record Namespace : Type := { log_file : option string }.

Section Orchestrator.

Variable covidcast_signal :
  string → string → date → date → option (list TimeSeries.row).
(** [covidcast.metadata()] and [datetime.date.today()]. *)
Variable covidcast_metadata : result (list Metadata.row).
Variable today : date.

(** The loop of [main] over [signals_to_generate], from the two lists
    filled so far. *)
Fixpoint generate (metadata : list Metadata.row)
    (signals_to_generate : list DashboardSignal)
    (signal_status_list : list DashboardSignalStatus)
    (coverage_list : list DashboardSignalCoverage)
  : result (list DashboardSignalStatus * list DashboardSignalCoverage) :=
  match signals_to_generate with
  | [] => mret (signal_status_list, coverage_list)
  | dashboard_signal :: rest =>
      latest_issue ←
        get_latest_issue_from_metadata dashboard_signal metadata;
      latest_time_value ←
        get_latest_time_value_from_metadata dashboard_signal metadata;
      latest_coverage ←
        get_coverage covidcast_signal dashboard_signal metadata;
      latest_issue ← as_date latest_issue;
      latest_time_value ← as_date latest_time_value;
      generate metadata rest
        (signal_status_list ++
           [ {| signal_id := db_id dashboard_signal;
                date_ := today;
                latest_issue := latest_issue;
                latest_time_value := latest_time_value |} ])
        (coverage_list ++ latest_coverage)
  end.

Definition main (args : option Namespace) : run bool :=
  let log_file := args ≫= log_file in
  _ ← on_database Database.init;
  signals_to_generate ← on_database Database.get_enabled_signals;
  _ ← logger_info "Starting generating dashboard data.";
  metadata ← computed covidcast_metadata;
  lists ← computed (generate metadata signals_to_generate [] []);
  let '(signal_status_list, coverage_list) := lists in
  _ ← try_except_mysql
        (_ ← on_database (Database.write_status signal_status_list);
         logger_info "Wrote status.");
  _ ← try_except_mysql
        (_ ← on_database (Database.write_coverage coverage_list);
         logger_info "Wrote coverage.");
  _ ← logger_info "Generated signal dashboard data";
  mret true.

(** [if not main(...): sys.exit(1)]: the exit status of the process.  An
    exception that reaches the top level ends the process with status 1. *)
Definition exit_status (args : option Namespace) (w : world) : Z * world :=
  match main args w with
  | (Return true, w') => (0, w')
  | (Return false, w') => (1, w')
  | (Raise _, w') => (1, w')
  end.

End Orchestrator.

(** ** Notions used in the statements *)

(** What [get_coverage] does with the answer of the data API (from
    [latest_data.groupby] on), for the target day [latest_time_value]. *)
Definition coverage_of_answer (dashboard_signal : DashboardSignal)
    (latest_time_value : date) (answer : option (list TimeSeries.row))
  : result (list DashboardSignalCoverage) :=
  latest_data ←
    match answer with
    | None =>
        Raise (AttributeError "'NoneType' object has no attribute 'groupby'")
    | Some df => mret df
    end;
  let count_by_geo_type_df := groupby_size latest_data in
  if decide (1 < length count_by_geo_type_df)%nat then
    Raise (ValueError ("Expected one row for coverage, got "
                       +:+ pretty (length count_by_geo_type_df) +:+ "."))
  else
    geo ← iloc0 ((λ g, key_geo_type g.1) <$> count_by_geo_type_df);
    cnt ← iloc0 (snd <$> count_by_geo_type_df);
    mret [ {| cov_signal_id := db_id dashboard_signal;
              cov_date := latest_time_value;
              geo_type := geo;
              count := Z.of_nat cnt |} ].

(** The step of [groupby_size]. *)
Definition count_row (groups : list (group_key * nat)) (r : TimeSeries.row)
  : list (group_key * nat) :=
  add_to_group (key_of r) groups.

(** The unique keys of a status row and of a coverage row. *)
Definition status_key (x : DashboardSignalStatus) : Z * Z :=
  (signal_id x, date_ x).

Definition coverage_key (x : DashboardSignalCoverage) : Z * Z * string :=
  (cov_signal_id x, cov_date x, geo_type x).

(** The dates that the entries [(signal_id, date)] hold for signal [k]. *)
Fixpoint dates_for (k : Z) (entries : list (Z * Z)) : list Z :=
  match entries with
  | [] => []
  | (k', d) :: rest =>
      if decide (k' = k) then d :: dates_for k rest else dates_for k rest
  end.

(** A row of [dashboard_signal] whose column [get]/[set] is raised to the
    greatest of its value and of the dates that [entries] hold for the
    row. *)
Definition raised (get : SignalTable.row → Z)
    (set : Z → SignalTable.row → SignalTable.row)
    (entries : list (Z * Z)) (r : SignalTable.row) : SignalTable.row :=
  set (fold_left Z.max (dates_for (SignalTable.id r) entries) (get r)) r.

(** What the statements of a batch write make of the tables when none of
    them fails. *)
Definition status_written (status_list : list DashboardSignalStatus)
    (t : tables) : tables :=
  fold_left (λ t p, update_latest_status p t)
    ((λ kv, (kv.2, kv.1)) <$>
       latest_dates ((λ x, (signal_id x, date_ x)) <$> status_list))
    (fold_left (λ t p, insert_status p t)
       ((λ x, (signal_id x, date_ x, latest_issue x, latest_time_value x))
          <$> status_list) t).

Definition coverage_written (coverage_list : list DashboardSignalCoverage)
    (t : tables) : tables :=
  fold_left (λ t p, update_latest_coverage p t)
    ((λ kv, (kv.2, kv.1)) <$>
       latest_dates ((λ x, (cov_signal_id x, cov_date x)) <$> coverage_list))
    (fold_left (λ t p, insert_coverage p t)
       ((λ x, (cov_signal_id x, cov_date x, geo_type x, count x))
          <$> coverage_list) t).

(** No statement to come fails. *)
Definition quiet (c : connection) : Prop :=
  Forall (λ fault, fault = None) (faults c).

(** A method of the store that, when no statement fails, returns, makes
    [effect] of the tables in the transaction, commits them or leaves the
    committed tables alone, and leaves no failure to come. *)
Definition succeeds {A : Type} (m : store A) (effect : tables → tables)
    (commits : bool) : Prop :=
  ∀ c, quiet c →
    ∃ x c',
      m c = (Return x, c') ∧
      working c' = effect (working c) ∧
      committed c' = (if commits then effect (working c) else committed c) ∧
      quiet c'.

(** The connection after a sequence of batch writes, one call for each
    batch. *)
Definition write_all {A : Type} (write : A → store ())
    (batches : list A) (c : connection) : connection :=
  fold_left (λ c batch, (write batch c).2) batches c.

(** The step of the loop of [latest_dates]. *)
Definition note_date (latest_dates : list (Z * Z)) (x : Z * Z) : list (Z * Z) :=
  match dict_get x.1 latest_dates with
  | None => dict_update x.1 x.2 latest_dates
  | Some latest_date =>
      if decide (latest_date < x.2) then dict_update x.1 x.2 latest_dates
      else latest_dates
  end.

(** [SET column = GREATEST(column, p.1) WHERE id = p.2] on one row. *)
Definition greatest (get : SignalTable.row → Z)
    (set : Z → SignalTable.row → SignalTable.row)
    (p : Z * Z) (r : SignalTable.row) : SignalTable.row :=
  if decide (SignalTable.id r = p.2) then set (Z.max (get r) p.1) r else r.

(** Row by row, the same signal with watermarks that are no earlier. *)
Definition rows_le (rows rows' : list SignalTable.row) : Prop :=
  ∀ i r, rows !! i = Some r →
    ∃ r', rows' !! i = Some r' ∧
          SignalTable.id r' = SignalTable.id r ∧
          SignalTable.latest_status_update r
            ≤ SignalTable.latest_status_update r' ∧
          SignalTable.latest_coverage_update r
            ≤ SignalTable.latest_coverage_update r'.

(** A method of the store that only moves watermarks forward. *)
Definition advances {A : Type} (m : store A) : Prop :=
  ∀ c, rows_le (dashboard_signal (working c))
               (dashboard_signal (working (m c).2)).

(** A method of the store that raises nothing but [mysql.connector.Error]. *)
Definition raises_mysql_only {A : Type} (m : store A) : Prop :=
  ∀ c e, (m c).1 = Raise e → ∃ msg, e = MySQLError msg.

(** A method of the store that commits nothing. *)
Definition keeps_committed {A : Type} (m : store A) : Prop :=
  ∀ c, committed (m c).2 = committed c.

(** The log record that a guarded batch write leaves. *)
Definition write_record (event : string) (r : result ()) : log_record :=
  match r with
  | Return _ => LogInfo event
  | Raise e => LogException e
  end.

(** INSERT ... ON DUPLICATE KEY UPDATE of the rows, in order, on a table
    seen as a map from its unique key. *)
Definition upsert_all {K V A : Type} `{Countable K}
    (key : A → K) (value : A → V) (rows : list A) (m : gmap K V) : gmap K V :=
  fold_left (λ m x, <[key x := value x]> m) rows m.

(** INSERT ... ON DUPLICATE KEY UPDATE k = k of the rows, in order. *)
Definition insert_new_all {K V A : Type} `{Countable K}
    (key : A → K) (value : A → V) (rows : list A) (m : gmap K V) : gmap K V :=
  fold_left
    (λ m x, match m !! key x with
            | Some _ => m
            | None => <[key x := value x]> m
            end) rows m.

(** The rows of [dashboard_signal] before and after: the same rows in the
    same order, up to the column that [set] writes and [get] reads. *)
Definition rows_up_to (get : SignalTable.row → Z)
    (set : Z → SignalTable.row → SignalTable.row)
    (rows rows' : list SignalTable.row) : Prop :=
  Forall2 (λ r r', r' = set (get r') r) rows rows'.

(** What a [write_status] may change in the tables: the status table and
    the column [latest_status_update].  What a [write_coverage] may change:
    the coverage table and the column [latest_coverage_update]. *)
Definition status_write_frame (t t' : tables) : Prop :=
  dashboard_signal_coverage t' = dashboard_signal_coverage t ∧
  rows_up_to SignalTable.latest_status_update set_latest_status_update
             (dashboard_signal t) (dashboard_signal t').

Definition coverage_write_frame (t t' : tables) : Prop :=
  dashboard_signal_status t' = dashboard_signal_status t ∧
  rows_up_to SignalTable.latest_coverage_update set_latest_coverage_update
             (dashboard_signal t) (dashboard_signal t').

(** A method of the store whose effect on the tables of the transaction
    stays within [R], whatever fails. *)
Definition keeps (R : tables → tables → Prop) {A : Type} (m : store A) : Prop :=
  ∀ c, R (working c) (working (m c).2).

(** The watermarks cover the rows: a row of the status table is dated no
    later than the [latest_status_update] of its signal, and a row of the
    coverage table no later than its [latest_coverage_update]. *)
Definition watermarks_cover (t : tables) : Prop :=
  (∀ k d v r,
      dashboard_signal_status t !! (k, d) = Some v →
      r ∈ dashboard_signal t → SignalTable.id r = k →
      d ≤ SignalTable.latest_status_update r) ∧
  (∀ k d g n r,
      dashboard_signal_coverage t !! (k, d, g) = Some n →
      r ∈ dashboard_signal t → SignalTable.id r = k →
      d ≤ SignalTable.latest_coverage_update r).

(** The signal that [get_enabled_signals] makes of a row, and the signals
    it makes of the enabled rows of the tables. *)
Definition signal_of_row (r : SignalTable.row) : DashboardSignal :=
  {| db_id := SignalTable.id r;
     name := SignalTable.name r;
     source := SignalTable.source r;
     latest_coverage_update := SignalTable.latest_coverage_update r;
     latest_status_update := SignalTable.latest_status_update r |}.

Definition enabled_signals (t : tables) : list DashboardSignal :=
  signal_of_row <$> filter (λ r, SignalTable.enabled r = true) (dashboard_signal t).

(** From [t] to [t'] no row is lost: each row of the coverage table is
    there with its count, and each key of the status table still has a
    row. *)
Definition rows_remain (t t' : tables) : Prop :=
  (∀ k n, dashboard_signal_coverage t !! k = Some n →
          dashboard_signal_coverage t' !! k = Some n) ∧
  (∀ k, is_Some (dashboard_signal_status t !! k) →
        is_Some (dashboard_signal_status t' !! k)).

(** ** A worked run

    One enabled signal [(id = 1, source = "src", name = "sig")], one
    metadata row for it with [max_issue = 20230105] and
    [max_time = 2023-01-04], and an API that answers the query for
    2023-01-04 with three county rows. *)

Definition example_signal : DashboardSignal :=
  {| db_id := 1; name := "sig"; source := "src";
     latest_coverage_update := ymd2ord 2020 1 1;
     latest_status_update := ymd2ord 2020 1 1 |}.

(** The same signal under another name and with other watermarks. *)
Definition example_signal_renamed : DashboardSignal :=
  {| db_id := 1; name := "other"; source := "src";
     latest_coverage_update := ymd2ord 2021 6 1;
     latest_status_update := ymd2ord 2022 6 1 |}.

Definition example_metadata : list Metadata.row :=
  [ {| Metadata.data_source := "src"; Metadata.signal := "sig";
       Metadata.max_issue := 20230105;
       Metadata.max_time := (ymd2ord 2023 1 4 - epoch_ordinal) * ns_per_day |} ].

Definition example_row (geo : string) : TimeSeries.row :=
  {| TimeSeries.geo_type := geo; TimeSeries.data_source := "src";
     TimeSeries.time_value := (ymd2ord 2023 1 4 - epoch_ordinal) * ns_per_day;
     TimeSeries.signal := "sig" |}.

Definition example_api (rows : option (list TimeSeries.row))
    (data_source signal : string) (start_day end_day : Z)
  : option (list TimeSeries.row) :=
  if decide (data_source = "src" ∧ signal = "sig" ∧
             start_day = ymd2ord 2023 1 4 ∧ end_day = ymd2ord 2023 1 4)
  then rows else None.

Definition example_tables : tables :=
  {| dashboard_signal :=
       [ {| SignalTable.id := 1; SignalTable.name := "sig";
            SignalTable.source := "src"; SignalTable.enabled := true;
            SignalTable.latest_coverage_update := ymd2ord 2020 1 1;
            SignalTable.latest_status_update := ymd2ord 2020 1 1 |} ];
     dashboard_signal_status := ∅;
     dashboard_signal_coverage := ∅ |}.

Definition example_connection (faults : list (option string)) : connection :=
  {| committed := example_tables; working := example_tables; faults := faults |}.

Definition example_world (faults : list (option string)) : world :=
  {| conn := example_connection faults; log := [] |}.

Definition example_registry_row : SignalTable.row :=
  {| SignalTable.id := 1; SignalTable.name := "sig";
     SignalTable.source := "src"; SignalTable.enabled := true;
     SignalTable.latest_coverage_update := ymd2ord 2020 1 1;
     SignalTable.latest_status_update := ymd2ord 2020 1 1 |}.

Definition example_status (day issue : Z) : DashboardSignalStatus :=
  {| signal_id := 1; date_ := day; latest_issue := issue;
     latest_time_value := ymd2ord 2023 1 4 |}.

Definition example_coverage (n : Z) : DashboardSignalCoverage :=
  {| cov_signal_id := 1; cov_date := ymd2ord 2023 1 4;
     geo_type := "county"; count := n |}.

Definition example_status_batches : list (list DashboardSignalStatus) :=
  [ [ example_status (ymd2ord 2023 1 6) (ymd2ord 2023 1 5) ];
    [ example_status (ymd2ord 2023 1 5) (ymd2ord 2023 1 5);
      example_status (ymd2ord 2023 1 7) (ymd2ord 2023 1 6) ] ].

Definition example_coverage_batches : list (list DashboardSignalCoverage) :=
  [ [ example_coverage 3 ]; [ example_coverage 5 ] ].

Definition example_today : Z := ymd2ord 2023 1 6.

(** A metadata row of another source, and the metadata of the worked run
    with that row and with its own row twice. *)
Definition example_other_row : Metadata.row :=
  {| Metadata.data_source := "other"; Metadata.signal := "sig2";
     Metadata.max_issue := 20240101;
     Metadata.max_time := (ymd2ord 2024 1 1 - epoch_ordinal) * ns_per_day |}.

Definition example_metadata_mixed : list Metadata.row :=
  example_other_row :: example_metadata ++ example_metadata.

(** The metadata of a source with two signals behind a row of another
    source: the first row of the source names the signal, its second row
    has the latest [max_time]; the row of the other source is later
    still. *)
Definition example_first_row : Metadata.row :=
  {| Metadata.data_source := "src"; Metadata.signal := "sig";
     Metadata.max_issue := 20230103;
     Metadata.max_time := (ymd2ord 2023 1 2 - epoch_ordinal) * ns_per_day |}.

Definition example_latest_row : Metadata.row :=
  {| Metadata.data_source := "src"; Metadata.signal := "sig_b";
     Metadata.max_issue := 20230105;
     Metadata.max_time := (ymd2ord 2023 1 4 - epoch_ordinal) * ns_per_day |}.

Definition example_metadata_several : list Metadata.row :=
  [example_other_row; example_first_row; example_latest_row].

(** The row of [example_metadata]. *)
Definition example_metadata_row : Metadata.row :=
  {| Metadata.data_source := "src"; Metadata.signal := "sig";
     Metadata.max_issue := 20230105;
     Metadata.max_time := (ymd2ord 2023 1 4 - epoch_ordinal) * ns_per_day |}.

(** An API that answers every query for 2023-01-04 with the given rows,
    whatever the source and the signal, and other days with an empty
    frame. *)
Definition example_api_by_day (rows : list TimeSeries.row)
    (data_source signal : string) (start_day end_day : Z)
  : option (list TimeSeries.row) :=
  if decide (start_day = ymd2ord 2023 1 4) then Some rows else Some [].

(** The tables of the worked run with the signal disabled. *)
Definition example_tables_disabled : tables :=
  {| dashboard_signal :=
       [ {| SignalTable.id := 1; SignalTable.name := "sig";
            SignalTable.source := "src"; SignalTable.enabled := false;
            SignalTable.latest_coverage_update := ymd2ord 2020 1 1;
            SignalTable.latest_status_update := ymd2ord 2020 1 1 |} ];
     dashboard_signal_status := ∅;
     dashboard_signal_coverage := ∅ |}.

Definition example_world_disabled (faults : list (option string)) : world :=
  {| conn := {| committed := example_tables_disabled;
                working := example_tables_disabled;
                faults := faults |};
     log := [] |}.

Definition example_three_counties : list TimeSeries.row :=
  [example_row "county"; example_row "county"; example_row "county"].

(** * Properties *)

(** ** Columns and their maxima *)

Lemma fold_left_max_ge (xs : list Z) (x : Z) : x ≤ fold_left Z.max xs x.
Proof.
  revert x. induction xs as [|y ys IH]; intros x; simpl; [lia|].
  specialize (IH (Z.max x y)). lia.
Qed.

Lemma fold_left_max_upper (xs : list Z) (x y : Z) :
  y ∈ xs → y ≤ fold_left Z.max xs x.
Proof.
  revert x. induction xs as [|z zs IH]; intros x Hy; simpl.
  - by apply elem_of_nil in Hy.
  - apply elem_of_cons in Hy as [->|Hy]; [|by apply IH].
    pose proof (fold_left_max_ge zs (Z.max x z)). lia.
Qed.

Lemma fold_left_max_elem (xs : list Z) (x : Z) :
  fold_left Z.max xs x = x ∨ fold_left Z.max xs x ∈ xs.
Proof.
  revert x. induction xs as [|z zs IH]; intros x; simpl; [by left|].
  destruct (IH (Z.max x z)) as [Heq|Hin].
  - rewrite Heq. destruct (Z.max_spec x z) as [[_ ->]|[_ ->]].
    + right. apply elem_of_cons. by left.
    + by left.
  - right. apply elem_of_cons. by right.
Qed.

Lemma Series_max_None (s : list Z) : Series_max s = None ↔ s = [].
Proof. by destruct s. Qed.

Lemma Series_max_Some (s : list Z) (m : Z) :
  Series_max s = Some m → m ∈ s ∧ ∀ x, x ∈ s → x ≤ m.
Proof.
  destruct s as [|x xs]; [done|]. simpl. intros [= <-]. split.
  - destruct (fold_left_max_elem xs x) as [->|Hin].
    + apply elem_of_cons. by left.
    + apply elem_of_cons. by right.
  - intros y [->|Hy]%elem_of_cons.
    + apply fold_left_max_ge.
    + by apply fold_left_max_upper.
Qed.

Lemma elem_of_rows_for_source (src : string) (metadata : list Metadata.row)
    (r : Metadata.row) :
  r ∈ rows_for_source src metadata ↔ Metadata.data_source r = src ∧ r ∈ metadata.
Proof.
  unfold rows_for_source.
  apply (list_elem_of_filter (λ r, Metadata.data_source r = src)).
Qed.

Lemma rows_for_source_nil (src : string) (metadata : list Metadata.row) :
  (∀ r, r ∈ metadata → Metadata.data_source r ≠ src) →
  rows_for_source src metadata = [].
Proof.
  intros Hno. destruct (rows_for_source src metadata) as [|r rs] eqn:E; [done|].
  assert (r ∈ rows_for_source src metadata) as Hr by (rewrite E; left).
  apply elem_of_rows_for_source in Hr as [Hsrc Hin]. by destruct (Hno r Hin).
Qed.

(** ** Dates and timestamps *)

Lemma days_in_month_bounds (y m : Z) : 28 ≤ days_in_month y m ≤ 31.
Proof.
  unfold days_in_month.
  repeat match goal with |- context [if ?b then _ else _] => destruct b end; lia.
Qed.

(** ** The string of an integer and the format *)

(** Linear arithmetic with quotients and remainders by constants. *)
Ltac lia_div := zify; Z.to_euclidean_division_equations; lia.

(** The character of a decimal digit. *)
Lemma digit_of_pretty_N_char (k : N) :
  (k < 10)%N → digit_of (pretty_N_char k) = Some (Z.of_N k).
Proof.
  intros Hk.
  assert (k = 0 ∨ k = 1 ∨ k = 2 ∨ k = 3 ∨ k = 4 ∨ k = 5 ∨ k = 6 ∨ k = 7 ∨
          k = 8 ∨ k = 9)%N as Hcases by lia.
  repeat (destruct Hcases as [->|Hcases]; [reflexivity|]). by subst.
Qed.

Lemma digit_in_pretty_N_char (lo hi : Z) (k : N) (rest : string) :
  (k < 10)%N → lo ≤ Z.of_N k ≤ hi →
  digit_in lo hi (String (pretty_N_char k) rest) = [(Z.of_N k, rest)].
Proof.
  intros Hk Hrange. unfold digit_in. rewrite digit_of_pretty_N_char by done.
  replace (lo <=? Z.of_N k) with true by (symmetry; apply Z.leb_le; lia).
  replace (Z.of_N k <=? hi) with true by (symmetry; apply Z.leb_le; lia).
  reflexivity.
Qed.

(** [str] writes the last digit last. *)
Lemma pretty_N_go_digit (x k : N) (s : string) :
  (k < 10)%N → (0 < x * 10 + k)%N →
  pretty_N_go (x * 10 + k) s = pretty_N_go x (String (pretty_N_char k) s).
Proof.
  intros Hk Hpos. rewrite pretty_N_go_step by done. f_equal.
  - symmetry. apply (N.div_unique _ _ _ k); lia.
  - do 2 f_equal. symmetry. apply (N.mod_unique _ _ x); lia.
Qed.

Lemma pretty_8_digits (a b c d e f g h : N) :
  (0 < a < 10)%N → (b < 10)%N → (c < 10)%N → (d < 10)%N → (e < 10)%N →
  (f < 10)%N → (g < 10)%N → (h < 10)%N →
  pretty (Z.of_N (((((((a * 10 + b) * 10 + c) * 10 + d) * 10 + e) * 10 + f)
                     * 10 + g) * 10 + h))
  = String (pretty_N_char a) (String (pretty_N_char b)
      (String (pretty_N_char c) (String (pretty_N_char d)
         (String (pretty_N_char e) (String (pretty_N_char f)
            (String (pretty_N_char g) (String (pretty_N_char h) ""))))))).
Proof.
  intros Ha Hb Hc Hd He Hf Hg Hh.
  set (x := (((((((a * 10 + b) * 10 + c) * 10 + d) * 10 + e) * 10 + f)
               * 10 + g) * 10 + h)%N).
  assert (0 < x)%N as Hx by (unfold x; lia).
  destruct x as [|p] eqn:Ex; [lia|].
  change (pretty (N.pos p) = String (pretty_N_char a) (String (pretty_N_char b)
      (String (pretty_N_char c) (String (pretty_N_char d)
         (String (pretty_N_char e) (String (pretty_N_char f)
            (String (pretty_N_char g) (String (pretty_N_char h) "")))))))).
  unfold pretty, pretty_N. rewrite decide_False by done. rewrite <- Ex.
  unfold x. rewrite !pretty_N_go_digit by lia.
  replace a with (0 * 10 + a)%N at 1 by lia.
  rewrite pretty_N_go_digit by lia. apply pretty_N_go_0.
Qed.

Lemma head_bind_cons {A B : Type} (f : A → list B) (x : A) (xs : list A)
    (y : B) (ys : list B) :
  f x = y :: ys → head ((x :: xs) ≫= f) = Some y.
Proof. intros Hf. simpl. by rewrite Hf. Qed.

Lemma regex_Y_digits (a b c d : N) (rest : string) :
  (a < 10)%N → (b < 10)%N → (c < 10)%N → (d < 10)%N →
  regex_Y (String (pretty_N_char a) (String (pretty_N_char b)
             (String (pretty_N_char c) (String (pretty_N_char d) rest))))
  = [(Z.of_N (((a * 10 + b) * 10 + c) * 10 + d), rest)].
Proof.
  intros Ha Hb Hc Hd. unfold regex_Y, followed_by.
  rewrite (digit_in_pretty_N_char 0 9 a) by lia.
  cbn [mbind list_bind fst snd app].
  rewrite (digit_in_pretty_N_char 0 9 b) by lia.
  cbn [mbind list_bind fst snd app].
  rewrite (digit_in_pretty_N_char 0 9 c) by lia.
  cbn [mbind list_bind fst snd app].
  rewrite (digit_in_pretty_N_char 0 9 d) by lia.
  cbn [mbind list_bind fst snd app].
  do 2 f_equal. lia.
Qed.

Lemma regex_m_digits (e f : N) (rest : string) :
  (1 ≤ e * 10 + f ≤ 12)%N → (f < 10)%N →
  ∃ others,
    regex_m (String (pretty_N_char e) (String (pretty_N_char f) rest))
    = (Z.of_N (e * 10 + f), rest) :: others.
Proof.
  intros Hm Hf.
  assert (e = 0 ∨ e = 1)%N as [->| ->] by lia.
  - assert (f = 1 ∨ f = 2 ∨ f = 3 ∨ f = 4 ∨ f = 5 ∨ f = 6 ∨ f = 7 ∨
            f = 8 ∨ f = 9)%N as Hcases by lia.
    repeat (destruct Hcases as [->|Hcases]; [eexists; reflexivity|]).
    subst. eexists; reflexivity.
  - assert (f = 0 ∨ f = 1 ∨ f = 2)%N as Hcases by lia.
    repeat (destruct Hcases as [->|Hcases]; [eexists; reflexivity|]).
    subst. eexists; reflexivity.
Qed.

Lemma regex_d_digits (g h : N) :
  (1 ≤ g * 10 + h ≤ 31)%N → (h < 10)%N →
  ∃ others,
    regex_d (String (pretty_N_char g) (String (pretty_N_char h) ""))
    = (Z.of_N (g * 10 + h), "") :: others.
Proof.
  intros Hd Hh.
  assert (g = 0 ∨ g = 1 ∨ g = 2 ∨ g = 3)%N as Hg by lia.
  assert (h = 0 ∨ h = 1 ∨ h = 2 ∨ h = 3 ∨ h = 4 ∨ h = 5 ∨ h = 6 ∨ h = 7 ∨
          h = 8 ∨ h = 9)%N as Hcases by lia.
  destruct Hg as [->|[->|[->| ->]]];
    repeat (destruct Hcases as [->|Hcases];
            [first [lia | eexists; reflexivity]|]);
    subst; first [lia | eexists; reflexivity].
Qed.

Lemma two_digits (x : Z) :
  0 ≤ x < 100 →
  ∃ e f : N, x = Z.of_N (e * 10 + f) ∧ (e < 10)%N ∧ (f < 10)%N.
Proof.
  intros Hx. exists (Z.to_N (x / 10)), (Z.to_N (x mod 10)).
  pose proof (Z.div_mod x 10). pose proof (Z.mod_pos_bound x 10).
  assert (0 ≤ x / 10 < 10) by (split; [apply Z.div_pos|apply Z.div_lt_upper_bound]; lia).
  lia.
Qed.

Lemma four_digits (x : Z) :
  1000 ≤ x < 10000 →
  ∃ a b c d : N,
    x = Z.of_N (((a * 10 + b) * 10 + c) * 10 + d) ∧
    (0 < a < 10)%N ∧ (b < 10)%N ∧ (c < 10)%N ∧ (d < 10)%N.
Proof.
  intros Hx.
  destruct (two_digits (x / 100)) as (a & b & Eab & Ha & Hb).
  { split; [apply Z.div_pos|apply Z.div_lt_upper_bound]; lia. }
  destruct (two_digits (x mod 100)) as (c & d & Ecd & Hc & Hd).
  { apply Z.mod_pos_bound. lia. }
  exists a, b, c, d. pose proof (Z.div_mod x 100).
  assert (10 ≤ x / 100) by (apply Z.div_le_lower_bound; lia).
  lia.
Qed.

(** The text of a YYYYMMDD integer matches the format as a whole, with its
    year, month and day in the three groups. *)
Lemma match_Ymd_pretty (y m d : Z) :
  1000 ≤ y ≤ 9999 → 1 ≤ m ≤ 12 → 1 ≤ d ≤ 31 →
  match_Ymd (pretty (y * 10000 + m * 100 + d)) = Some (y, m, d, "").
Proof.
  intros Hy Hm Hd.
  destruct (four_digits y) as (a & b & c & d0 & -> & Ha & Hb & Hc & Hd0);
    [lia|].
  destruct (two_digits m) as (e & f & -> & He & Hf); [lia|].
  destruct (two_digits d) as (g & h & -> & Hg & Hh); [lia|].
  replace (Z.of_N (((a * 10 + b) * 10 + c) * 10 + d0) * 10000
           + Z.of_N (e * 10 + f) * 100 + Z.of_N (g * 10 + h))
    with (Z.of_N (((((((a * 10 + b) * 10 + c) * 10 + d0) * 10 + e) * 10 + f)
                     * 10 + g) * 10 + h)) by lia.
  rewrite pretty_8_digits by lia.
  unfold match_Ymd. rewrite regex_Y_digits by lia.
  destruct (regex_m_digits e f
              (String (pretty_N_char g) (String (pretty_N_char h) "")))
    as [ms Em]; [lia|done|].
  destruct (regex_d_digits g h) as [ds Ed]; [lia|done|].
  cbn [mbind list_bind fst snd app]. rewrite Em.
  cbn [mbind list_bind fst snd app]. rewrite Ed.
  reflexivity.
Qed.

Lemma days_before_month_bounds (y m : Z) :
  1 ≤ m ≤ 12 → 0 ≤ days_before_month y m ≤ 335.
Proof.
  intros Hm.
  assert (m = 1 ∨ m = 2 ∨ m = 3 ∨ m = 4 ∨ m = 5 ∨ m = 6 ∨ m = 7 ∨ m = 8 ∨
          m = 9 ∨ m = 10 ∨ m = 11 ∨ m = 12) as Hcases by lia.
  unfold days_before_month.
  repeat (destruct Hcases as [->|Hcases];
          [simpl; unfold days_in_month; simpl; destruct (is_leap y); lia|]).
  subst. simpl. unfold days_in_month. simpl. destruct (is_leap y); lia.
Qed.

(** A date within the range of a nanosecond timestamp has a year of four
    digits. *)
Lemma in_ns_bounds_year (y m d : Z) :
  valid_ymd y m d = true → in_ns_bounds (ymd2ord y m d) = true →
  1000 ≤ y ≤ 9999 ∧ 1 ≤ m ≤ 12 ∧ 1 ≤ d ≤ 31.
Proof.
  unfold valid_ymd, in_ns_bounds. intros Hv Hb.
  repeat (apply andb_prop in Hv as [Hv ?]). apply andb_prop in Hb as [Hlo _].
  pose proof (days_in_month_bounds y m).
  assert (1 ≤ m ≤ 12 ∧ 1 ≤ d ≤ 31) as [Hm Hd] by lia.
  pose proof (days_before_month_bounds y m Hm).
  split; [|done]. split; [|lia].
  apply Z.leb_le in Hlo.
  assert (ymd2ord 1677 9 22 = 612412) as E by reflexivity.
  unfold ymd2ord at 2 in Hlo. unfold days_before_year in Hlo.
  rewrite E in Hlo. cbv zeta in Hlo. lia_div.
Qed.

(** [pd.to_datetime(str(n), format="%Y%m%d")] at a well-formed YYYYMMDD
    integer. *)
Lemma to_datetime_Ymd_valid (y m d : Z) :
  valid_ymd y m d = true → in_ns_bounds (ymd2ord y m d) = true →
  to_datetime_Ymd (Some (y * 10000 + m * 100 + d))
  = Return (Timestamp_of_date (ymd2ord y m d)).
Proof.
  intros Hv Hb. destruct (in_ns_bounds_year y m d Hv Hb) as (Hy & Hm & Hd).
  unfold to_datetime_Ymd. cbv zeta. rewrite match_Ymd_pretty by done.
  by rewrite Hv, Hb.
Qed.

Lemma Timestamp_date_of_date (d : Z) :
  Timestamp_date (Timestamp_of_date d) = Date d.
Proof.
  unfold Timestamp_date, Timestamp_of_date. f_equal.
  rewrite Z.div_mul by (unfold ns_per_day; lia). lia.
Qed.

(** ** The coverage calculator *)

(** The rows of a source when the table is split at the first of them. *)
Lemma rows_for_source_first (src : string)
    (before after : list Metadata.row) (first : Metadata.row) :
  (∀ r, r ∈ before → Metadata.data_source r ≠ src) →
  Metadata.data_source first = src →
  rows_for_source src (before ++ first :: after)
  = first :: rows_for_source src after.
Proof.
  intros Hbefore Hfirst. unfold rows_for_source.
  rewrite filter_app, filter_cons_True by done.
  fold (rows_for_source src before). by rewrite rows_for_source_nil.
Qed.

(** The latest time value is the date of the greatest [max_time] among the
    rows of the source. *)
Lemma latest_time_value_of_latest_row
    (dashboard_signal : DashboardSignal) (metadata : list Metadata.row)
    (latest : Metadata.row) :
  latest ∈ metadata →
  Metadata.data_source latest = source dashboard_signal →
  (∀ r, r ∈ metadata → Metadata.data_source r = source dashboard_signal →
        Metadata.max_time r ≤ Metadata.max_time latest) →
  get_latest_time_value_from_metadata dashboard_signal metadata
  = Return (Date (epoch_ordinal + Metadata.max_time latest / ns_per_day)).
Proof.
  intros Hin Hsrc Hmax. unfold get_latest_time_value_from_metadata.
  assert (latest ∈ rows_for_source (source dashboard_signal) metadata) as Hrow
    by (by apply elem_of_rows_for_source).
  destruct (Series_max
              (Metadata.max_time <$>
                 rows_for_source (source dashboard_signal) metadata))
    as [t|] eqn:Ht.
  - destruct (Series_max_Some _ _ Ht) as [Hm Hub].
    apply list_elem_of_fmap in Hm as (r & -> & Hr).
    apply elem_of_rows_for_source in Hr as [Hsrc' Hin'].
    assert (Metadata.max_time r = Metadata.max_time latest) as ->.
    { apply Z.le_antisymm; [by apply Hmax|].
      apply Hub, list_elem_of_fmap. by exists latest. }
    reflexivity.
  - apply Series_max_None, fmap_nil_inv in Ht. rewrite Ht in Hrow.
    by apply elem_of_nil in Hrow.
Qed.

(** C4.  When the metadata table has a row for the signal's source, the
    latest issue is what the maximum [max_issue] among the rows of that
    source decodes to: the maximum [m] is the [max_issue] of one of these
    rows and bounds the others, the call does what decoding [m] does, and
    when [m] is the YYYYMMDD integer of a valid date the call returns that
    date. *)
Theorem latest_issue_decodes_max_issue
    (dashboard_signal : DashboardSignal) (metadata : list Metadata.row) :
  (∃ r, r ∈ metadata ∧ Metadata.data_source r = source dashboard_signal) →
  ∃ m,
    (∃ r, r ∈ metadata ∧ Metadata.data_source r = source dashboard_signal ∧
          Metadata.max_issue r = m) ∧
    (∀ r, r ∈ metadata → Metadata.data_source r = source dashboard_signal →
          Metadata.max_issue r ≤ m) ∧
    get_latest_issue_from_metadata dashboard_signal metadata
      = Timestamp_date <$> to_datetime_Ymd (Some m) ∧
    (∀ year month day,
        m = year * 10000 + month * 100 + day →
        valid_ymd year month day = true →
        in_ns_bounds (ymd2ord year month day) = true →
        get_latest_issue_from_metadata dashboard_signal metadata
          = Return (Date (ymd2ord year month day))).
Proof.
  intros (r0 & Hin0 & Hsrc0).
  assert (r0 ∈ rows_for_source (source dashboard_signal) metadata) as Hr0
    by (by apply elem_of_rows_for_source).
  destruct (Series_max
              (Metadata.max_issue <$>
                 rows_for_source (source dashboard_signal) metadata))
    as [m|] eqn:Hmax.
  - exists m. destruct (Series_max_Some _ _ Hmax) as [Hm Hub].
    apply list_elem_of_fmap in Hm as (r & -> & Hr).
    apply elem_of_rows_for_source in Hr as [Hsrc Hin].
    assert (get_latest_issue_from_metadata dashboard_signal metadata
            = Timestamp_date <$> to_datetime_Ymd (Some (Metadata.max_issue r)))
      as Hcall by (unfold get_latest_issue_from_metadata; by rewrite Hmax).
    repeat split.
    + by exists r.
    + intros r' Hin' Hsrc'. apply Hub, list_elem_of_fmap. exists r'.
      split; [done|]. by apply elem_of_rows_for_source.
    + done.
    + intros y mo d Hm Hv Hb. rewrite Hcall, Hm.
      rewrite to_datetime_Ymd_valid by done.
      cbn [fmap result_fmap]. by rewrite Timestamp_date_of_date.
  - apply Series_max_None, fmap_nil_inv in Hmax. rewrite Hmax in Hr0.
    by apply elem_of_nil in Hr0.
Qed.

Lemma latest_issue_decodes_max_issue_witness :
  ∃ m,
    (∃ r, r ∈ example_metadata ∧
          Metadata.data_source r = source example_signal ∧
          Metadata.max_issue r = m) ∧
    (∀ r, r ∈ example_metadata →
          Metadata.data_source r = source example_signal →
          Metadata.max_issue r ≤ m) ∧
    get_latest_issue_from_metadata example_signal example_metadata
      = Timestamp_date <$> to_datetime_Ymd (Some m) ∧
    (∀ year month day,
        m = year * 10000 + month * 100 + day →
        valid_ymd year month day = true →
        in_ns_bounds (ymd2ord year month day) = true →
        get_latest_issue_from_metadata example_signal example_metadata
          = Return (Date (ymd2ord year month day))).
Proof.
  apply (latest_issue_decodes_max_issue example_signal example_metadata).
  eexists. split; [left|reflexivity].
Defined.

(** C5, as the code has it.  When the metadata table has no row for the
    signal's source, [get_latest_issue_from_metadata] and
    [get_latest_time_value_from_metadata] do not raise: the maximum of the
    empty column is a null, pandas turns it into [NaT], and [NaT.date()] is
    [NaT], which both return.  The source without metadata shows in
    [get_coverage], which raises the [IndexError] of [iloc[0]] on the empty
    selection, whatever the data API would answer. *)
Theorem no_metadata_rows_give_NaT
    (covidcast_signal : string → string → Z → Z → option (list TimeSeries.row))
    (dashboard_signal : DashboardSignal) (metadata : list Metadata.row) :
  (∀ r, r ∈ metadata → Metadata.data_source r ≠ source dashboard_signal) →
  get_latest_issue_from_metadata dashboard_signal metadata = Return NaT_date ∧
  get_latest_time_value_from_metadata dashboard_signal metadata
    = Return NaT_date ∧
  get_coverage covidcast_signal dashboard_signal metadata
    = Raise (IndexError "single positional indexer is out-of-bounds").
Proof.
  intros Hno.
  unfold get_coverage, get_latest_issue_from_metadata,
    get_latest_time_value_from_metadata.
  by rewrite (rows_for_source_nil _ _ Hno).
Qed.

Lemma no_metadata_rows_give_NaT_witness :
  get_latest_issue_from_metadata example_signal [example_other_row]
    = Return NaT_date ∧
  get_latest_time_value_from_metadata example_signal [example_other_row]
    = Return NaT_date ∧
  get_coverage (example_api (Some example_three_counties))
      example_signal [example_other_row]
    = Raise (IndexError "single positional indexer is out-of-bounds").
Proof.
  apply (no_metadata_rows_give_NaT
           (example_api (Some example_three_counties))
           example_signal [example_other_row]).
  intros r Hr. apply list_elem_of_singleton in Hr as ->. discriminate.
Defined.

(** C5, counterexample to the failure.  The table with the one row of
    another source has no row for the source of the signal, and neither
    call raises. *)
Lemma no_metadata_rows_counterexample :
  (∀ r, r ∈ [example_other_row] →
        Metadata.data_source r ≠ source example_signal) ∧
  ¬ (∃ e, get_latest_issue_from_metadata example_signal [example_other_row]
          = Raise e) ∧
  ¬ (∃ e, get_latest_time_value_from_metadata example_signal
            [example_other_row]
          = Raise e).
Proof.
  split; [|split].
  - intros r Hr. apply list_elem_of_singleton in Hr as ->. discriminate.
  - intros [e He]. vm_compute in He. discriminate.
  - intros [e He]. vm_compute in He. discriminate.
Qed.

(** ** Grouping *)

Lemma groupby_size_fold (df : list TimeSeries.row) :
  groupby_size df = fold_left count_row df [].
Proof. reflexivity. Qed.

Lemma count_rows_one_key (k : group_key) (df : list TimeSeries.row) (n : nat) :
  (∀ r, r ∈ df → key_of r = k) →
  fold_left count_row df [(k, n)] = [(k, (n + length df)%nat)].
Proof.
  revert n. induction df as [|r df IH]; intros n Hk; simpl.
  - by rewrite Nat.add_0_r.
  - unfold count_row at 2. simpl. rewrite (Hk r) by left.
    rewrite decide_True by done. rewrite IH.
    + do 2 f_equal. lia.
    + intros r' Hr'. apply Hk. by right.
Qed.

Lemma groupby_size_one_key (k : group_key) (df : list TimeSeries.row) :
  df ≠ [] → (∀ r, r ∈ df → key_of r = k) →
  groupby_size df = [(k, length df)].
Proof.
  destruct df as [|r df]; [done|]. intros _ Hk.
  rewrite groupby_size_fold. simpl. unfold count_row at 2. simpl.
  rewrite (Hk r) by left. apply count_rows_one_key.
  intros r' Hr'. apply Hk. by right.
Qed.

Lemma elem_of_add_to_group_keys (k k' : group_key)
    (groups : list (group_key * nat)) :
  k' ∈ (add_to_group k groups).*1 ↔ k' = k ∨ k' ∈ groups.*1.
Proof.
  induction groups as [|[k0 n] groups IH]; simpl.
  - rewrite list_elem_of_singleton, elem_of_nil. tauto.
  - destruct (decide (k = k0)) as [->|Hne]; simpl.
    + rewrite !elem_of_cons. tauto.
    + rewrite !elem_of_cons, IH. tauto.
Qed.

Lemma count_rows_keys (df : list TimeSeries.row)
    (groups : list (group_key * nat)) (k : group_key) :
  k ∈ groups.*1 ∨ (∃ r, r ∈ df ∧ key_of r = k) →
  k ∈ (fold_left count_row df groups).*1.
Proof.
  revert groups. induction df as [|r df IH]; intros groups H; simpl.
  - destruct H as [H|(r & Hr & _)]; [done|]. by apply elem_of_nil in Hr.
  - apply IH. destruct H as [H|(r' & Hr' & Hk)].
    + left. apply elem_of_add_to_group_keys. by right.
    + apply elem_of_cons in Hr' as [->|Hr'].
      * left. apply elem_of_add_to_group_keys. by left.
      * right. by exists r'.
Qed.

Lemma groupby_size_two_geo_types (df : list TimeSeries.row)
    (r1 r2 : TimeSeries.row) :
  r1 ∈ df → r2 ∈ df → TimeSeries.geo_type r1 ≠ TimeSeries.geo_type r2 →
  (1 < length (groupby_size df))%nat.
Proof.
  intros H1 H2 Hgeo.
  assert (key_of r1 ∈ (groupby_size df).*1) as K1
    by (apply count_rows_keys; right; by exists r1).
  assert (key_of r2 ∈ (groupby_size df).*1) as K2
    by (apply count_rows_keys; right; by exists r2).
  destruct (groupby_size df) as [|g1 [|g2 gs]]; simpl in *.
  - by apply elem_of_nil in K1.
  - apply list_elem_of_singleton in K1, K2.
    destruct Hgeo. unfold key_of in *. congruence.
  - lia.
Qed.

(** ** Coverage *)

(** What [get_coverage] asks the data API and what it does with the answer,
    when the metadata table is split at the first row of the signal's
    source and [latest] is a row of that source with the greatest
    [max_time]: the query is for the signal name of the first row and for
    the date of that [max_time], as first and as last day. *)
Lemma get_coverage_query
    (covidcast_signal : string → string → Z → Z → option (list TimeSeries.row))
    (dashboard_signal : DashboardSignal)
    (before after : list Metadata.row) (first latest : Metadata.row) :
  (∀ r, r ∈ before → Metadata.data_source r ≠ source dashboard_signal) →
  Metadata.data_source first = source dashboard_signal →
  latest ∈ before ++ first :: after →
  Metadata.data_source latest = source dashboard_signal →
  (∀ r, r ∈ before ++ first :: after →
        Metadata.data_source r = source dashboard_signal →
        Metadata.max_time r ≤ Metadata.max_time latest) →
  get_coverage covidcast_signal dashboard_signal (before ++ first :: after)
  = coverage_of_answer dashboard_signal
      (epoch_ordinal + Metadata.max_time latest / ns_per_day)
      (covidcast_signal (source dashboard_signal) (Metadata.signal first)
         (epoch_ordinal + Metadata.max_time latest / ns_per_day)
         (epoch_ordinal + Metadata.max_time latest / ns_per_day)).
Proof.
  intros Hbefore Hfirst Hin Hsrc Hmax. unfold get_coverage.
  rewrite (latest_time_value_of_latest_row _ _ latest) by done.
  rewrite rows_for_source_first by done. reflexivity.
Qed.

(** C1.  Let the metadata table be split at the first row of the signal's
    source, and let [latest] be a row of that source with the greatest
    [max_time]; the target day is the date of that [max_time].  The query
    goes to the signal name of the first row, for the target day alone.
    When its answer is a non-empty set of rows of that source and signal
    and of one time value which all have one geo_type, [get_coverage]
    returns the one-element list with
    [DashboardSignalCoverage(db_id, target day, geo_type, count)],
    [count] being the number of rows. *)
Theorem coverage_of_single_geo_type
    (covidcast_signal : string → string → Z → Z → option (list TimeSeries.row))
    (dashboard_signal : DashboardSignal)
    (before after : list Metadata.row) (first latest : Metadata.row)
    (latest_data : list TimeSeries.row) (geo : string) (time_value : Z) :
  (∀ r, r ∈ before → Metadata.data_source r ≠ source dashboard_signal) →
  Metadata.data_source first = source dashboard_signal →
  latest ∈ before ++ first :: after →
  Metadata.data_source latest = source dashboard_signal →
  (∀ r, r ∈ before ++ first :: after →
        Metadata.data_source r = source dashboard_signal →
        Metadata.max_time r ≤ Metadata.max_time latest) →
  covidcast_signal (source dashboard_signal) (Metadata.signal first)
    (epoch_ordinal + Metadata.max_time latest / ns_per_day)
    (epoch_ordinal + Metadata.max_time latest / ns_per_day)
  = Some latest_data →
  latest_data ≠ [] →
  (∀ r, r ∈ latest_data → TimeSeries.geo_type r = geo) →
  (∀ r, r ∈ latest_data →
        TimeSeries.data_source r = source dashboard_signal ∧
        TimeSeries.signal r = Metadata.signal first ∧
        TimeSeries.time_value r = time_value) →
  get_coverage covidcast_signal dashboard_signal (before ++ first :: after)
  = Return [ {| cov_signal_id := db_id dashboard_signal;
                cov_date :=
                  epoch_ordinal + Metadata.max_time latest / ns_per_day;
                geo_type := geo;
                count := Z.of_nat (length latest_data) |} ].
Proof.
  intros Hbefore Hfirst Hin Hsrc Hmax Hquery Hne Hgeo Hecho.
  rewrite (get_coverage_query _ _ _ _ _ latest) by done.
  rewrite Hquery. unfold coverage_of_answer.
  cbn [mbind result_bind mret result_ret].
  rewrite (groupby_size_one_key
             (geo, source dashboard_signal, time_value, Metadata.signal first)).
  - reflexivity.
  - done.
  - intros r Hr. unfold key_of.
    destruct (Hecho r Hr) as (-> & -> & ->). by rewrite (Hgeo r Hr).
Qed.

Lemma coverage_of_single_geo_type_witness :
  get_coverage (example_api (Some example_three_counties))
    example_signal example_metadata_several
  = Return [ {| cov_signal_id := 1; cov_date := ymd2ord 2023 1 4;
                geo_type := "county"; count := 3 |} ].
Proof.
  apply (coverage_of_single_geo_type
           (example_api (Some example_three_counties)) example_signal
           [example_other_row] [example_latest_row]
           example_first_row example_latest_row
           example_three_counties "county"
           ((ymd2ord 2023 1 4 - epoch_ordinal) * ns_per_day)).
  - intros r Hr. apply list_elem_of_singleton in Hr as ->. discriminate.
  - reflexivity.
  - right. right. left.
  - reflexivity.
  - intros r Hr Hsrc.
    repeat (apply elem_of_cons in Hr as [->|Hr];
            [first [discriminate Hsrc | vm_compute; discriminate]|]).
    by apply elem_of_nil in Hr.
  - reflexivity.
  - discriminate.
  - intros r Hr. repeat (apply elem_of_cons in Hr as [->|Hr]; [reflexivity|]).
    by apply elem_of_nil in Hr.
  - intros r Hr.
    repeat (apply elem_of_cons in Hr as [->|Hr]; [by repeat split|]).
    by apply elem_of_nil in Hr.
Defined.

(** C2, as the code has it.  With the metadata table split as for C1,
    [get_coverage] raises the [ValueError] of its check, with the number of
    groups in the message, when the answer has rows of two geo_types.  When
    the answer has no row, the frame of the counts has no row either, and
    the check, which asks for more than one row, lets it pass: the call
    then fails at [iloc[0]] with an [IndexError] (or, when the data API
    gives no frame at all, at [groupby] with an [AttributeError]), never
    with the error of the check. *)
Theorem coverage_check_passes_zero_groups
    (covidcast_signal : string → string → Z → Z → option (list TimeSeries.row))
    (dashboard_signal : DashboardSignal)
    (before after : list Metadata.row) (first latest : Metadata.row) :
  (∀ r, r ∈ before → Metadata.data_source r ≠ source dashboard_signal) →
  Metadata.data_source first = source dashboard_signal →
  latest ∈ before ++ first :: after →
  Metadata.data_source latest = source dashboard_signal →
  (∀ r, r ∈ before ++ first :: after →
        Metadata.data_source r = source dashboard_signal →
        Metadata.max_time r ≤ Metadata.max_time latest) →
  let target_day := epoch_ordinal + Metadata.max_time latest / ns_per_day in
  let answer := covidcast_signal (source dashboard_signal)
                  (Metadata.signal first) target_day target_day in
  let outcome := get_coverage covidcast_signal dashboard_signal
                   (before ++ first :: after) in
  (∀ latest_data r1 r2,
      answer = Some latest_data → r1 ∈ latest_data → r2 ∈ latest_data →
      TimeSeries.geo_type r1 ≠ TimeSeries.geo_type r2 →
      (1 < length (groupby_size latest_data))%nat ∧
      outcome = Raise (ValueError
                         ("Expected one row for coverage, got "
                          +:+ pretty (length (groupby_size latest_data))
                          +:+ "."))) ∧
  (answer = Some [] →
   length (groupby_size []) = 0%nat ∧
   outcome = Raise (IndexError "single positional indexer is out-of-bounds")) ∧
  (answer = None →
   outcome
   = Raise (AttributeError "'NoneType' object has no attribute 'groupby'")) ∧
  (answer = Some [] ∨ answer = None →
   ∃ e, outcome = Raise e ∧ ∀ msg, e ≠ ValueError msg).
Proof.
  intros Hbefore Hfirst Hin Hsrc Hmax target_day answer outcome.
  assert (outcome = coverage_of_answer dashboard_signal target_day answer)
    as Hrun by (by apply get_coverage_query).
  assert (answer = Some [] →
          outcome
          = Raise (IndexError "single positional indexer is out-of-bounds"))
    as Hempty by (intros H; by rewrite Hrun, H).
  assert (answer = None →
          outcome
          = Raise (AttributeError
                     "'NoneType' object has no attribute 'groupby'"))
    as Hnone by (intros H; by rewrite Hrun, H).
  split; [|split; [|split; [done|]]].
  - intros latest_data r1 r2 Hans H1 H2 Hgeo.
    pose proof (groupby_size_two_geo_types latest_data r1 r2 H1 H2 Hgeo) as Hlen.
    split; [done|]. rewrite Hrun, Hans. unfold coverage_of_answer.
    cbv beta iota zeta delta [mbind result_bind mret result_ret].
    by rewrite decide_True.
  - intros H. split; [reflexivity|by apply Hempty].
  - intros [H|H].
    + eexists. split; [by apply Hempty|]. discriminate.
    + eexists. split; [by apply Hnone|]. discriminate.
Qed.

Lemma coverage_check_passes_zero_groups_witness :
  get_coverage
    (example_api (Some [example_row "county"; example_row "county";
                        example_row "state"]))
    example_signal example_metadata
  = Raise (ValueError "Expected one row for coverage, got 2.") ∧
  get_coverage (example_api (Some [])) example_signal example_metadata
  = Raise (IndexError "single positional indexer is out-of-bounds") ∧
  get_coverage (example_api None) example_signal example_metadata
  = Raise (AttributeError "'NoneType' object has no attribute 'groupby'").
Proof.
  assert (∀ api,
            let target_day :=
              epoch_ordinal
              + Metadata.max_time example_metadata_row / ns_per_day in
            let answer := api (source example_signal)
                            (Metadata.signal example_metadata_row)
                            target_day target_day in
            let outcome := get_coverage api example_signal
                             ([] ++ example_metadata_row :: []) in
            (∀ latest_data r1 r2,
                answer = Some latest_data →
                r1 ∈ latest_data → r2 ∈ latest_data →
                TimeSeries.geo_type r1 ≠ TimeSeries.geo_type r2 →
                (1 < length (groupby_size latest_data))%nat ∧
                outcome = Raise (ValueError
                                   ("Expected one row for coverage, got "
                                    +:+ pretty (length (groupby_size latest_data))
                                    +:+ "."))) ∧
            (answer = Some [] →
             length (groupby_size []) = 0%nat ∧
             outcome
             = Raise (IndexError "single positional indexer is out-of-bounds")) ∧
            (answer = None →
             outcome
             = Raise (AttributeError
                        "'NoneType' object has no attribute 'groupby'")) ∧
            (answer = Some [] ∨ answer = None →
             ∃ e, outcome = Raise e ∧ ∀ msg, e ≠ ValueError msg)) as Hcode.
  { intros api.
    apply (coverage_check_passes_zero_groups api example_signal
             [] [] example_metadata_row example_metadata_row).
    - intros r Hr. by apply elem_of_nil in Hr.
    - reflexivity.
    - left.
    - reflexivity.
    - intros r Hr _. apply list_elem_of_singleton in Hr as ->. reflexivity. }
  split; [|split].
  - destruct (Hcode (example_api
                       (Some [example_row "county"; example_row "county";
                              example_row "state"]))) as [Hmany _].
    destruct (Hmany [example_row "county"; example_row "county";
                     example_row "state"]
                    (example_row "county") (example_row "state")) as [_ Hraise].
    + reflexivity.
    + left.
    + right. right. left.
    + discriminate.
    + exact Hraise.
  - destruct (Hcode (example_api (Some []))) as (_ & Hempty & _).
    apply Hempty. reflexivity.
  - destruct (Hcode (example_api None)) as (_ & _ & Hnone & _).
    apply Hnone. reflexivity.
Defined.

(** C10.  Two signals with the same [db_id] and the same [source] get the
    same latest issue, the same latest time value and the same coverage from
    any metadata table and any API: the three computations read no other
    field of the signal (not its name, not its watermarks). *)
Theorem calculator_reads_only_id_and_source
    (covidcast_signal : string → string → Z → Z → option (list TimeSeries.row))
    (signal1 signal2 : DashboardSignal) (metadata : list Metadata.row) :
  db_id signal1 = db_id signal2 →
  source signal1 = source signal2 →
  get_latest_issue_from_metadata signal1 metadata
    = get_latest_issue_from_metadata signal2 metadata ∧
  get_latest_time_value_from_metadata signal1 metadata
    = get_latest_time_value_from_metadata signal2 metadata ∧
  get_coverage covidcast_signal signal1 metadata
    = get_coverage covidcast_signal signal2 metadata.
Proof.
  intros Hid Hsrc.
  unfold get_coverage, get_latest_issue_from_metadata,
    get_latest_time_value_from_metadata.
  by rewrite Hid, Hsrc.
Qed.

Lemma calculator_reads_only_id_and_source_witness :
  name example_signal ≠ name example_signal_renamed ∧
  latest_status_update example_signal
    ≠ latest_status_update example_signal_renamed ∧
  get_latest_issue_from_metadata example_signal example_metadata
    = get_latest_issue_from_metadata example_signal_renamed example_metadata ∧
  get_latest_time_value_from_metadata example_signal example_metadata
    = get_latest_time_value_from_metadata example_signal_renamed
        example_metadata ∧
  get_coverage (example_api (Some [example_row "county"]))
      example_signal example_metadata
    = get_coverage (example_api (Some [example_row "county"]))
        example_signal_renamed example_metadata.
Proof.
  split; [discriminate|]. split; [discriminate|].
  apply (calculator_reads_only_id_and_source
           (example_api (Some [example_row "county"]))
           example_signal example_signal_renamed example_metadata);
    reflexivity.
Defined.

(** ** Statements that meet no failure *)

Lemma succeeds_ret {A : Type} (x : A) : succeeds (mret x) id false.
Proof. intros c Hq. by exists x, c. Qed.

Lemma succeeds_bind {A B : Type} (m : store A) (k : A → store B)
    (effect1 effect2 : tables → tables) (commits : bool) :
  succeeds m effect1 false →
  (∀ x, succeeds (k x) effect2 commits) →
  succeeds (m ≫= k) (effect2 ∘ effect1) commits.
Proof.
  intros Hm Hk c Hq.
  destruct (Hm c Hq) as (x & c1 & E1 & W1 & C1 & Q1).
  destruct (Hk x c1 Q1) as (y & c2 & E2 & W2 & C2 & Q2).
  exists y, c2. unfold mbind, store_bind. rewrite E1, E2.
  split; [done|]. simpl. rewrite W2, C2, W1, C1. done.
Qed.

Lemma succeeds_server_call : succeeds server_call id false.
Proof.
  intros c Hq. unfold server_call, quiet in *.
  destruct (faults c) as [|fault fs] eqn:E.
  - exists (), c. repeat split; try done. unfold quiet. by rewrite E.
  - apply Forall_cons in Hq as [-> Hq]. by eexists (), _.
Qed.

Lemma succeeds_execute (statement : tables → tables) :
  succeeds (execute statement) statement false.
Proof.
  apply (succeeds_bind server_call _ id statement false);
    [apply succeeds_server_call|].
  intros _ c Hq. by eexists (), _.
Qed.

Lemma succeeds_executemany_insert {A : Type}
    (statement : A → tables → tables) (seq_params : list A) :
  succeeds (executemany_insert statement seq_params)
           (λ t, fold_left (λ t p, statement p t) seq_params t) false.
Proof.
  destruct seq_params as [|p ps]; [apply succeeds_ret|].
  apply succeeds_execute.
Qed.

Lemma succeeds_executemany {A : Type}
    (statement : A → tables → tables) (seq_params : list A) :
  succeeds (executemany statement seq_params)
           (λ t, fold_left (λ t p, statement p t) seq_params t) false.
Proof.
  induction seq_params as [|p ps IH]; [apply succeeds_ret|].
  apply (succeeds_bind (execute (statement p)) _ (statement p)
           (λ t, fold_left (λ t p, statement p t) ps t) false).
  - apply succeeds_execute.
  - intros _. apply IH.
Qed.

Lemma succeeds_commit : succeeds commit id true.
Proof.
  apply (succeeds_bind server_call _ id id true);
    [apply succeeds_server_call|].
  intros _ c Hq. by eexists (), _.
Qed.

Lemma succeeds_write_status (status_list : list DashboardSignalStatus) :
  succeeds (Database.write_status status_list)
           (status_written status_list) true.
Proof.
  apply (succeeds_bind (executemany_insert insert_status _) _ _
           (λ t, fold_left (λ t p, update_latest_status p t) _ t) true).
  - apply succeeds_executemany_insert.
  - intros _.
    apply (succeeds_bind (executemany update_latest_status _) _ _ id true).
    + apply succeeds_executemany.
    + intros _. apply succeeds_commit.
Qed.

Lemma succeeds_write_coverage (coverage_list : list DashboardSignalCoverage) :
  succeeds (Database.write_coverage coverage_list)
           (coverage_written coverage_list) true.
Proof.
  apply (succeeds_bind (executemany_insert insert_coverage _) _ _
           (λ t, fold_left (λ t p, update_latest_coverage p t) _ t) true).
  - apply succeeds_executemany_insert.
  - intros _.
    apply (succeeds_bind (executemany update_latest_coverage _) _ _ id true).
    + apply succeeds_executemany.
    + intros _. apply succeeds_commit.
Qed.

(** ** The dictionary of latest dates *)

Lemma dict_get_elem_of (k v : Z) (d : list (Z * Z)) :
  dict_get k d = Some v → (k, v) ∈ d.
Proof.
  induction d as [|[k' v'] d IH]; simpl; [done|].
  destruct (decide (k = k')) as [->|Hne].
  - intros [= ->]. left.
  - intros H. right. by apply IH.
Qed.

Lemma dict_get_update_eq (k v : Z) (d : list (Z * Z)) :
  dict_get k (dict_update k v d) = Some v.
Proof.
  induction d as [|[k' v'] d IH]; simpl.
  - by rewrite decide_True.
  - destruct (decide (k = k')) as [->|Hne]; simpl.
    + by rewrite decide_True.
    + by rewrite decide_False.
Qed.

Lemma dict_get_update_ne (k k' v : Z) (d : list (Z * Z)) :
  k ≠ k' → dict_get k' (dict_update k v d) = dict_get k' d.
Proof.
  intros Hne. induction d as [|[k0 v0] d IH]; simpl.
  - by rewrite decide_False.
  - destruct (decide (k = k0)) as [->|Hne0]; simpl.
    + by rewrite !decide_False.
    + destruct (decide (k' = k0)); [done|]. apply IH.
Qed.

Lemma elem_of_dict_update (k v : Z) (d : list (Z * Z)) (x : Z * Z) :
  x ∈ dict_update k v d → x = (k, v) ∨ x ∈ d.
Proof.
  induction d as [|[k0 v0] d IH]; simpl.
  - intros ->%list_elem_of_singleton. by left.
  - destruct (decide (k = k0)) as [->|Hne].
    + intros [->|H]%elem_of_cons; [by left|]. right. by right.
    + intros [->|H]%elem_of_cons; [right; left|].
      destruct (IH H) as [->|H']; [by left|]. right. by right.
Qed.

Lemma latest_dates_fold (entries : list (Z * Z)) :
  latest_dates entries = fold_left note_date entries [].
Proof. reflexivity. Qed.

(** The loop keeps, for each signal met so far, a date of that signal that
    is no earlier than any other. *)
Lemma note_dates_invariant (entries seen acc : list (Z * Z)) :
  (∀ x, x ∈ acc → x ∈ seen) →
  (∀ k d, (k, d) ∈ seen → ∃ v, dict_get k acc = Some v ∧ d ≤ v) →
  (∀ x, x ∈ fold_left note_date entries acc → x ∈ seen ++ entries) ∧
  (∀ k d, (k, d) ∈ seen ++ entries →
          ∃ v, dict_get k (fold_left note_date entries acc) = Some v ∧ d ≤ v).
Proof.
  revert seen acc. induction entries as [|[k0 d0] entries IH];
    intros seen acc Hsub Hmax.
  - simpl. rewrite app_nil_r. by split.
  - simpl.
    replace (seen ++ (k0, d0) :: entries)
      with ((seen ++ [(k0, d0)]) ++ entries) by (by rewrite <- app_assoc).
    apply IH.
    + intros x Hx. apply elem_of_app. unfold note_date in Hx. simpl in Hx.
      destruct (dict_get k0 acc) as [cur|] eqn:Hcur.
      * destruct (decide (cur < d0)).
        -- apply elem_of_dict_update in Hx as [->|Hx];
             [right; left | left; by apply Hsub].
        -- left. by apply Hsub.
      * apply elem_of_dict_update in Hx as [->|Hx];
          [right; left | left; by apply Hsub].
    + intros k d [Hin|Hin%list_elem_of_singleton]%elem_of_app.
      * destruct (Hmax k d Hin) as (v & Hv & Hle).
        unfold note_date. simpl.
        destruct (decide (k0 = k)) as [->|Hne].
        -- rewrite Hv. destruct (decide (v < d0)).
           ++ exists d0. rewrite dict_get_update_eq. split; [done|lia].
           ++ by exists v.
        -- destruct (dict_get k0 acc) as [cur|].
           ++ destruct (decide (cur < d0)).
              ** exists v. by rewrite dict_get_update_ne.
              ** by exists v.
           ++ exists v. by rewrite dict_get_update_ne.
      * injection Hin as -> ->. unfold note_date. simpl.
        destruct (dict_get k0 acc) as [cur|] eqn:Hcur.
        -- destruct (decide (cur < d0)).
           ++ exists d0. by rewrite dict_get_update_eq.
           ++ exists cur. split; [done|lia].
        -- exists d0. by rewrite dict_get_update_eq.
Qed.

Lemma latest_dates_sound (entries : list (Z * Z)) (x : Z * Z) :
  x ∈ latest_dates entries → x ∈ entries.
Proof.
  rewrite latest_dates_fold.
  destruct (note_dates_invariant entries [] []) as [H _].
  - done.
  - intros k d Hin. by apply elem_of_nil in Hin.
  - apply H.
Qed.

Lemma latest_dates_bound (entries : list (Z * Z)) (k d : Z) :
  (k, d) ∈ entries → ∃ v, (k, v) ∈ latest_dates entries ∧ d ≤ v.
Proof.
  rewrite latest_dates_fold. intros Hin.
  destruct (note_dates_invariant entries [] []) as [_ H].
  - done.
  - intros k' d' Hin'. by apply elem_of_nil in Hin'.
  - destruct (H k d Hin) as (v & Hv & Hle). exists v.
    split; [by apply dict_get_elem_of|done].
Qed.

Lemma elem_of_dates_for (k d : Z) (entries : list (Z * Z)) :
  d ∈ dates_for k entries ↔ (k, d) ∈ entries.
Proof.
  induction entries as [|[k' d'] entries IH]; simpl.
  - by rewrite !elem_of_nil.
  - destruct (decide (k' = k)) as [->|Hne].
    + rewrite !elem_of_cons, IH. split; intros [H|H]; auto.
      * left. by rewrite H.
      * left. congruence.
    + rewrite elem_of_cons, IH. split; [auto|].
      intros [H|H]; [congruence|done].
Qed.

Lemma dates_for_app (k : Z) (entries1 entries2 : list (Z * Z)) :
  dates_for k (entries1 ++ entries2)
  = dates_for k entries1 ++ dates_for k entries2.
Proof.
  induction entries1 as [|[k' d'] entries1 IH]; simpl; [done|].
  destruct (decide (k' = k)); simpl; by rewrite IH.
Qed.

(** The greatest of a value and some dates is determined by the dates as a
    set. *)
Lemma fold_left_max_ext (xs ys : list Z) (m : Z) :
  (∀ x, x ∈ xs → ∃ y, y ∈ ys ∧ x ≤ y) →
  (∀ y, y ∈ ys → ∃ x, x ∈ xs ∧ y ≤ x) →
  fold_left Z.max xs m = fold_left Z.max ys m.
Proof.
  intros Hxy Hyx. apply Z.le_antisymm.
  - destruct (fold_left_max_elem xs m) as [->|Hin].
    + apply fold_left_max_ge.
    + destruct (Hxy _ Hin) as (y & Hy & Hle).
      pose proof (fold_left_max_upper ys m y Hy). lia.
  - destruct (fold_left_max_elem ys m) as [->|Hin].
    + apply fold_left_max_ge.
    + destruct (Hyx _ Hin) as (x & Hx & Hle).
      pose proof (fold_left_max_upper xs m x Hx). lia.
Qed.

Lemma fold_left_max_latest_dates (k m : Z) (entries : list (Z * Z)) :
  fold_left Z.max (dates_for k (latest_dates entries)) m
  = fold_left Z.max (dates_for k entries) m.
Proof.
  apply fold_left_max_ext.
  - intros x Hx%elem_of_dates_for%latest_dates_sound. exists x.
    split; [by apply elem_of_dates_for|lia].
  - intros y Hy%elem_of_dates_for.
    destruct (latest_dates_bound _ _ _ Hy) as (v & Hv & Hle).
    exists v. split; [by apply elem_of_dates_for|done].
Qed.

Lemma fold_left_max_fixed (xs : list Z) (m : Z) :
  (∀ x, x ∈ xs → x ≤ m) → fold_left Z.max xs m = m.
Proof.
  revert m. induction xs as [|x xs IH]; intros m Hub; simpl; [done|].
  rewrite Z.max_l by (apply Hub; left). apply IH.
  intros y Hy. apply Hub. by right.
Qed.

Lemma fold_left_max_idem (xs : list Z) (m : Z) :
  fold_left Z.max xs (fold_left Z.max xs m) = fold_left Z.max xs m.
Proof. apply fold_left_max_fixed. intros x Hx. by apply fold_left_max_upper. Qed.

(** ** The watermark columns *)

Section Watermark.

Context (get : SignalTable.row → Z)
        (set : Z → SignalTable.row → SignalTable.row).
Hypothesis get_set : ∀ v r, get (set v r) = v.
Hypothesis set_set : ∀ v w r, set v (set w r) = set v r.
Hypothesis set_get : ∀ r, set (get r) r = r.
Hypothesis id_set : ∀ v r, SignalTable.id (set v r) = SignalTable.id r.

Lemma get_raised (entries : list (Z * Z)) (r : SignalTable.row) :
  get (raised get set entries r)
  = fold_left Z.max (dates_for (SignalTable.id r) entries) (get r).
Proof. unfold raised. apply get_set. Qed.

Lemma id_raised (entries : list (Z * Z)) (r : SignalTable.row) :
  SignalTable.id (raised get set entries r) = SignalTable.id r.
Proof. unfold raised. apply id_set. Qed.

Lemma raised_greatest (k v : Z) (entries : list (Z * Z))
    (r : SignalTable.row) :
  raised get set entries (greatest get set (v, k) r)
  = raised get set ((k, v) :: entries) r.
Proof.
  unfold raised, greatest. simpl.
  destruct (decide (SignalTable.id r = k)) as [Heq|Hne].
  - rewrite id_set, get_set, set_set. rewrite decide_True by done.
    reflexivity.
  - by rewrite decide_False by congruence.
Qed.

Lemma fold_greatest (latest : list (Z * Z)) (rows : list SignalTable.row) :
  fold_left (λ rows p, greatest get set p <$> rows)
            ((λ kv, (kv.2, kv.1)) <$> latest) rows
  = raised get set latest <$> rows.
Proof.
  revert rows. induction latest as [|[k v] latest IH]; intros rows; simpl.
  - rewrite <- (list_fmap_id rows) at 1. apply list_fmap_ext.
    intros i r _. unfold raised. simpl. by rewrite set_get.
  - rewrite IH, <- list_fmap_compose. apply list_fmap_ext.
    intros i r _. simpl. apply raised_greatest.
Qed.

Lemma raised_latest_dates (entries : list (Z * Z)) (r : SignalTable.row) :
  raised get set (latest_dates entries) r = raised get set entries r.
Proof. unfold raised. by rewrite fold_left_max_latest_dates. Qed.

Lemma raised_app (entries1 entries2 : list (Z * Z)) (r : SignalTable.row) :
  raised get set entries2 (raised get set entries1 r)
  = raised get set (entries1 ++ entries2) r.
Proof.
  unfold raised. rewrite id_set, get_set, set_set.
  by rewrite dates_for_app, fold_left_app.
Qed.

Lemma raised_idem (entries : list (Z * Z)) (r : SignalTable.row) :
  raised get set entries (raised get set entries r)
  = raised get set entries r.
Proof.
  unfold raised. rewrite id_set, get_set, set_set.
  by rewrite fold_left_max_idem.
Qed.

End Watermark.

Lemma set_status_laws :
  (∀ v r, SignalTable.latest_status_update (set_latest_status_update v r) = v) ∧
  (∀ v w r, set_latest_status_update v (set_latest_status_update w r)
            = set_latest_status_update v r) ∧
  (∀ r, set_latest_status_update (SignalTable.latest_status_update r) r = r) ∧
  (∀ v r, SignalTable.id (set_latest_status_update v r) = SignalTable.id r).
Proof. repeat split; try done. by intros []. Qed.

Lemma set_coverage_laws :
  (∀ v r, SignalTable.latest_coverage_update (set_latest_coverage_update v r)
          = v) ∧
  (∀ v w r, set_latest_coverage_update v (set_latest_coverage_update w r)
            = set_latest_coverage_update v r) ∧
  (∀ r, set_latest_coverage_update (SignalTable.latest_coverage_update r) r
        = r) ∧
  (∀ v r, SignalTable.id (set_latest_coverage_update v r) = SignalTable.id r).
Proof. repeat split; try done. by intros []. Qed.

(** ** The tables after a batch *)

Lemma insert_status_frame (ps : list (Z * Z * Z * Z)) (t : tables) :
  let t' := fold_left (λ t p, insert_status p t) ps t in
  dashboard_signal t' = dashboard_signal t ∧
  dashboard_signal_coverage t' = dashboard_signal_coverage t ∧
  dashboard_signal_status t'
  = fold_left (λ m p, <[(p.1.1.1, p.1.1.2) := (p.1.2, p.2)]> m) ps
              (dashboard_signal_status t).
Proof.
  revert t. induction ps as [|[[[k d] li] ltv] ps IH]; intros t; [done|].
  cbv zeta in *. cbn [fold_left].
  destruct (IH (insert_status (k, d, li, ltv) t)) as (E1 & E2 & E3).
  rewrite E1, E2, E3. done.
Qed.

Lemma insert_coverage_frame (ps : list (Z * Z * string * Z)) (t : tables) :
  let t' := fold_left (λ t p, insert_coverage p t) ps t in
  dashboard_signal t' = dashboard_signal t ∧
  dashboard_signal_status t' = dashboard_signal_status t.
Proof.
  revert t. induction ps as [|[[[k d] g] n] ps IH]; intros t; [done|].
  cbv zeta in *. cbn [fold_left].
  destruct (IH (insert_coverage (k, d, g, n) t)) as (E1 & E2).
  rewrite E1, E2. done.
Qed.

Lemma update_latest_status_fold (ps : list (Z * Z)) (t : tables) :
  let t' := fold_left (λ t p, update_latest_status p t) ps t in
  dashboard_signal t'
  = fold_left
      (λ rows p,
         greatest SignalTable.latest_status_update set_latest_status_update p
           <$> rows) ps (dashboard_signal t) ∧
  dashboard_signal_status t' = dashboard_signal_status t ∧
  dashboard_signal_coverage t' = dashboard_signal_coverage t.
Proof.
  revert t. induction ps as [|p ps IH]; intros t; [done|].
  cbv zeta in *. cbn [fold_left].
  destruct (IH (update_latest_status p t)) as (E1 & E2 & E3).
  rewrite E1, E2, E3. done.
Qed.

Lemma update_latest_coverage_fold (ps : list (Z * Z)) (t : tables) :
  let t' := fold_left (λ t p, update_latest_coverage p t) ps t in
  dashboard_signal t'
  = fold_left
      (λ rows p,
         greatest SignalTable.latest_coverage_update set_latest_coverage_update
           p <$> rows) ps (dashboard_signal t) ∧
  dashboard_signal_status t' = dashboard_signal_status t ∧
  dashboard_signal_coverage t' = dashboard_signal_coverage t.
Proof.
  revert t. induction ps as [|p ps IH]; intros t; [done|].
  cbv zeta in *. cbn [fold_left].
  destruct (IH (update_latest_coverage p t)) as (E1 & E2 & E3).
  rewrite E1, E2, E3. done.
Qed.

Lemma dashboard_signal_status_written
    (status_list : list DashboardSignalStatus) (t : tables) :
  dashboard_signal (status_written status_list t)
  = raised SignalTable.latest_status_update set_latest_status_update
           (status_key <$> status_list) <$> dashboard_signal t.
Proof.
  destruct set_status_laws as (Hgs & Hss & Hsg & Hid).
  unfold status_written.
  destruct (update_latest_status_fold
              ((λ kv, (kv.2, kv.1)) <$>
                 latest_dates ((λ x, (signal_id x, date_ x)) <$> status_list))
              (fold_left (λ t p, insert_status p t)
                 ((λ x, (signal_id x, date_ x, latest_issue x,
                         latest_time_value x)) <$> status_list) t))
    as (-> & _ & _).
  destruct (insert_status_frame
              ((λ x, (signal_id x, date_ x, latest_issue x,
                      latest_time_value x)) <$> status_list) t)
    as (-> & _ & _).
  rewrite fold_greatest by done. apply list_fmap_ext. intros i r _.
  by apply raised_latest_dates.
Qed.

Lemma dashboard_signal_coverage_written
    (coverage_list : list DashboardSignalCoverage) (t : tables) :
  dashboard_signal (coverage_written coverage_list t)
  = raised SignalTable.latest_coverage_update set_latest_coverage_update
           ((λ x, (cov_signal_id x, cov_date x)) <$> coverage_list)
      <$> dashboard_signal t.
Proof.
  destruct set_coverage_laws as (Hgs & Hss & Hsg & Hid).
  unfold coverage_written.
  destruct (update_latest_coverage_fold
              ((λ kv, (kv.2, kv.1)) <$>
                 latest_dates
                   ((λ x, (cov_signal_id x, cov_date x)) <$> coverage_list))
              (fold_left (λ t p, insert_coverage p t)
                 ((λ x, (cov_signal_id x, cov_date x, geo_type x, count x))
                    <$> coverage_list) t))
    as (-> & _ & _).
  destruct (insert_coverage_frame
              ((λ x, (cov_signal_id x, cov_date x, geo_type x, count x))
                 <$> coverage_list) t)
    as (-> & _).
  rewrite fold_greatest by done. apply list_fmap_ext. intros i r _.
  by apply raised_latest_dates.
Qed.

(** ** Sequences of batches *)

Lemma raised_is_maximum (get : SignalTable.row → Z)
    (set : Z → SignalTable.row → SignalTable.row)
    (entries : list (Z * Z)) (r : SignalTable.row) :
  (∀ v r, get (set v r) = v) →
  let m := get (raised get set entries r) in
  get r ≤ m ∧
  (∀ d, (SignalTable.id r, d) ∈ entries → d ≤ m) ∧
  (m = get r ∨ (SignalTable.id r, m) ∈ entries).
Proof.
  intros get_set. unfold raised. simpl. rewrite get_set. repeat split.
  - apply fold_left_max_ge.
  - intros d Hd. by apply fold_left_max_upper, elem_of_dates_for.
  - destruct (fold_left_max_elem (dates_for (SignalTable.id r) entries) (get r))
      as [H|H]; [by left|right]. by apply elem_of_dates_for.
Qed.

Section Batches.

Context {A : Type} (write : A → store ()) (written : A → tables → tables)
        (entries : A → list (Z * Z))
        (get : SignalTable.row → Z)
        (set : Z → SignalTable.row → SignalTable.row).
Hypothesis get_set : ∀ v r, get (set v r) = v.
Hypothesis set_set : ∀ v w r, set v (set w r) = set v r.
Hypothesis set_get : ∀ r, set (get r) r = r.
Hypothesis id_set : ∀ v r, SignalTable.id (set v r) = SignalTable.id r.
Hypothesis write_succeeds : ∀ batch, succeeds (write batch) (written batch) true.
Hypothesis dashboard_signal_written : ∀ batch t,
  dashboard_signal (written batch t)
  = raised get set (entries batch) <$> dashboard_signal t.

Lemma write_all_quiet (batches : list A) (c : connection) :
  quiet c →
  quiet (write_all write batches c) ∧
  dashboard_signal (working (write_all write batches c))
  = raised get set (mjoin (entries <$> batches))
      <$> dashboard_signal (working c).
Proof.
  revert c. induction batches as [|batch batches IH]; intros c Hc.
  - split; [done|]. simpl.
    rewrite <- (list_fmap_id (dashboard_signal (working c))) at 1.
    apply list_fmap_ext. intros i r _. unfold raised. simpl.
    by rewrite set_get.
  - unfold write_all in *. cbn [fold_left].
    destruct (write_succeeds batch c Hc) as (x & c' & E & W & _ & Q).
    rewrite E. cbn [snd]. destruct (IH c' Q) as [IH1 IH2].
    split; [done|]. rewrite IH2, W.
    rewrite dashboard_signal_written, <- list_fmap_compose.
    apply list_fmap_ext. intros i r _. cbn [fmap list_fmap mjoin list_join].
    by apply raised_app.
Qed.

Lemma write_all_app (earlier later : list A) (c : connection) :
  write_all write (earlier ++ later) c
  = write_all write later (write_all write earlier c).
Proof. unfold write_all. apply fold_left_app. Qed.

(** After the batches, the watermark of the row at any position is the
    greatest of its value before and of the dates that the batches hold
    for the row; it has not been lower after any prefix of them. *)
Lemma watermark_after_batches (batches : list A) (c : connection)
    (i : nat) (r : SignalTable.row) :
  quiet c →
  dashboard_signal (working c) !! i = Some r →
  ∃ r',
    dashboard_signal (working (write_all write batches c)) !! i = Some r' ∧
    r' = set (get r') r ∧
    get r ≤ get r' ∧
    (∀ batch d, batch ∈ batches → (SignalTable.id r, d) ∈ entries batch →
                d ≤ get r') ∧
    (get r' = get r ∨
     ∃ batch, batch ∈ batches ∧ (SignalTable.id r, get r') ∈ entries batch) ∧
    (∀ earlier later, batches = earlier ++ later →
       ∃ r1,
         dashboard_signal (working (write_all write earlier c)) !! i
           = Some r1 ∧
         get r ≤ get r1 ∧ get r1 ≤ get r').
Proof.
  intros Hc Hr.
  destruct (write_all_quiet batches c Hc) as [_ Hrows].
  exists (raised get set (mjoin (entries <$> batches)) r).
  destruct (raised_is_maximum get set (mjoin (entries <$> batches)) r get_set)
    as (Hge & Hub & Hatt).
  split; [by rewrite Hrows, list_lookup_fmap, Hr|].
  split; [unfold raised; by rewrite get_set|].
  split; [done|]. split; [|split].
  - intros batch d Hb Hd. apply Hub, list_elem_of_join.
    exists (entries batch). split; [done|].
    apply list_elem_of_fmap. by exists batch.
  - destruct Hatt as [Hatt|Hatt]; [by left|right].
    apply list_elem_of_join in Hatt as (es & Hin & Hes).
    apply list_elem_of_fmap in Hes as (batch & -> & Hb). by exists batch.
  - intros earlier later ->.
    destruct (write_all_quiet earlier c Hc) as [Hc1 Hrows1].
    exists (raised get set (mjoin (entries <$> earlier)) r).
    split; [by rewrite Hrows1, list_lookup_fmap, Hr|].
    split.
    + by destruct (raised_is_maximum get set (mjoin (entries <$> earlier)) r
                     get_set) as (H1 & _ & _).
    + rewrite fmap_app, join_app, <- raised_app by done.
      by destruct (raised_is_maximum get set (mjoin (entries <$> later))
                     (raised get set (mjoin (entries <$> earlier)) r)
                     get_set) as (H2 & _ & _).
Qed.

End Batches.

(** ** Watermarks never go back, whatever fails *)

Lemma rows_le_refl (rows : list SignalTable.row) : rows_le rows rows.
Proof. intros i r Hr. exists r. repeat split; [done|lia|lia]. Qed.

Lemma rows_le_trans (rows1 rows2 rows3 : list SignalTable.row) :
  rows_le rows1 rows2 → rows_le rows2 rows3 → rows_le rows1 rows3.
Proof.
  intros H12 H23 i r1 Hr1.
  destruct (H12 i r1 Hr1) as (r2 & Hr2 & Hid2 & Hs2 & Hc2).
  destruct (H23 i r2 Hr2) as (r3 & Hr3 & Hid3 & Hs3 & Hc3).
  exists r3. repeat split; [done|congruence|lia|lia].
Qed.

Lemma rows_le_fmap (f : SignalTable.row → SignalTable.row)
    (rows : list SignalTable.row) :
  (∀ r, SignalTable.id (f r) = SignalTable.id r ∧
        SignalTable.latest_status_update r
          ≤ SignalTable.latest_status_update (f r) ∧
        SignalTable.latest_coverage_update r
          ≤ SignalTable.latest_coverage_update (f r)) →
  rows_le rows (f <$> rows).
Proof.
  intros Hf i r Hr. exists (f r). rewrite list_lookup_fmap, Hr.
  split; [done|]. apply Hf.
Qed.

Lemma advances_ret {A : Type} (x : A) : advances (mret x).
Proof. intros c. apply rows_le_refl. Qed.

Lemma advances_bind {A B : Type} (m : store A) (f : A → store B) :
  advances m → (∀ x, advances (f x)) → advances (m ≫= f).
Proof.
  intros Hm Hf c. unfold mbind, store_bind.
  specialize (Hm c). destruct (m c) as [[x|e] c']; simpl in *; [|done].
  eapply rows_le_trans; [exact Hm|apply Hf].
Qed.

Lemma advances_server_call : advances server_call.
Proof.
  intros c. unfold server_call.
  destruct (faults c) as [|[msg|] fs]; apply rows_le_refl.
Qed.

Lemma advances_execute (statement : tables → tables) :
  (∀ t, rows_le (dashboard_signal t) (dashboard_signal (statement t))) →
  advances (execute statement).
Proof.
  intros Hs. apply advances_bind; [apply advances_server_call|].
  intros _ c. apply Hs.
Qed.

Lemma advances_executemany {A : Type} (statement : A → tables → tables)
    (seq_params : list A) :
  (∀ p t, rows_le (dashboard_signal t) (dashboard_signal (statement p t))) →
  advances (executemany statement seq_params).
Proof.
  intros Hs. induction seq_params as [|p ps IH]; simpl.
  - apply advances_ret.
  - apply advances_bind; [by apply advances_execute|done].
Qed.

Lemma advances_commit : advances commit.
Proof.
  apply advances_bind; [apply advances_server_call|].
  intros _ c. apply rows_le_refl.
Qed.

Lemma advances_write_status (status_list : list DashboardSignalStatus) :
  advances (Database.write_status status_list).
Proof.
  unfold Database.write_status.
  apply advances_bind; [|intros _; apply advances_bind].
  - unfold executemany_insert.
    destruct ((λ x, (signal_id x, date_ x, latest_issue x, latest_time_value x))
                <$> status_list) as [|p ps] eqn:E; [apply advances_ret|].
    rewrite <- E. apply advances_execute. intros t.
    destruct (insert_status_frame
                ((λ x, (signal_id x, date_ x, latest_issue x,
                        latest_time_value x)) <$> status_list) t) as (-> & _).
    apply rows_le_refl.
  - apply advances_executemany. intros p t. simpl. apply rows_le_fmap.
    intros r. destruct (decide (SignalTable.id r = p.2)); simpl; lia.
  - intros _. apply advances_commit.
Qed.

Lemma advances_write_coverage (coverage_list : list DashboardSignalCoverage) :
  advances (Database.write_coverage coverage_list).
Proof.
  unfold Database.write_coverage.
  apply advances_bind; [|intros _; apply advances_bind].
  - unfold executemany_insert.
    destruct ((λ x, (cov_signal_id x, cov_date x, geo_type x, count x))
                <$> coverage_list) as [|p ps] eqn:E; [apply advances_ret|].
    rewrite <- E. apply advances_execute. intros t.
    destruct (insert_coverage_frame
                ((λ x, (cov_signal_id x, cov_date x, geo_type x, count x))
                   <$> coverage_list) t) as (-> & _).
    apply rows_le_refl.
  - apply advances_executemany. intros p t. simpl. apply rows_le_fmap.
    intros r. destruct (decide (SignalTable.id r = p.2)); simpl; lia.
  - intros _. apply advances_commit.
Qed.

Lemma advances_write_all {A : Type} (write : A → store ())
    (batches : list A) (c : connection) :
  (∀ batch, advances (write batch)) →
  rows_le (dashboard_signal (working c))
          (dashboard_signal (working (write_all write batches c))).
Proof.
  intros Hw. revert c. induction batches as [|batch batches IH]; intros c.
  - apply rows_le_refl.
  - unfold write_all in *. cbn [fold_left].
    eapply rows_le_trans; [apply (Hw batch c)|apply IH].
Qed.

(** C3.  Take the row of a signal in [dashboard_signal] and any sequence of
    [write_status] batches.  Whatever fails on the way, the row is still
    there afterwards and its [latest_status_update] is no earlier than
    before.  When no statement fails, [latest_status_update] ends as the
    greatest of its value before and of the dates of the status rows of the
    batches for that signal: it bounds them all, it is one of them, no other
    column of the row has changed, and after each prefix of the sequence it
    lay between the value before and the value at the end.  Each batch
    contributes through the greatest date it holds for the signal (see
    [latest_dates]) and a GREATEST against the stored value (see
    [update_latest_status]).  The same holds of [write_coverage] and
    [latest_coverage_update]. *)
Theorem watermarks_are_running_maxima
    (status_batches : list (list DashboardSignalStatus))
    (coverage_batches : list (list DashboardSignalCoverage))
    (c : connection) (i : nat) (r : SignalTable.row) :
  dashboard_signal (working c) !! i = Some r →
  let after_status := write_all Database.write_status status_batches in
  let after_coverage := write_all Database.write_coverage coverage_batches in
  (∃ r', dashboard_signal (working (after_status c)) !! i = Some r' ∧
         SignalTable.id r' = SignalTable.id r ∧
         SignalTable.latest_status_update r
           ≤ SignalTable.latest_status_update r') ∧
  (∃ r', dashboard_signal (working (after_coverage c)) !! i = Some r' ∧
         SignalTable.id r' = SignalTable.id r ∧
         SignalTable.latest_coverage_update r
           ≤ SignalTable.latest_coverage_update r') ∧
  (quiet c →
   (∃ r',
      dashboard_signal (working (after_status c)) !! i = Some r' ∧
      r' = set_latest_status_update (SignalTable.latest_status_update r') r ∧
      SignalTable.latest_status_update r
        ≤ SignalTable.latest_status_update r' ∧
      (∀ batch x, batch ∈ status_batches → x ∈ batch →
                  signal_id x = SignalTable.id r →
                  date_ x ≤ SignalTable.latest_status_update r') ∧
      (SignalTable.latest_status_update r'
         = SignalTable.latest_status_update r ∨
       ∃ batch x, batch ∈ status_batches ∧ x ∈ batch ∧
                  signal_id x = SignalTable.id r ∧
                  date_ x = SignalTable.latest_status_update r') ∧
      (∀ earlier later, status_batches = earlier ++ later →
         ∃ r1,
           dashboard_signal
             (working (write_all Database.write_status earlier c)) !! i
             = Some r1 ∧
           SignalTable.latest_status_update r
             ≤ SignalTable.latest_status_update r1 ∧
           SignalTable.latest_status_update r1
             ≤ SignalTable.latest_status_update r')) ∧
   (∃ r',
      dashboard_signal (working (after_coverage c)) !! i = Some r' ∧
      r' = set_latest_coverage_update
             (SignalTable.latest_coverage_update r') r ∧
      SignalTable.latest_coverage_update r
        ≤ SignalTable.latest_coverage_update r' ∧
      (∀ batch x, batch ∈ coverage_batches → x ∈ batch →
                  cov_signal_id x = SignalTable.id r →
                  cov_date x ≤ SignalTable.latest_coverage_update r') ∧
      (SignalTable.latest_coverage_update r'
         = SignalTable.latest_coverage_update r ∨
       ∃ batch x, batch ∈ coverage_batches ∧ x ∈ batch ∧
                  cov_signal_id x = SignalTable.id r ∧
                  cov_date x = SignalTable.latest_coverage_update r') ∧
      (∀ earlier later, coverage_batches = earlier ++ later →
         ∃ r1,
           dashboard_signal
             (working (write_all Database.write_coverage earlier c)) !! i
             = Some r1 ∧
           SignalTable.latest_coverage_update r
             ≤ SignalTable.latest_coverage_update r1 ∧
           SignalTable.latest_coverage_update r1
             ≤ SignalTable.latest_coverage_update r'))).
Proof.
  intros Hr after_status after_coverage.
  split; [|split].
  - destruct (advances_write_all Database.write_status status_batches c
                advances_write_status i r Hr) as (r' & Hr' & Hid & Hs & _).
    by exists r'.
  - destruct (advances_write_all Database.write_coverage coverage_batches c
                advances_write_coverage i r Hr) as (r' & Hr' & Hid & _ & Hc).
    by exists r'.
  - intros Hfaults. split.
    + destruct set_status_laws as (Hgs & Hss & Hsg & Hid).
      destruct (watermark_after_batches
                  Database.write_status status_written (fmap status_key)
                  SignalTable.latest_status_update set_latest_status_update
                  Hgs Hss Hsg Hid succeeds_write_status
                  dashboard_signal_status_written
                  status_batches c i r Hfaults Hr)
        as (r' & Hr' & Hrest & Hge & Hub & Hatt & Hpre).
      exists r'. repeat split; try done.
      * intros batch x Hb Hx Hk. apply (Hub batch); [done|].
        apply list_elem_of_fmap. exists x. split; [|done].
        unfold status_key. by rewrite Hk.
      * destruct Hatt as [Hatt|(batch & Hb & Hin)]; [by left|right].
        apply list_elem_of_fmap in Hin as (x & Hkey & Hx).
        exists batch, x. unfold status_key in Hkey.
        injection Hkey as Hk Hd. done.
    + destruct set_coverage_laws as (Hgs & Hss & Hsg & Hid).
      destruct (watermark_after_batches
                  Database.write_coverage coverage_written
                  (fmap (λ x, (cov_signal_id x, cov_date x)))
                  SignalTable.latest_coverage_update set_latest_coverage_update
                  Hgs Hss Hsg Hid succeeds_write_coverage
                  dashboard_signal_coverage_written
                  coverage_batches c i r Hfaults Hr)
        as (r' & Hr' & Hrest & Hge & Hub & Hatt & Hpre).
      exists r'. repeat split; try done.
      * intros batch x Hb Hx Hk. apply (Hub batch); [done|].
        apply list_elem_of_fmap. exists x. split; [|done].
        by rewrite Hk.
      * destruct Hatt as [Hatt|(batch & Hb & Hin)]; [by left|right].
        apply list_elem_of_fmap in Hin as (x & Hkey & Hx).
        exists batch, x. injection Hkey as Hk Hd. done.
Qed.

(** ** Upserts *)

Section Upsert.

Context {K V A : Type} `{Countable K} (key : A → K) (value : A → V).

Lemma upsert_all_other (rows : list A) (m : gmap K V) (k : K) :
  (∀ x, x ∈ rows → key x ≠ k) → upsert_all key value rows m !! k = m !! k.
Proof.
  revert m. induction rows as [|x rows IH]; intros m Hk; [done|].
  unfold upsert_all in *. cbn [fold_left]. rewrite IH.
  - apply lookup_insert_ne, Hk. left.
  - intros y Hy. apply Hk. by right.
Qed.

Lemma upsert_all_last (before after : list A) (x : A) (m : gmap K V) :
  (∀ y, y ∈ after → key y ≠ key x) →
  upsert_all key value (before ++ x :: after) m !! key x = Some (value x).
Proof.
  intros Hafter. unfold upsert_all. rewrite fold_left_app. cbn [fold_left].
  fold (upsert_all key value before m).
  fold (upsert_all key value after (<[key x := value x]> (upsert_all key value before m))).
  rewrite upsert_all_other by done. apply lookup_insert_eq.
Qed.

Lemma upsert_all_same (rows : list A) (m m' : gmap K V) (k : K) :
  (∃ x, x ∈ rows ∧ key x = k) ∨ m !! k = m' !! k →
  upsert_all key value rows m !! k = upsert_all key value rows m' !! k.
Proof.
  revert m m'. induction rows as [|x rows IH]; intros m m' Hk.
  - destruct Hk as [(x & Hx & _)|Hk]; [by apply elem_of_nil in Hx|done].
  - unfold upsert_all in *. cbn [fold_left]. apply IH.
    destruct (decide (key x = k)) as [<-|Hne].
    + right. by rewrite !lookup_insert_eq.
    + destruct Hk as [(y & [->|Hy]%elem_of_cons & Hkey)|Hk].
      * done.
      * left. by exists y.
      * right. by rewrite !lookup_insert_ne.
Qed.

Lemma upsert_all_is_Some (rows : list A) (m : gmap K V) (k : K) :
  is_Some (upsert_all key value rows m !! k)
  ↔ is_Some (m !! k) ∨ ∃ x, x ∈ rows ∧ key x = k.
Proof.
  revert m. induction rows as [|x rows IH]; intros m.
  - simpl. split; [by left|]. intros [Hm|(x & Hx & _)]; [done|].
    by apply elem_of_nil in Hx.
  - unfold upsert_all in *. cbn [fold_left]. rewrite IH.
    destruct (decide (key x = k)) as [<-|Hne].
    + rewrite lookup_insert_eq. split.
      * intros _. right. exists x. split; [left|done].
      * intros _. left. by eexists.
    + rewrite lookup_insert_ne by done. split.
      * intros [Hm|(y & Hy & Hkey)]; [by left|right].
        exists y. split; [by right|done].
      * intros [Hm|(y & [->|Hy]%elem_of_cons & Hkey)];
          [by left|done|right; by exists y].
Qed.

Lemma upsert_all_idem (rows : list A) (m : gmap K V) :
  upsert_all key value rows (upsert_all key value rows m) = upsert_all key value rows m.
Proof.
  apply map_eq. intros k.
  destruct (decide (k ∈ key <$> rows)) as [Hin|Hout].
  - apply upsert_all_same. left.
    apply list_elem_of_fmap in Hin as (x & -> & Hx). by exists x.
  - apply upsert_all_other. intros x Hx Hk. apply Hout.
    apply list_elem_of_fmap. by exists x.
Qed.

End Upsert.

Lemma tables_eq (t t' : tables) :
  dashboard_signal t = dashboard_signal t' →
  dashboard_signal_status t = dashboard_signal_status t' →
  dashboard_signal_coverage t = dashboard_signal_coverage t' →
  t = t'.
Proof. destruct t, t'. simpl. by intros -> -> ->. Qed.

Lemma status_written_status (status_list : list DashboardSignalStatus)
    (t : tables) :
  dashboard_signal_status (status_written status_list t)
  = upsert_all status_key (λ x, (latest_issue x, latest_time_value x))
      status_list (dashboard_signal_status t) ∧
  dashboard_signal_coverage (status_written status_list t)
  = dashboard_signal_coverage t.
Proof.
  unfold status_written.
  destruct (update_latest_status_fold
              ((λ kv, (kv.2, kv.1)) <$>
                 latest_dates ((λ x, (signal_id x, date_ x)) <$> status_list))
              (fold_left (λ t p, insert_status p t)
                 ((λ x, (signal_id x, date_ x, latest_issue x,
                         latest_time_value x)) <$> status_list) t))
    as (_ & -> & ->).
  destruct (insert_status_frame
              ((λ x, (signal_id x, date_ x, latest_issue x,
                      latest_time_value x)) <$> status_list) t)
    as (_ & -> & ->).
  split; [|done]. unfold upsert_all.
  generalize (dashboard_signal_status t).
  induction status_list as [|x xs IH]; intros m; [done|]. simpl. apply IH.
Qed.

Lemma status_written_idem (status_list : list DashboardSignalStatus)
    (t : tables) :
  status_written status_list (status_written status_list t)
  = status_written status_list t.
Proof.
  destruct set_status_laws as (Hgs & Hss & Hsg & Hid).
  apply tables_eq.
  - rewrite !dashboard_signal_status_written, <- list_fmap_compose.
    apply list_fmap_ext. intros i r _. simpl. by apply raised_idem.
  - destruct (status_written_status status_list
                (status_written status_list t)) as [-> _].
    destruct (status_written_status status_list t) as [-> _].
    apply upsert_all_idem.
  - destruct (status_written_status status_list
                (status_written status_list t)) as [_ ->].
    done.
Qed.

(** C6.  When no statement fails, a second [write_status] of the same batch
    returns as the first did and leaves all the tables, committed and in
    the transaction, as the first left them.  The status table then holds one row for
    each key [(signal_id, date)] that it held before or that the batch
    holds; for a key of the batch the row has the [latest_issue] and
    [latest_time_value] of the last row of the batch with that key (an
    earlier row with the key is overwritten), and the rows of other keys
    are as before. *)
Theorem write_status_twice
    (status_list : list DashboardSignalStatus) (c : connection) :
  quiet c →
  let once := (Database.write_status status_list c).2 in
  let twice := (Database.write_status status_list once).2 in
  (Database.write_status status_list c).1 = Return () ∧
  (Database.write_status status_list once).1 = Return () ∧
  working twice = working once ∧
  committed twice = committed once ∧
  committed once = working once ∧
  (∀ k, is_Some (dashboard_signal_status (committed twice) !! k)
        ↔ is_Some (dashboard_signal_status (working c) !! k) ∨
          ∃ x, x ∈ status_list ∧ status_key x = k) ∧
  (∀ before x after,
      status_list = before ++ x :: after →
      (∀ y, y ∈ after → status_key y ≠ status_key x) →
      dashboard_signal_status (committed twice) !! status_key x
      = Some (latest_issue x, latest_time_value x)) ∧
  (∀ k, (∀ x, x ∈ status_list → status_key x ≠ k) →
        dashboard_signal_status (committed twice) !! k
        = dashboard_signal_status (working c) !! k).
Proof.
  intros Hc once twice. unfold twice, once.
  destruct (succeeds_write_status status_list c Hc)
    as ([] & c1 & E1 & W1 & C1 & Q1).
  rewrite E1. cbn [fst snd].
  destruct (succeeds_write_status status_list c1 Q1)
    as ([] & c2 & E2 & W2 & C2 & Q2).
  rewrite E2. cbn [fst snd].
  rewrite C2, W2, C1, W1, status_written_idem.
  destruct (status_written_status status_list (working c)) as [-> _].
  repeat split; try done.
  - by apply upsert_all_is_Some.
  - by apply upsert_all_is_Some.
  - intros before x after -> Hafter.
    by apply (upsert_all_last status_key
                (λ x, (latest_issue x, latest_time_value x))).
  - intros k Hk. by apply upsert_all_other.
Qed.

(** ** Inserts that keep what is there *)

Section InsertNew.

Context {K V A : Type} `{Countable K} (key : A → K) (value : A → V).

Lemma insert_new_all_kept (rows : list A) (m : gmap K V) (k : K) (v : V) :
  m !! k = Some v → insert_new_all key value rows m !! k = Some v.
Proof.
  revert m. induction rows as [|x rows IH]; intros m Hk; [done|].
  unfold insert_new_all in *. cbn [fold_left]. apply IH.
  destruct (m !! key x) eqn:Hx; [done|].
  rewrite lookup_insert_ne; [done|]. intros E. congruence.
Qed.

Lemma insert_new_all_other (rows : list A) (m : gmap K V) (k : K) :
  (∀ x, x ∈ rows → key x ≠ k) → insert_new_all key value rows m !! k = m !! k.
Proof.
  revert m. induction rows as [|x rows IH]; intros m Hk; [done|].
  unfold insert_new_all in *. cbn [fold_left]. rewrite IH.
  - destruct (m !! key x); [done|]. apply lookup_insert_ne, Hk. left.
  - intros y Hy. apply Hk. by right.
Qed.

Lemma insert_new_all_first (before after : list A) (x : A) (m : gmap K V) :
  m !! key x = None →
  (∀ y, y ∈ before → key y ≠ key x) →
  insert_new_all key value (before ++ x :: after) m !! key x = Some (value x).
Proof.
  intros Hnew Hbefore. unfold insert_new_all. rewrite fold_left_app.
  cbn [fold_left]. fold (insert_new_all key value before m).
  rewrite (insert_new_all_other before m (key x) Hbefore), Hnew.
  apply (insert_new_all_kept after). apply lookup_insert_eq.
Qed.

End InsertNew.

Lemma coverage_written_coverage (coverage_list : list DashboardSignalCoverage)
    (t : tables) :
  dashboard_signal_coverage (coverage_written coverage_list t)
  = insert_new_all coverage_key count coverage_list
      (dashboard_signal_coverage t).
Proof.
  unfold coverage_written.
  destruct (update_latest_coverage_fold
              ((λ kv, (kv.2, kv.1)) <$>
                 latest_dates
                   ((λ x, (cov_signal_id x, cov_date x)) <$> coverage_list))
              (fold_left (λ t p, insert_coverage p t)
                 ((λ x, (cov_signal_id x, cov_date x, geo_type x, count x))
                    <$> coverage_list) t))
    as (_ & _ & ->).
  unfold insert_new_all. revert t.
  induction coverage_list as [|x xs IH]; intros t; [done|].
  cbn [fmap list_fmap fold_left]. rewrite IH. f_equal.
Qed.

(** C7.  Take a coverage row [first] whose key [(signal_id, date, geo_type)]
    is not in the coverage table and is not the key of a row before it in
    its batch, and a row [second] with the same key and another count that
    is written later, in the same batch or in the next one.  When no
    statement fails, the table holds the count of [first] after the first
    batch and still after the second: the insert of [second] changes
    nothing.  Likewise a row that the table held before the batches has its
    count afterwards. *)
Theorem coverage_first_write_wins
    (before rest batch2 : list DashboardSignalCoverage)
    (first second : DashboardSignalCoverage) (c : connection) :
  quiet c →
  dashboard_signal_coverage (working c) !! coverage_key first = None →
  (∀ y, y ∈ before → coverage_key y ≠ coverage_key first) →
  second ∈ rest ++ batch2 →
  coverage_key second = coverage_key first →
  count second ≠ count first →
  let batch1 := before ++ first :: rest in
  let c1 := (Database.write_coverage batch1 c).2 in
  let c2 := (Database.write_coverage batch2 c1).2 in
  (Database.write_coverage batch1 c).1 = Return () ∧
  (Database.write_coverage batch2 c1).1 = Return () ∧
  dashboard_signal_coverage (committed c1) !! coverage_key first
    = Some (count first) ∧
  dashboard_signal_coverage (committed c2) !! coverage_key first
    = Some (count first) ∧
  dashboard_signal_coverage (committed c2) !! coverage_key second
    ≠ Some (count second) ∧
  (∀ k n, dashboard_signal_coverage (working c) !! k = Some n →
          dashboard_signal_coverage (committed c2) !! k = Some n).
Proof.
  intros Hc Hnew Hbefore Hsecond Hkey Hcount batch1 c1 c2.
  unfold c2, c1, batch1.
  destruct (succeeds_write_coverage (before ++ first :: rest) c Hc)
    as ([] & c1' & E1 & W1 & C1 & Q1).
  rewrite E1. cbn [fst snd].
  destruct (succeeds_write_coverage batch2 c1' Q1)
    as ([] & c2' & E2 & W2 & C2 & Q2).
  rewrite E2. cbn [fst snd].
  rewrite C2, C1, W1, !coverage_written_coverage.
  assert (insert_new_all coverage_key count (before ++ first :: rest)
            (dashboard_signal_coverage (working c)) !! coverage_key first
          = Some (count first)) as H1
    by (by apply (insert_new_all_first coverage_key count)).
  assert (insert_new_all coverage_key count batch2
            (insert_new_all coverage_key count (before ++ first :: rest)
               (dashboard_signal_coverage (working c))) !! coverage_key first
          = Some (count first)) as H2
    by (by apply insert_new_all_kept).
  repeat split; try done.
  - rewrite Hkey, H2. congruence.
  - intros k n Hk. by do 2 apply insert_new_all_kept.
Qed.

(** ** What the store can raise and what it leaves untouched *)

Lemma raises_mysql_only_ret {A : Type} (x : A) : raises_mysql_only (mret x).
Proof. intros c e H. discriminate. Qed.

Lemma raises_mysql_only_bind {A B : Type} (m : store A) (f : A → store B) :
  raises_mysql_only m → (∀ x, raises_mysql_only (f x)) →
  raises_mysql_only (m ≫= f).
Proof.
  intros Hm Hf c e. unfold mbind, store_bind.
  specialize (Hm c). destruct (m c) as [[x|e'] c']; simpl in *.
  - apply Hf.
  - intros [= <-]. by apply Hm.
Qed.

Lemma raises_mysql_only_server_call : raises_mysql_only server_call.
Proof.
  intros c e. unfold server_call.
  destruct (faults c) as [|[msg|] fs]; simpl; try discriminate.
  intros [= <-]. by exists msg.
Qed.

Lemma raises_mysql_only_execute (statement : tables → tables) :
  raises_mysql_only (execute statement).
Proof.
  apply raises_mysql_only_bind; [apply raises_mysql_only_server_call|].
  intros _ c e H. discriminate.
Qed.

Lemma raises_mysql_only_executemany {A : Type}
    (statement : A → tables → tables) (seq_params : list A) :
  raises_mysql_only (executemany statement seq_params).
Proof.
  induction seq_params as [|p ps IH]; simpl.
  - apply raises_mysql_only_ret.
  - apply raises_mysql_only_bind; [apply raises_mysql_only_execute|done].
Qed.

Lemma raises_mysql_only_executemany_insert {A : Type}
    (statement : A → tables → tables) (seq_params : list A) :
  raises_mysql_only (executemany_insert statement seq_params).
Proof.
  destruct seq_params; [apply raises_mysql_only_ret|].
  apply raises_mysql_only_execute.
Qed.

Lemma raises_mysql_only_commit : raises_mysql_only commit.
Proof.
  apply raises_mysql_only_bind; [apply raises_mysql_only_server_call|].
  intros _ c e H. discriminate.
Qed.

Lemma raises_mysql_only_write_status
    (status_list : list DashboardSignalStatus) :
  raises_mysql_only (Database.write_status status_list).
Proof.
  unfold Database.write_status.
  apply raises_mysql_only_bind;
    [apply raises_mysql_only_executemany_insert|intros _].
  apply raises_mysql_only_bind;
    [apply raises_mysql_only_executemany|intros _].
  apply raises_mysql_only_commit.
Qed.

Lemma raises_mysql_only_write_coverage
    (coverage_list : list DashboardSignalCoverage) :
  raises_mysql_only (Database.write_coverage coverage_list).
Proof.
  unfold Database.write_coverage.
  apply raises_mysql_only_bind;
    [apply raises_mysql_only_executemany_insert|intros _].
  apply raises_mysql_only_bind;
    [apply raises_mysql_only_executemany|intros _].
  apply raises_mysql_only_commit.
Qed.

Lemma server_call_tables (c c' : connection) (r : result ()) :
  server_call c = (r, c') →
  working c' = working c ∧ committed c' = committed c.
Proof.
  unfold server_call. destruct (faults c) as [|[msg|] fs]; by intros [= <- <-].
Qed.

Lemma init_tables (c c' : connection) (r : result ()) :
  Database.init c = (r, c') →
  working c' = working c ∧ committed c' = committed c.
Proof. apply server_call_tables. Qed.

Lemma get_enabled_signals_tables (c c' : connection)
    (r : result (list DashboardSignal)) :
  Database.get_enabled_signals c = (r, c') →
  working c' = working c ∧ committed c' = committed c.
Proof.
  unfold Database.get_enabled_signals, mbind, store_bind.
  destruct (server_call c) as [[[]|e] c1] eqn:E;
    apply server_call_tables in E; unfold read_transaction, mret, store_ret;
    by intros [= <- <-].
Qed.

(** ** The run *)

Lemma run_bind_unfold {A B : Type} (m : run A) (f : A → run B) (w : world) :
  (m ≫= f) w
  = match m w with
    | (Return x, w') => f x w'
    | (Raise e, w') => (Raise e, w')
    end.
Proof. reflexivity. Qed.

Lemma try_except_write (write : store ()) (event : string) (w : world) :
  raises_mysql_only write →
  try_except_mysql (_ ← on_database write; logger_info event) w
  = (Return (),
     {| conn := (write (conn w)).2;
        log := log w ++ [write_record event (write (conn w)).1] |}).
Proof.
  intros Hmysql. unfold try_except_mysql, mbind, run_bind, on_database.
  specialize (Hmysql (conn w)).
  destruct (write (conn w)) as [[[]|e] c']; simpl in *; [done|].
  destruct (Hmysql e eq_refl) as [msg ->]. done.
Qed.

Section Run.

Context (covidcast_signal :
           string → string → Z → Z → option (list TimeSeries.row))
        (covidcast_metadata : result (list Metadata.row))
        (today : Z).

Lemma main_after_computation (args : option Namespace) (w : world)
    (c1 c2 : connection) (signals_to_generate : list DashboardSignal)
    (metadata : list Metadata.row)
    (signal_status_list : list DashboardSignalStatus)
    (coverage_list : list DashboardSignalCoverage) :
  Database.init (conn w) = (Return (), c1) →
  Database.get_enabled_signals c1 = (Return signals_to_generate, c2) →
  covidcast_metadata = Return metadata →
  generate covidcast_signal today metadata signals_to_generate [] []
    = Return (signal_status_list, coverage_list) →
  main covidcast_signal covidcast_metadata today args w
  = (Return true,
     {| conn := (Database.write_coverage coverage_list
                   (Database.write_status signal_status_list c2).2).2;
        log := log w ++
          [ LogInfo "Starting generating dashboard data.";
            write_record "Wrote status."
              (Database.write_status signal_status_list c2).1;
            write_record "Wrote coverage."
              (Database.write_coverage coverage_list
                 (Database.write_status signal_status_list c2).2).1;
            LogInfo "Generated signal dashboard data" ] |}).
Proof.
  intros Hinit Hselect Hmeta Hgen.
  unfold main. rewrite run_bind_unfold.
  unfold on_database at 1. rewrite Hinit.
  rewrite run_bind_unfold. unfold on_database at 1. cbn [conn].
  rewrite Hselect.
  rewrite run_bind_unfold. unfold logger_info at 1. cbn [conn log].
  rewrite run_bind_unfold. unfold computed at 1. rewrite Hmeta.
  rewrite run_bind_unfold. unfold computed at 1. rewrite Hgen.
  rewrite run_bind_unfold, try_except_write
    by apply raises_mysql_only_write_status.
  cbn [conn log].
  rewrite run_bind_unfold, try_except_write
    by apply raises_mysql_only_write_coverage.
  cbn [conn log].
  rewrite run_bind_unfold. unfold logger_info, mret, run_ret.
  cbn [conn log]. by rewrite <- !app_assoc.
Qed.

End Run.

(** ** A batch write that raises has committed nothing *)

Lemma keeps_committed_bind {A B : Type} (m : store A) (f : A → store B) :
  keeps_committed m → (∀ x, keeps_committed (f x)) → keeps_committed (m ≫= f).
Proof.
  intros Hm Hf c. unfold mbind, store_bind. specialize (Hm c).
  destruct (m c) as [[x|e] c']; simpl in *; [|done]. by rewrite Hf.
Qed.

Lemma keeps_committed_server_call : keeps_committed server_call.
Proof.
  intros c. unfold server_call. by destruct (faults c) as [|[msg|] fs].
Qed.

Lemma keeps_committed_execute (statement : tables → tables) :
  keeps_committed (execute statement).
Proof.
  apply keeps_committed_bind; [apply keeps_committed_server_call|done].
Qed.

Lemma keeps_committed_executemany {A : Type}
    (statement : A → tables → tables) (seq_params : list A) :
  keeps_committed (executemany statement seq_params).
Proof.
  induction seq_params as [|p ps IH]; simpl; [done|].
  apply keeps_committed_bind; [apply keeps_committed_execute|done].
Qed.

Lemma keeps_committed_executemany_insert {A : Type}
    (statement : A → tables → tables) (seq_params : list A) :
  keeps_committed (executemany_insert statement seq_params).
Proof. destruct seq_params; [done|]. apply keeps_committed_execute. Qed.

Lemma commit_raise (c : connection) (e : exn) :
  (commit c).1 = Raise e → committed (commit c).2 = committed c.
Proof.
  unfold commit, mbind, store_bind.
  pose proof (keeps_committed_server_call c) as Hcall.
  by destruct (server_call c) as [[[]|e'] c'].
Qed.

Lemma batch_write_raise (inserts updates : store ()) (c : connection)
    (e : exn) :
  keeps_committed inserts → keeps_committed updates →
  ((_ ← inserts; _ ← updates; commit) c).1 = Raise e →
  committed ((_ ← inserts; _ ← updates; commit) c).2 = committed c.
Proof.
  intros Hins Hupd. unfold mbind, store_bind.
  specialize (Hins c). destruct (inserts c) as [[[]|e1] c1]; simpl in *;
    [|done].
  specialize (Hupd c1). destruct (updates c1) as [[[]|e2] c2]; simpl in *;
    [|congruence].
  intros Hraise. rewrite (commit_raise c2 e Hraise). congruence.
Qed.

Lemma write_status_raise_commits_nothing
    (status_list : list DashboardSignalStatus) (c : connection) (e : exn) :
  (Database.write_status status_list c).1 = Raise e →
  committed (Database.write_status status_list c).2 = committed c.
Proof.
  apply (batch_write_raise
           (executemany_insert insert_status _)
           (executemany update_latest_status _)).
  - apply keeps_committed_executemany_insert.
  - apply keeps_committed_executemany.
Qed.

Lemma write_coverage_raise_commits_nothing
    (coverage_list : list DashboardSignalCoverage) (c : connection) (e : exn) :
  (Database.write_coverage coverage_list c).1 = Raise e →
  committed (Database.write_coverage coverage_list c).2 = committed c.
Proof.
  apply (batch_write_raise
           (executemany_insert insert_coverage _)
           (executemany update_latest_coverage _)).
  - apply keeps_committed_executemany_insert.
  - apply keeps_committed_executemany.
Qed.

Section Orchestration.

Context (covidcast_signal :
           string → string → Z → Z → option (list TimeSeries.row))
        (covidcast_metadata : result (list Metadata.row))
        (today : Z).

(** C8.  In a run that reaches the write phase, [write_coverage] is called
    on the connection that [write_status] left, whether [write_status]
    returned or raised; what either call raises is a store error and goes
    to the log, and a raise of one undoes no commit of the other; [main]
    returns [True] and the process ends with status 0. *)
Theorem store_errors_are_logged_and_run_succeeds
    (args : option Namespace) (w : world) (c1 c2 : connection)
    (signals_to_generate : list DashboardSignal)
    (metadata : list Metadata.row)
    (signal_status_list : list DashboardSignalStatus)
    (coverage_list : list DashboardSignalCoverage) :
  Database.init (conn w) = (Return (), c1) →
  Database.get_enabled_signals c1 = (Return signals_to_generate, c2) →
  covidcast_metadata = Return metadata →
  generate covidcast_signal today metadata signals_to_generate [] []
    = Return (signal_status_list, coverage_list) →
  let status_write := Database.write_status signal_status_list c2 in
  let coverage_write := Database.write_coverage coverage_list status_write.2 in
  ∃ w',
    main covidcast_signal covidcast_metadata today args w
      = (Return true, w') ∧
    (exit_status covidcast_signal covidcast_metadata today args w).1 = 0 ∧
    conn w' = coverage_write.2 ∧
    log w' = log w ++
      [ LogInfo "Starting generating dashboard data.";
        write_record "Wrote status." status_write.1;
        write_record "Wrote coverage." coverage_write.1;
        LogInfo "Generated signal dashboard data" ] ∧
    (∀ e, status_write.1 = Raise e →
          (∃ msg, e = MySQLError msg) ∧ LogException e ∈ log w' ∧
          committed status_write.2 = committed c2) ∧
    (∀ e, coverage_write.1 = Raise e →
          (∃ msg, e = MySQLError msg) ∧ LogException e ∈ log w' ∧
          committed (conn w') = committed status_write.2).
Proof.
  intros Hinit Hselect Hmeta Hgen status_write coverage_write.
  pose proof (main_after_computation covidcast_signal covidcast_metadata
                today args w c1 c2 signals_to_generate metadata
                signal_status_list coverage_list Hinit Hselect Hmeta Hgen)
    as Hmain.
  eexists. split; [exact Hmain|].
  split; [unfold exit_status; by rewrite Hmain|].
  cbn [conn log]. split; [done|]. split; [done|]. split.
  - intros e He. split; [|split].
    + by apply (raises_mysql_only_write_status signal_status_list c2).
    + unfold status_write in He. rewrite He. cbn [write_record].
      apply elem_of_app. right. right. left.
    + by apply (write_status_raise_commits_nothing _ _ e).
  - intros e He. split; [|split].
    + by apply (raises_mysql_only_write_coverage coverage_list
                  status_write.2).
    + unfold coverage_write, status_write in He. rewrite He.
      cbn [write_record]. apply elem_of_app. right. right. right. left.
    + by apply (write_coverage_raise_commits_nothing _ _ e).
Qed.

(** The loop over one more signal. *)
Lemma generate_cons (metadata : list Metadata.row)
    (dashboard_signal : DashboardSignal) (rest : list DashboardSignal)
    (signal_status_list : list DashboardSignalStatus)
    (coverage_list : list DashboardSignalCoverage) :
  generate covidcast_signal today metadata (dashboard_signal :: rest)
    signal_status_list coverage_list
  = match generate covidcast_signal today metadata [dashboard_signal] [] []
    with
    | Raise e => Raise e
    | Return (status, coverage) =>
        generate covidcast_signal today metadata rest
          (signal_status_list ++ status) (coverage_list ++ coverage)
    end.
Proof.
  cbn [generate].
  destruct (get_latest_issue_from_metadata dashboard_signal metadata)
    as [latest_issue|]; [|done].
  destruct (get_latest_time_value_from_metadata dashboard_signal metadata)
    as [latest_time_value|]; [|done].
  destruct (get_coverage covidcast_signal dashboard_signal metadata);
    [|done].
  cbn [mbind result_bind].
  destruct (as_date latest_issue); [|done].
  by destruct (as_date latest_time_value).
Qed.

Lemma generate_one_raises (metadata : list Metadata.row)
    (dashboard_signal : DashboardSignal) :
  (∃ e, get_latest_issue_from_metadata dashboard_signal metadata = Raise e) ∨
  (∃ e, get_latest_time_value_from_metadata dashboard_signal metadata
        = Raise e) ∨
  (∃ e, get_coverage covidcast_signal dashboard_signal metadata = Raise e) →
  ∃ e, generate covidcast_signal today metadata [dashboard_signal] [] []
       = Raise e.
Proof.
  intros Hraise. cbn [generate].
  destruct (get_latest_issue_from_metadata dashboard_signal metadata)
    as [issue|e1]; [|by exists e1].
  destruct (get_latest_time_value_from_metadata dashboard_signal metadata)
    as [day|e2]; [|by exists e2].
  destruct (get_coverage covidcast_signal dashboard_signal metadata)
    as [coverage|e3]; [|by exists e3].
  destruct Hraise as [[e He]|[[e He]|[e He]]]; discriminate.
Qed.

(** Among signals of which one fails there is a first that fails; the
    loop raises what it raises, whatever comes after it. *)
Lemma generate_first_failure (metadata : list Metadata.row)
    (signals_to_generate : list DashboardSignal)
    (dashboard_signal : DashboardSignal) (e0 : exn) :
  dashboard_signal ∈ signals_to_generate →
  generate covidcast_signal today metadata [dashboard_signal] [] []
    = Raise e0 →
  ∃ before failing after e,
    signals_to_generate = before ++ failing :: after ∧
    (∀ x, x ∈ before →
          ∃ lists, generate covidcast_signal today metadata [x] [] []
                   = Return lists) ∧
    generate covidcast_signal today metadata [failing] [] [] = Raise e ∧
    (∀ after' signal_status_list coverage_list,
        generate covidcast_signal today metadata
          (before ++ failing :: after') signal_status_list coverage_list
        = Raise e).
Proof.
  induction signals_to_generate as [|s rest IH]; intros Hin Hfail.
  - by apply elem_of_nil in Hin.
  - destruct (generate covidcast_signal today metadata [s] [] [])
      as [[status coverage]|e] eqn:Hs.
    + apply elem_of_cons in Hin as [->|Hin]; [congruence|].
      destruct (IH Hin Hfail)
        as (before & failing & after & e & -> & Hok & Hraise & Hall).
      exists (s :: before), failing, after, e. repeat split; try done.
      * intros x [->|Hx]%elem_of_cons; [by eexists|by apply Hok].
      * intros after' sl cl. cbn [app]. rewrite generate_cons, Hs.
        apply Hall.
    + exists [], s, rest, e. repeat split; try done.
      * intros x Hx. by apply elem_of_nil in Hx.
      * intros after' sl cl. cbn [app]. by rewrite generate_cons, Hs.
Qed.

(** C9.  When the computation of the latest issue, of the latest time
    value or of the coverage raises for one of the enabled signals, the
    exception of the first signal for which one does reaches the caller of
    [main]: nothing catches it.  No statement is sent to the store after
    the SELECT of the enabled signals, so nothing is written; the log has
    no record after that of the start; the signals after the failing one
    play no part; the process ends with status 1. *)
Theorem computation_error_aborts_run
    (args : option Namespace) (w : world) (c1 c2 : connection)
    (signals_to_generate : list DashboardSignal)
    (metadata : list Metadata.row) (dashboard_signal : DashboardSignal) :
  Database.init (conn w) = (Return (), c1) →
  Database.get_enabled_signals c1 = (Return signals_to_generate, c2) →
  covidcast_metadata = Return metadata →
  dashboard_signal ∈ signals_to_generate →
  (∃ e, get_latest_issue_from_metadata dashboard_signal metadata = Raise e) ∨
  (∃ e, get_latest_time_value_from_metadata dashboard_signal metadata
        = Raise e) ∨
  (∃ e, get_coverage covidcast_signal dashboard_signal metadata = Raise e) →
  ∃ before failing after e,
    signals_to_generate = before ++ failing :: after ∧
    (∀ x, x ∈ before →
          ∃ lists, generate covidcast_signal today metadata [x] [] []
                   = Return lists) ∧
    generate covidcast_signal today metadata [failing] [] [] = Raise e ∧
    (∀ after', generate covidcast_signal today metadata
                 (before ++ failing :: after') [] [] = Raise e) ∧
    main covidcast_signal covidcast_metadata today args w
      = (Raise e,
         {| conn := c2;
            log := log w ++ [LogInfo "Starting generating dashboard data."]
         |}) ∧
    working c2 = working (conn w) ∧
    committed c2 = committed (conn w) ∧
    (exit_status covidcast_signal covidcast_metadata today args w).1 = 1.
Proof.
  intros Hinit Hselect Hmeta Hin Hraise.
  destruct (generate_one_raises metadata dashboard_signal Hraise)
    as [e0 He0].
  destruct (generate_first_failure metadata signals_to_generate
              dashboard_signal e0 Hin He0)
    as (before & failing & after & e & Hsplit & Hok & Hfail & Hall).
  assert (main covidcast_signal covidcast_metadata today args w
          = (Raise e,
             {| conn := c2;
                log := log w ++
                  [LogInfo "Starting generating dashboard data."] |}))
    as Hmain.
  { unfold main. rewrite run_bind_unfold.
    unfold on_database at 1. rewrite Hinit.
    rewrite run_bind_unfold. unfold on_database at 1. cbn [conn].
    rewrite Hselect.
    rewrite run_bind_unfold. unfold logger_info at 1. cbn [conn log].
    rewrite run_bind_unfold. unfold computed at 1. rewrite Hmeta.
    rewrite run_bind_unfold. unfold computed at 1.
    by rewrite Hsplit, Hall. }
  exists before, failing, after, e.
  destruct (init_tables _ _ _ Hinit) as [Hw1 Hc1].
  destruct (get_enabled_signals_tables _ _ _ Hselect) as [Hw2 Hc2].
  repeat split; try done.
  - congruence.
  - congruence.
  - unfold exit_status. by rewrite Hmain.
Qed.

End Orchestration.

(** ** The worked run *)

Lemma watermarks_are_running_maxima_witness :
  ∃ r',
    dashboard_signal
      (working (write_all Database.write_status example_status_batches
                  (example_connection []))) !! 0%nat = Some r' ∧
    ymd2ord 2020 1 1 ≤ SignalTable.latest_status_update r' ∧
    (∀ batch x, batch ∈ example_status_batches → x ∈ batch →
                signal_id x = 1 →
                date_ x ≤ SignalTable.latest_status_update r').
Proof.
  destruct (watermarks_are_running_maxima
              example_status_batches example_coverage_batches
              (example_connection []) 0 example_registry_row eq_refl)
    as (_ & _ & Hmax).
  destruct (Hmax (Forall_nil_2 _)) as [(r' & Hr' & _ & Hge & Hub & _) _].
  exists r'. split; [exact Hr'|]. split; [exact Hge|exact Hub].
Defined.

Lemma write_status_twice_witness :
  working
    (Database.write_status
       [example_status (ymd2ord 2023 1 6) (ymd2ord 2023 1 4);
        example_status (ymd2ord 2023 1 6) (ymd2ord 2023 1 5)]
       (Database.write_status
          [example_status (ymd2ord 2023 1 6) (ymd2ord 2023 1 4);
           example_status (ymd2ord 2023 1 6) (ymd2ord 2023 1 5)]
          (example_connection [None; None; None; None; None; None])).2).2
  = working
      (Database.write_status
         [example_status (ymd2ord 2023 1 6) (ymd2ord 2023 1 4);
          example_status (ymd2ord 2023 1 6) (ymd2ord 2023 1 5)]
         (example_connection [None; None; None; None; None; None])).2.
Proof.
  destruct (write_status_twice
              [example_status (ymd2ord 2023 1 6) (ymd2ord 2023 1 4);
               example_status (ymd2ord 2023 1 6) (ymd2ord 2023 1 5)]
              (example_connection [None; None; None; None; None; None])
              ltac:(repeat constructor))
    as (_ & _ & Hsame & _).
  exact Hsame.
Defined.

Lemma coverage_first_write_wins_witness :
  dashboard_signal_coverage
    (committed
       (Database.write_coverage [example_coverage 5]
          (Database.write_coverage [example_coverage 3]
             (example_connection [])).2).2)
    !! (1, ymd2ord 2023 1 4, "county")
  = Some 3.
Proof.
  destruct (coverage_first_write_wins [] [] [example_coverage 5]
              (example_coverage 3) (example_coverage 5)
              (example_connection []))
    as (_ & _ & _ & Hkept & _).
  - apply Forall_nil_2.
  - reflexivity.
  - intros y Hy. by apply elem_of_nil in Hy.
  - left.
  - reflexivity.
  - discriminate.
  - exact Hkept.
Defined.

Lemma store_errors_are_logged_and_run_succeeds_witness :
  ∃ w',
    main (example_api (Some [example_row "county"; example_row "county";
                             example_row "county"]))
         (Return example_metadata) example_today None
         (example_world [None; None; Some "boom"])
    = (Return true, w') ∧
    LogException (MySQLError "boom") ∈ log w' ∧
    dashboard_signal_coverage (committed (conn w'))
      !! (1, ymd2ord 2023 1 4, "county") = Some 3.
Proof.
  destruct (store_errors_are_logged_and_run_succeeds
              (example_api (Some [example_row "county"; example_row "county";
                                  example_row "county"]))
              (Return example_metadata) example_today None
              (example_world [None; None; Some "boom"])
              (example_connection [None; Some "boom"])
              (example_connection [Some "boom"])
              [example_signal] example_metadata
              [ {| signal_id := 1; date_ := example_today;
                   latest_issue := ymd2ord 2023 1 5;
                   latest_time_value := ymd2ord 2023 1 4 |} ]
              [example_coverage 3])
    as (w' & Hmain & _ & Hconn & _ & Hstatus & _).
  - reflexivity.
  - reflexivity.
  - reflexivity.
  - vm_compute. reflexivity.
  - exists w'. split; [exact Hmain|]. split.
    + destruct (Hstatus (MySQLError "boom")) as (_ & Hlog & _);
        [vm_compute; reflexivity|exact Hlog].
    + rewrite Hconn. vm_compute. reflexivity.
Defined.

Lemma computation_error_aborts_run_witness :
  ∃ e w',
    main (example_api (Some [example_row "county"; example_row "county";
                             example_row "state"]))
         (Return example_metadata) example_today None (example_world [])
    = (Raise e, w') ∧
    working (conn w') = example_tables ∧
    committed (conn w') = example_tables ∧
    log w' = [LogInfo "Starting generating dashboard data."].
Proof.
  destruct (computation_error_aborts_run
              (example_api (Some [example_row "county"; example_row "county";
                                  example_row "state"]))
              (Return example_metadata) example_today None (example_world [])
              (example_connection []) (example_connection [])
              [example_signal] example_metadata example_signal)
    as (before & failing & after & e & _ & _ & _ & _ & Hmain & _).
  - reflexivity.
  - reflexivity.
  - reflexivity.
  - left.
  - right. right. eexists. vm_compute. reflexivity.
  - exists e. eexists. split; [exact Hmain|]. by repeat split.
Defined.

(** The conventions on dates: the epoch is 1970-01-01, and the
    [max_issue] of the worked run decodes to 2023-01-05. *)
Example epoch_is_1970_01_01 : ymd2ord 1970 1 1 = epoch_ordinal.
Proof. reflexivity. Qed.

Example worked_latest_issue :
  get_latest_issue_from_metadata example_signal example_metadata
  = Return (Date (ymd2ord 2023 1 5)).
Proof. reflexivity. Qed.

(** The format takes a month or a day of one digit, and the first match of
    its regular expression decides: [2023015] is 2023-01-05, [2023111] is
    2023-11-01, [202311] is 2023-01-01; text that is left over, a day that
    the month does not have, a sign or too few digits are errors. *)
Example worked_parsing :
  to_datetime_Ymd <$> [Some 2023015; Some 2023111; Some 202311]
  = Return ∘ Timestamp_of_date
      <$> [ymd2ord 2023 1 5; ymd2ord 2023 11 1; ymd2ord 2023 1 1] ∧
  to_datetime_Ymd <$> [Some 20231305; Some 20230230; Some (-20230105);
                       Some 202310]
  = Raise ∘ ToDatetimeError
      <$> ["20231305"; "20230230"; "-20230105"; "202310"].
Proof. split; reflexivity. Qed.

(** The worked run from end to end: one status row for today with the
    latest issue 2023-01-05 and the latest time value 2023-01-04, one
    coverage row with three counties, both watermarks moved. *)
Example worked_run :
  ∃ w',
    main (example_api (Some [example_row "county"; example_row "county";
                             example_row "county"]))
         (Return example_metadata) example_today None (example_world [])
    = (Return true, w') ∧
    dashboard_signal_status (committed (conn w')) !! (1, example_today)
      = Some (ymd2ord 2023 1 5, ymd2ord 2023 1 4) ∧
    dashboard_signal_coverage (committed (conn w'))
      !! (1, ymd2ord 2023 1 4, "county") = Some 3 ∧
    dashboard_signal (committed (conn w'))
      = [ set_latest_coverage_update (ymd2ord 2023 1 4)
            (set_latest_status_update example_today example_registry_row) ] ∧
    log w' = [ LogInfo "Starting generating dashboard data.";
               LogInfo "Wrote status."; LogInfo "Wrote coverage.";
               LogInfo "Generated signal dashboard data" ].
Proof. eexists. split; [reflexivity|]. vm_compute. by repeat split. Qed.

(** * Further properties *)

(** ** The latest time value *)

Lemma Series_max_set_ext (xs ys : list Z) :
  (∀ x, x ∈ xs ↔ x ∈ ys) → Series_max xs = Series_max ys.
Proof.
  intros Hsame.
  destruct (Series_max xs) as [m|] eqn:Hxs, (Series_max ys) as [m'|] eqn:Hys.
  - destruct (Series_max_Some _ _ Hxs) as [Hm Hub].
    destruct (Series_max_Some _ _ Hys) as [Hm' Hub'].
    f_equal. apply Z.le_antisymm; [apply Hub', Hsame, Hm|apply Hub, Hsame, Hm'].
  - destruct (Series_max_Some _ _ Hxs) as [Hm _].
    apply Series_max_None in Hys. subst ys.
    apply Hsame in Hm. by apply elem_of_nil in Hm.
  - destruct (Series_max_Some _ _ Hys) as [Hm _].
    apply Series_max_None in Hxs. subst xs.
    apply Hsame in Hm. by apply elem_of_nil in Hm.
  - done.
Qed.

Lemma elem_of_source_column {A : Type} (column : Metadata.row → A)
    (src : string) (metadata : list Metadata.row) (x : A) :
  x ∈ column <$> rows_for_source src metadata
  ↔ ∃ r, x = column r ∧ Metadata.data_source r = src ∧ r ∈ metadata.
Proof.
  rewrite list_elem_of_fmap. split.
  - intros (r & -> & Hr%elem_of_rows_for_source). by exists r.
  - intros (r & -> & Hr). exists r. split; [done|].
    by apply elem_of_rows_for_source.
Qed.

(** X1.  When the metadata table has a row for the signal's source,
    [get_latest_time_value_from_metadata] returns: its value is the date of
    the greatest [max_time] among the rows of the source, which is no
    earlier than the date of the [max_time] of any of them, and is [d] when
    that greatest timestamp is the midnight of [d]. *)
Theorem latest_time_value_is_date_of_max_time
    (dashboard_signal : DashboardSignal) (metadata : list Metadata.row) :
  (∃ r, r ∈ metadata ∧ Metadata.data_source r = source dashboard_signal) →
  ∃ t,
    (∃ r, r ∈ metadata ∧ Metadata.data_source r = source dashboard_signal ∧
          Metadata.max_time r = t) ∧
    (∀ r, r ∈ metadata → Metadata.data_source r = source dashboard_signal →
          Metadata.max_time r ≤ t) ∧
    get_latest_time_value_from_metadata dashboard_signal metadata
      = Return (Date (epoch_ordinal + t / ns_per_day)) ∧
    (∀ r, r ∈ metadata → Metadata.data_source r = source dashboard_signal →
          epoch_ordinal + Metadata.max_time r / ns_per_day
            ≤ epoch_ordinal + t / ns_per_day) ∧
    (∀ d, Ts t = Timestamp_of_date d →
          get_latest_time_value_from_metadata dashboard_signal metadata
            = Return (Date d)).
Proof.
  intros (r0 & Hin0 & Hsrc0).
  destruct (Series_max
              (Metadata.max_time <$>
                 rows_for_source (source dashboard_signal) metadata))
    as [t|] eqn:Hmax.
  - exists t. destruct (Series_max_Some _ _ Hmax) as [Ht Hub].
    apply elem_of_source_column in Ht as (r & -> & Hsrc & Hin).
    assert (get_latest_time_value_from_metadata dashboard_signal metadata
            = Return (Date (epoch_ordinal + Metadata.max_time r / ns_per_day)))
      as Hcall
      by (unfold get_latest_time_value_from_metadata; by rewrite Hmax).
    assert (∀ r', r' ∈ metadata →
              Metadata.data_source r' = source dashboard_signal →
              Metadata.max_time r' ≤ Metadata.max_time r) as Hle.
    { intros r' Hin' Hsrc'. apply Hub, elem_of_source_column. by exists r'. }
    repeat split.
    + by exists r.
    + done.
    + done.
    + intros r' Hin' Hsrc'. apply Z.add_le_mono_l, Z.div_le_mono.
      * unfold ns_per_day. lia.
      * by apply Hle.
    + intros d Hd. rewrite Hcall.
      change (Return (Timestamp_date (Ts (Metadata.max_time r)))
              = Return (Date d)).
      by rewrite Hd, Timestamp_date_of_date.
  - apply Series_max_None, fmap_nil_inv in Hmax.
    assert (r0 ∈ rows_for_source (source dashboard_signal) metadata) as Hr0
      by (by apply elem_of_rows_for_source).
    rewrite Hmax in Hr0. by apply elem_of_nil in Hr0.
Qed.

Lemma latest_time_value_is_date_of_max_time_witness :
  get_latest_time_value_from_metadata example_signal example_metadata
  = Return (Date (ymd2ord 2023 1 4)).
Proof.
  destruct (latest_time_value_is_date_of_max_time
              example_signal example_metadata)
    as (t & (r & Hr & _ & Ht) & _ & _ & _ & Hmidnight).
  - eexists. split; [left|reflexivity].
  - apply Hmidnight. rewrite <- Ht.
    apply list_elem_of_singleton in Hr. by rewrite Hr.
Defined.

(** X2.  The latest issue and the latest time value depend on the metadata
    table only through the set of its rows for the signal's source: rows of
    other sources, the order of the rows and repeated rows change
    neither. *)
Theorem latest_values_read_source_rows_as_a_set
    (dashboard_signal : DashboardSignal) (metadata metadata' : list Metadata.row) :
  (∀ r, Metadata.data_source r = source dashboard_signal →
        (r ∈ metadata ↔ r ∈ metadata')) →
  get_latest_issue_from_metadata dashboard_signal metadata
    = get_latest_issue_from_metadata dashboard_signal metadata' ∧
  get_latest_time_value_from_metadata dashboard_signal metadata
    = get_latest_time_value_from_metadata dashboard_signal metadata'.
Proof.
  intros Hsame.
  assert (∀ column : Metadata.row → Z,
            Series_max (column <$>
                          rows_for_source (source dashboard_signal) metadata)
            = Series_max (column <$>
                            rows_for_source (source dashboard_signal) metadata'))
    as Hmax.
  { intros column. apply Series_max_set_ext. intros x.
    rewrite !elem_of_source_column.
    split; intros (r & -> & Hsrc & Hin); exists r;
      (split; [done|split; [done|by apply (Hsame r Hsrc)]]). }
  unfold get_latest_issue_from_metadata, get_latest_time_value_from_metadata.
  by rewrite !Hmax.
Qed.

Lemma latest_values_read_source_rows_as_a_set_witness :
  get_latest_issue_from_metadata example_signal example_metadata
    = get_latest_issue_from_metadata example_signal example_metadata_mixed ∧
  get_latest_time_value_from_metadata example_signal example_metadata
    = get_latest_time_value_from_metadata example_signal
        example_metadata_mixed.
Proof.
  apply (latest_values_read_source_rows_as_a_set
           example_signal example_metadata example_metadata_mixed).
  intros r Hsrc. unfold example_metadata_mixed. split.
  - intros Hr. right. apply elem_of_app. by left.
  - intros [->|[Hr|Hr]%elem_of_app]%elem_of_cons; [discriminate|done|done].
Defined.

(** ** What [get_coverage] returns *)

Lemma groupby_size_at_most_one (df : list TimeSeries.row) :
  ¬ (1 < length (groupby_size df))%nat → df ≠ [] →
  ∃ k, (∀ r, r ∈ df → key_of r = k) ∧ groupby_size df = [(k, length df)].
Proof.
  intros Hlen Hne.
  assert (∀ r, r ∈ df → key_of r ∈ (groupby_size df).*1) as Hkeys
    by (intros r Hr; apply count_rows_keys; right; by exists r).
  destruct df as [|r0 df]; [done|].
  destruct (groupby_size (r0 :: df)) as [|[k n] [|g gs]] eqn:E.
  - specialize (Hkeys r0 (list_elem_of_here _ _)).
    by apply elem_of_nil in Hkeys.
  - assert (∀ r, r ∈ r0 :: df → key_of r = k) as Hall.
    { intros r Hr. specialize (Hkeys r Hr). simpl in Hkeys.
      by apply list_elem_of_singleton in Hkeys. }
    exists k. split; [done|].
    rewrite <- E. by apply groupby_size_one_key.
  - simpl in Hlen. lia.
Qed.

Lemma get_coverage_returns
    (covidcast_signal : string → string → Z → Z → option (list TimeSeries.row))
    (dashboard_signal : DashboardSignal) (metadata : list Metadata.row)
    (coverage : list DashboardSignalCoverage) :
  get_coverage covidcast_signal dashboard_signal metadata = Return coverage →
  ∃ latest_time_value first_signal latest_data k,
    get_latest_time_value_from_metadata dashboard_signal metadata
      = Return (Date latest_time_value) ∧
    head (Metadata.signal <$>
            rows_for_source (source dashboard_signal) metadata)
      = Some first_signal ∧
    covidcast_signal (source dashboard_signal) first_signal
                     latest_time_value latest_time_value = Some latest_data ∧
    latest_data ≠ [] ∧
    (∀ r, r ∈ latest_data → key_of r = k) ∧
    coverage = [ {| cov_signal_id := db_id dashboard_signal;
                    cov_date := latest_time_value;
                    geo_type := key_geo_type k;
                    count := Z.of_nat (length latest_data) |} ].
Proof.
  intros H. unfold get_coverage in H.
  destruct (get_latest_time_value_from_metadata dashboard_signal metadata)
    as [[|day]|e]; [| |discriminate].
  { cbn [mbind result_bind] in H.
    by destruct (Metadata.signal <$>
                   rows_for_source (source dashboard_signal) metadata). }
  cbn [mbind result_bind] in H.
  destruct (Metadata.signal <$>
              rows_for_source (source dashboard_signal) metadata)
    as [|sig sigs]; [discriminate|].
  cbn [iloc0 as_date mbind result_bind mret result_ret] in H.
  destruct (covidcast_signal (source dashboard_signal) sig day day)
    as [df|] eqn:Hanswer; [|discriminate].
  cbn [mbind result_bind mret result_ret] in H. cbv zeta in H.
  destruct (decide (1 < length (groupby_size df))%nat) as [|Hlen];
    [discriminate|].
  assert (df ≠ []) as Hne by (intros ->; discriminate).
  destruct (groupby_size_at_most_one df Hlen Hne) as (k & Hall & E).
  rewrite E in H.
  cbn [fmap list_fmap iloc0 mbind result_bind mret result_ret fst snd] in H.
  injection H as <-. exists day, sig, df, k. by repeat split.
Qed.

(** X3.  Whenever [get_coverage] returns, it returns exactly one coverage
    row: the metadata had rows for the source, the API answered the query
    for the first signal name and the single day [latest_time_value] with
    at least one row, all the rows of the answer agree on the four grouping
    columns, and the row returned has the signal's [db_id], that day, the
    geo_type of the rows and their number, which is positive. *)
Theorem coverage_returns_one_row
    (covidcast_signal : string → string → Z → Z → option (list TimeSeries.row))
    (dashboard_signal : DashboardSignal) (metadata : list Metadata.row)
    (coverage : list DashboardSignalCoverage) :
  get_coverage covidcast_signal dashboard_signal metadata = Return coverage →
  ∃ latest_time_value first_signal latest_data k,
    get_latest_time_value_from_metadata dashboard_signal metadata
      = Return (Date latest_time_value) ∧
    head (Metadata.signal <$>
            rows_for_source (source dashboard_signal) metadata)
      = Some first_signal ∧
    covidcast_signal (source dashboard_signal) first_signal
                     latest_time_value latest_time_value = Some latest_data ∧
    latest_data ≠ [] ∧
    (∀ r, r ∈ latest_data → key_of r = k) ∧
    coverage = [ {| cov_signal_id := db_id dashboard_signal;
                    cov_date := latest_time_value;
                    geo_type := key_geo_type k;
                    count := Z.of_nat (length latest_data) |} ] ∧
    0 < Z.of_nat (length latest_data).
Proof.
  intros Hreturns.
  destruct (get_coverage_returns _ _ _ _ Hreturns)
    as (day & sig & df & k & Hday & Hfirst & Hanswer & Hne & Hkey & Hrow).
  exists day, sig, df, k. repeat split; try done.
  destruct df; [done|]. simpl. lia.
Qed.

(** X4.  [get_coverage] consults the API at one point only, the signal's
    source with the first signal name of its metadata rows and with
    [latest_time_value] as both start day and end day: two APIs that give
    the same answer there give the same coverage, and without metadata rows
    for the source the API is not consulted at all. *)
Theorem coverage_consults_one_query
    (api1 api2 : string → string → Z → Z → option (list TimeSeries.row))
    (dashboard_signal : DashboardSignal) (metadata : list Metadata.row) :
  (∀ latest_time_value first_signal,
      get_latest_time_value_from_metadata dashboard_signal metadata
        = Return (Date latest_time_value) →
      head (Metadata.signal <$>
              rows_for_source (source dashboard_signal) metadata)
        = Some first_signal →
      api1 (source dashboard_signal) first_signal
           latest_time_value latest_time_value
      = api2 (source dashboard_signal) first_signal
             latest_time_value latest_time_value) →
  get_coverage api1 dashboard_signal metadata
  = get_coverage api2 dashboard_signal metadata.
Proof.
  intros Hsame. unfold get_coverage.
  destruct (get_latest_time_value_from_metadata dashboard_signal metadata)
    as [day|e]; [|done].
  cbn [mbind result_bind].
  destruct (Metadata.signal <$>
              rows_for_source (source dashboard_signal) metadata)
    as [|sig sigs]; [done|].
  destruct day as [|day]; [done|].
  cbn [iloc0 as_date mbind result_bind mret result_ret].
  by rewrite (Hsame day sig).
Qed.

Lemma coverage_returns_one_row_witness :
  ∃ day first_signal latest_data k,
    get_latest_time_value_from_metadata example_signal example_metadata
      = Return (Date day) ∧
    head (Metadata.signal <$>
            rows_for_source (source example_signal) example_metadata)
      = Some first_signal ∧
    example_api (Some [example_row "county"; example_row "county"])
      (source example_signal) first_signal day day = Some latest_data ∧
    latest_data ≠ [] ∧
    (∀ r, r ∈ latest_data → key_of r = k) ∧
    [ {| cov_signal_id := 1; cov_date := ymd2ord 2023 1 4;
         geo_type := "county"; count := 2 |} ]
    = [ {| cov_signal_id := db_id example_signal;
           cov_date := day;
           geo_type := key_geo_type k;
           count := Z.of_nat (length latest_data) |} ] ∧
    0 < Z.of_nat (length latest_data).
Proof.
  apply (coverage_returns_one_row
           (example_api (Some [example_row "county"; example_row "county"]))
           example_signal example_metadata).
  reflexivity.
Defined.

Lemma coverage_consults_one_query_witness :
  get_coverage (example_api (Some [example_row "county"]))
    example_signal example_metadata
  = get_coverage (example_api_by_day [example_row "county"])
      example_signal example_metadata.
Proof.
  apply (coverage_consults_one_query
           (example_api (Some [example_row "county"]))
           (example_api_by_day [example_row "county"])
           example_signal example_metadata).
  intros day first_signal Hday Hfirst.
  vm_compute in Hday. injection Hday as <-.
  vm_compute in Hfirst. injection Hfirst as <-.
  reflexivity.
Defined.

(** ** No record is built from [NaT]

    [NaT] is the latest issue and the latest time value of a source without
    metadata rows only, and for such a source [get_coverage] raises at
    [iloc[0]]: neither [get_coverage] nor the loop of [main] ever reads
    [NaT] as a date. *)

Lemma to_datetime_Ymd_returns (n : Z) (t : Timestamp) :
  to_datetime_Ymd (Some n) = Return t → ∃ d, t = Timestamp_of_date d.
Proof.
  unfold to_datetime_Ymd. cbv zeta.
  destruct (match_Ymd (pretty n)) as [[[[year month] day] [|c rest]]|];
    [|discriminate..].
  destruct (valid_ymd year month day && in_ns_bounds (ymd2ord year month day));
    [|discriminate].
  intros [= <-]. by eexists.
Qed.

Lemma latest_issue_raises (dashboard_signal : DashboardSignal)
    (metadata : list Metadata.row) (e : exn) :
  get_latest_issue_from_metadata dashboard_signal metadata = Raise e →
  ∃ text, e = ToDatetimeError text.
Proof.
  unfold get_latest_issue_from_metadata, to_datetime_Ymd. cbv zeta.
  destruct (Series_max _) as [n|]; [|discriminate].
  destruct (match_Ymd (pretty n)) as [[[[year month] day] [|c rest]]|];
    [|intros [= <-]; by eexists..].
  destruct (valid_ymd year month day && in_ns_bounds (ymd2ord year month day));
    [discriminate|].
  intros [= <-]. by eexists.
Qed.

Lemma latest_time_value_returns (dashboard_signal : DashboardSignal)
    (metadata : list Metadata.row) :
  ∃ v, get_latest_time_value_from_metadata dashboard_signal metadata
       = Return v.
Proof. by eexists. Qed.

Lemma latest_issue_of_a_source_with_rows (dashboard_signal : DashboardSignal)
    (metadata : list Metadata.row) (v : date_or_NaT) :
  rows_for_source (source dashboard_signal) metadata ≠ [] →
  get_latest_issue_from_metadata dashboard_signal metadata = Return v →
  ∃ d, v = Date d.
Proof.
  intros Hrows. unfold get_latest_issue_from_metadata.
  destruct (rows_for_source (source dashboard_signal) metadata) as [|r rs];
    [done|].
  cbn [fmap list_fmap Series_max].
  destruct (to_datetime_Ymd _) as [t|e] eqn:Ht; [|discriminate].
  destruct (to_datetime_Ymd_returns _ _ Ht) as [d ->].
  cbn [fmap result_fmap]. rewrite Timestamp_date_of_date.
  intros [= <-]. by exists d.
Qed.

Lemma get_coverage_reads_a_date
    (covidcast_signal : string → string → Z → Z → option (list TimeSeries.row))
    (dashboard_signal : DashboardSignal) (metadata : list Metadata.row)
    (msg : string) :
  get_coverage covidcast_signal dashboard_signal metadata
  ≠ Raise (TypeError msg).
Proof.
  unfold get_coverage, get_latest_time_value_from_metadata.
  destruct (rows_for_source (source dashboard_signal) metadata) as [|r rs];
    [discriminate|].
  cbn [fmap list_fmap Series_max from_option Timestamp_date as_date iloc0
       mbind result_bind mret result_ret].
  destruct (covidcast_signal _ _ _ _) as [df|]; [|discriminate].
  cbn [mbind result_bind mret result_ret]. cbv zeta.
  destruct (decide _); [discriminate|].
  destruct (groupby_size df) as [|[k size] gs]; discriminate.
Qed.

Lemma generate_reads_dates
    (covidcast_signal : string → string → Z → Z → option (list TimeSeries.row))
    (today : Z) (metadata : list Metadata.row)
    (signals_to_generate : list DashboardSignal)
    (signal_status_list : list DashboardSignalStatus)
    (coverage_list : list DashboardSignalCoverage) (msg : string) :
  generate covidcast_signal today metadata signals_to_generate
    signal_status_list coverage_list
  ≠ Raise (TypeError msg).
Proof.
  revert signal_status_list coverage_list.
  induction signals_to_generate as [|s rest IH];
    intros signal_status_list coverage_list; [discriminate|].
  cbn [generate].
  destruct (get_latest_issue_from_metadata s metadata) as [issue|e1] eqn:E1.
  2: { destruct (latest_issue_raises _ _ _ E1) as [text ->]. discriminate. }
  destruct (latest_time_value_returns s metadata) as [day E2]. rewrite E2.
  cbn [mbind result_bind].
  destruct (get_coverage covidcast_signal s metadata) as [coverage|e3] eqn:E3.
  2: { intros [= ->]. by apply (get_coverage_reads_a_date _ _ _ _ E3). }
  destruct (get_coverage_returns _ _ _ _ E3)
    as (d & sig & df & k & Hday & Hfirst & _).
  assert (rows_for_source (source s) metadata ≠ []) as Hrows
    by (intros Hnil; by rewrite Hnil in Hfirst).
  destruct (latest_issue_of_a_source_with_rows _ _ _ Hrows E1) as [i ->].
  assert (day = Date d) as -> by congruence.
  cbn [as_date mbind result_bind mret result_ret]. apply IH.
Qed.

(** ** One update for each signal of a batch *)

Lemma dict_get_None (k : Z) (d : list (Z * Z)) :
  dict_get k d = None ↔ k ∉ d.*1.
Proof.
  induction d as [|[k' v'] d IH]; simpl.
  - split; [intros _; apply not_elem_of_nil|done].
  - rewrite not_elem_of_cons. destruct (decide (k = k')) as [->|Hne].
    + split; [done|]. by intros [? _].
    + rewrite IH. tauto.
Qed.

Lemma dict_get_of_elem (k v : Z) (d : list (Z * Z)) :
  NoDup d.*1 → (k, v) ∈ d → dict_get k d = Some v.
Proof.
  induction d as [|[k' v'] d IH]; simpl; intros Hnd Hin.
  - by apply elem_of_nil in Hin.
  - apply NoDup_cons in Hnd as [Hfresh Hnd].
    apply elem_of_cons in Hin as [[= -> ->]|Hin].
    + by rewrite decide_True.
    + destruct (decide (k = k')) as [->|Hne]; [|by apply IH].
      destruct Hfresh. apply list_elem_of_fmap. by exists (k', v).
Qed.

Lemma dict_update_keys (k v : Z) (d : list (Z * Z)) :
  (dict_update k v d).*1 = if decide (k ∈ d.*1) then d.*1 else d.*1 ++ [k].
Proof.
  induction d as [|[k' v'] d IH]; cbn [dict_update].
  - case_decide as Hin; [by apply elem_of_nil in Hin|done].
  - destruct (decide (k = k')) as [->|Hne]; cbn [fmap list_fmap fst].
    + by rewrite decide_True by left.
    + rewrite IH. clear IH. destruct (decide (k ∈ d.*1)) as [Hin|Hout].
      * rewrite decide_True; [done|by right].
      * rewrite decide_False; [done|]. by apply not_elem_of_cons.
Qed.

Lemma note_date_keys (x : Z * Z) (acc : list (Z * Z)) :
  (note_date acc x).*1
  = if decide (x.1 ∈ acc.*1) then acc.*1 else acc.*1 ++ [x.1].
Proof.
  unfold note_date. destruct (dict_get x.1 acc) as [cur|] eqn:Hget.
  - assert (x.1 ∈ acc.*1) as Hin.
    { apply list_elem_of_fmap. exists (x.1, cur).
      split; [done|by apply dict_get_elem_of]. }
    rewrite (decide_True _ _ Hin). destruct (decide (cur < x.2)); [|done].
    by rewrite dict_update_keys, decide_True.
  - apply dict_get_None in Hget. rewrite (decide_False _ _ Hget).
    by rewrite dict_update_keys, decide_False.
Qed.

Lemma note_dates_keys (entries acc : list (Z * Z)) :
  (NoDup acc.*1 → NoDup (fold_left note_date entries acc).*1) ∧
  (∀ k, k ∈ (fold_left note_date entries acc).*1
        ↔ k ∈ acc.*1 ∨ k ∈ entries.*1).
Proof.
  revert acc. induction entries as [|x entries IH]; intros acc; simpl.
  - split; [done|]. intros k. rewrite elem_of_nil. tauto.
  - destruct (IH (note_date acc x)) as [IH1 IH2]. split.
    + intros Hnd. apply IH1. rewrite note_date_keys.
      destruct (decide (x.1 ∈ acc.*1)); [done|].
      apply NoDup_app. repeat split; [done| |apply NoDup_singleton].
      intros y Hy ->%list_elem_of_singleton. done.
    + intros k. rewrite IH2, note_date_keys, elem_of_cons.
      destruct (decide (x.1 ∈ acc.*1)) as [Hin|Hout].
      * split; [tauto|]. intros [H|[->|H]]; tauto.
      * rewrite elem_of_app, list_elem_of_singleton. tauto.
Qed.

(** X5.  The dictionary that a batch write fills from the
    [(signal_id, date)] of its rows has one entry for each signal id of the
    batch and no other, in the order in which the ids first occur; the
    entry of a signal holds a date of one of its rows that no date of its
    rows exceeds.  So a batch sends one UPDATE of the watermark for each of
    its signals. *)
Theorem latest_dates_one_entry_per_signal (entries : list (Z * Z)) :
  NoDup (latest_dates entries).*1 ∧
  (∀ k, k ∈ (latest_dates entries).*1 ↔ k ∈ entries.*1) ∧
  (∀ k v, (k, v) ∈ latest_dates entries
          ↔ (k, v) ∈ entries ∧ ∀ d, (k, d) ∈ entries → d ≤ v) ∧
  (∀ x, (latest_dates (entries ++ [x])).*1
        = (latest_dates entries).*1
          ++ (if decide (x.1 ∈ entries.*1) then [] else [x.1])).
Proof.
  rewrite latest_dates_fold.
  destruct (note_dates_keys entries []) as [Hnd Hkeys].
  specialize (Hnd (NoDup_nil_2 (A := Z))).
  assert (∀ k, k ∈ (fold_left note_date entries []).*1 ↔ k ∈ entries.*1)
    as Hkeys'.
  { intros k. rewrite Hkeys. simpl. rewrite elem_of_nil. tauto. }
  destruct (note_dates_invariant entries [] []) as [Hsound Hbound].
  { done. }
  { intros k d Hin. by apply elem_of_nil in Hin. }
  simpl in Hsound, Hbound.
  split; [done|]. split; [done|]. split.
  - intros k v. split.
    + intros Hin. split; [by apply Hsound|]. intros d Hd.
      destruct (Hbound k d Hd) as (v' & Hget & Hle).
      rewrite (dict_get_of_elem k v _ Hnd Hin) in Hget. by injection Hget as <-.
    + intros [Hin Hub]. destruct (Hbound k v Hin) as (v' & Hget & Hle).
      apply dict_get_elem_of in Hget.
      assert (v' = v) as -> by (pose proof (Hub v' (Hsound _ Hget)); lia).
      done.
  - intros x. rewrite latest_dates_fold, fold_left_app. simpl.
    rewrite note_date_keys.
    destruct (decide (x.1 ∈ (fold_left note_date entries []).*1)) as [Hin|Hout].
    + rewrite decide_True by (by apply Hkeys'). by rewrite app_nil_r.
    + rewrite decide_False; [done|]. intros Hx. by apply Hout, Hkeys'.
Qed.

(** ** What a batch write leaves alone, whatever fails *)

Section Frame.

Context (R : tables → tables → Prop).
Hypothesis R_refl : ∀ t, R t t.
Hypothesis R_trans : ∀ t1 t2 t3, R t1 t2 → R t2 t3 → R t1 t3.

Lemma keeps_ret {A : Type} (x : A) : keeps R (mret x).
Proof. intros c. apply R_refl. Qed.

Lemma keeps_bind {A B : Type} (m : store A) (f : A → store B) :
  keeps R m → (∀ x, keeps R (f x)) → keeps R (m ≫= f).
Proof.
  intros Hm Hf c. unfold mbind, store_bind. specialize (Hm c).
  destruct (m c) as [[x|e] c']; simpl in *; [|done].
  eapply R_trans; [exact Hm|apply Hf].
Qed.

Lemma keeps_server_call : keeps R server_call.
Proof.
  intros c. unfold server_call.
  destruct (faults c) as [|[msg|] fs]; apply R_refl.
Qed.

Lemma keeps_execute (statement : tables → tables) :
  (∀ t, R t (statement t)) → keeps R (execute statement).
Proof.
  intros Hs. apply keeps_bind; [apply keeps_server_call|].
  intros _ c. apply Hs.
Qed.

Lemma keeps_executemany {A : Type} (statement : A → tables → tables)
    (seq_params : list A) :
  (∀ p t, R t (statement p t)) → keeps R (executemany statement seq_params).
Proof.
  intros Hs. induction seq_params as [|p ps IH]; simpl.
  - apply keeps_ret.
  - apply keeps_bind; [by apply keeps_execute|done].
Qed.

Lemma keeps_executemany_insert {A : Type} (statement : A → tables → tables)
    (seq_params : list A) :
  (∀ p t, R t (statement p t)) →
  keeps R (executemany_insert statement seq_params).
Proof.
  intros Hs. unfold executemany_insert.
  destruct seq_params as [|p0 ps0] eqn:E; [apply keeps_ret|]. rewrite <- E.
  apply keeps_execute. clear E. intros t. revert t.
  induction seq_params as [|p ps IH]; intros t; simpl; [apply R_refl|].
  eapply R_trans; [apply (Hs p)|apply IH].
Qed.

Lemma keeps_commit : keeps R commit.
Proof.
  apply keeps_bind; [apply keeps_server_call|]. intros _ c. apply R_refl.
Qed.

End Frame.

Lemma rows_up_to_refl (get : SignalTable.row → Z)
    (set : Z → SignalTable.row → SignalTable.row)
    (rows : list SignalTable.row) :
  (∀ r, set (get r) r = r) → rows_up_to get set rows rows.
Proof.
  intros set_get. apply Forall_Forall2_diag, Forall_forall.
  intros r _. by rewrite set_get.
Qed.

Lemma rows_up_to_trans (get : SignalTable.row → Z)
    (set : Z → SignalTable.row → SignalTable.row)
    (rows1 rows2 rows3 : list SignalTable.row) :
  (∀ v w r, set v (set w r) = set v r) →
  rows_up_to get set rows1 rows2 → rows_up_to get set rows2 rows3 →
  rows_up_to get set rows1 rows3.
Proof.
  intros set_set. apply Forall2_trans. intros r1 r2 r3 H12 H23.
  transitivity (set (get r3) r2); [exact H23|]. by rewrite H12, set_set.
Qed.

Lemma status_write_frame_refl (t : tables) : status_write_frame t t.
Proof.
  split; [done|]. apply rows_up_to_refl. apply set_status_laws.
Qed.

Lemma status_write_frame_trans (t1 t2 t3 : tables) :
  status_write_frame t1 t2 → status_write_frame t2 t3 →
  status_write_frame t1 t3.
Proof.
  intros [C12 R12] [C23 R23]. split; [congruence|].
  eapply rows_up_to_trans; [apply set_status_laws|done|done].
Qed.

Lemma coverage_write_frame_refl (t : tables) : coverage_write_frame t t.
Proof.
  split; [done|]. apply rows_up_to_refl. apply set_coverage_laws.
Qed.

Lemma coverage_write_frame_trans (t1 t2 t3 : tables) :
  coverage_write_frame t1 t2 → coverage_write_frame t2 t3 →
  coverage_write_frame t1 t3.
Proof.
  intros [C12 R12] [C23 R23]. split; [congruence|].
  eapply rows_up_to_trans; [apply set_coverage_laws|done|done].
Qed.

Lemma committed_after_batch_write (inserts updates : store ())
    (c : connection) :
  keeps_committed inserts → keeps_committed updates →
  let c' := ((_ ← inserts; _ ← updates; commit) c).2 in
  committed c' = committed c ∨ committed c' = working c'.
Proof.
  intros Hins Hupd. unfold mbind, store_bind.
  specialize (Hins c). destruct (inserts c) as [[[]|e1] c1]; simpl in *;
    [|by left].
  specialize (Hupd c1). destruct (updates c1) as [[[]|e2] c2]; simpl in *;
    [|left; congruence].
  unfold commit, mbind, store_bind.
  pose proof (keeps_committed_server_call c2) as Hcall.
  destruct (server_call c2) as [[[]|e3] c3]; simpl in *;
    [by right|left; congruence].
Qed.

(** X6.  Whatever fails, a [write_status] leaves the coverage table of the
    transaction as it was and leaves [dashboard_signal] with the same rows
    in the same order, changed in no column but [latest_status_update]; the
    committed tables afterwards are those committed before or those of the
    transaction. *)
Theorem write_status_frame
    (status_list : list DashboardSignalStatus) (c : connection) :
  let c' := (Database.write_status status_list c).2 in
  dashboard_signal_coverage (working c')
    = dashboard_signal_coverage (working c) ∧
  Forall2 (λ r r', r' = set_latest_status_update
                          (SignalTable.latest_status_update r') r)
          (dashboard_signal (working c)) (dashboard_signal (working c')) ∧
  (committed c' = committed c ∨ committed c' = working c').
Proof.
  assert (keeps status_write_frame (Database.write_status status_list))
    as Hkeeps.
  { unfold Database.write_status.
    apply (keeps_bind _ status_write_frame_trans);
      [|intros _; apply (keeps_bind _ status_write_frame_trans)].
    - apply (keeps_executemany_insert _ status_write_frame_refl
               status_write_frame_trans).
      intros [[[k d] li] ltv] t. split; [done|]. simpl.
      apply rows_up_to_refl, set_status_laws.
    - apply (keeps_executemany _ status_write_frame_refl
               status_write_frame_trans).
      intros p t. split; [done|]. simpl.
      apply Forall2_fmap_r, Forall_Forall2_diag, Forall_forall.
      intros r _. simpl. destruct (decide (SignalTable.id r = p.2)); [done|].
      by destruct r.
    - intros _. apply (keeps_commit _ status_write_frame_refl
                         status_write_frame_trans). }
  destruct (Hkeeps c) as [Hcov Hrows]. repeat split; try done.
  apply (committed_after_batch_write
           (executemany_insert insert_status _)
           (executemany update_latest_status _)).
  - apply keeps_committed_executemany_insert.
  - apply keeps_committed_executemany.
Qed.

(** X7.  Whatever fails, a [write_coverage] leaves the status table of the
    transaction as it was and leaves [dashboard_signal] with the same rows
    in the same order, changed in no column but [latest_coverage_update];
    the committed tables afterwards are those committed before or those of
    the transaction. *)
Theorem write_coverage_frame
    (coverage_list : list DashboardSignalCoverage) (c : connection) :
  let c' := (Database.write_coverage coverage_list c).2 in
  dashboard_signal_status (working c') = dashboard_signal_status (working c) ∧
  Forall2 (λ r r', r' = set_latest_coverage_update
                          (SignalTable.latest_coverage_update r') r)
          (dashboard_signal (working c)) (dashboard_signal (working c')) ∧
  (committed c' = committed c ∨ committed c' = working c').
Proof.
  assert (keeps coverage_write_frame (Database.write_coverage coverage_list))
    as Hkeeps.
  { unfold Database.write_coverage.
    apply (keeps_bind _ coverage_write_frame_trans);
      [|intros _; apply (keeps_bind _ coverage_write_frame_trans)].
    - apply (keeps_executemany_insert _ coverage_write_frame_refl
               coverage_write_frame_trans).
      intros [[[k d] g] n] t. split; [done|]. simpl.
      apply rows_up_to_refl, set_coverage_laws.
    - apply (keeps_executemany _ coverage_write_frame_refl
               coverage_write_frame_trans).
      intros p t. split; [done|]. simpl.
      apply Forall2_fmap_r, Forall_Forall2_diag, Forall_forall.
      intros r _. simpl. destruct (decide (SignalTable.id r = p.2)); [done|].
      by destruct r.
    - intros _. apply (keeps_commit _ coverage_write_frame_refl
                         coverage_write_frame_trans). }
  destruct (Hkeeps c) as [Hcov Hrows]. repeat split; try done.
  apply (committed_after_batch_write
           (executemany_insert insert_coverage _)
           (executemany update_latest_coverage _)).
  - apply keeps_committed_executemany_insert.
  - apply keeps_committed_executemany.
Qed.

(** ** Writing a coverage batch again *)

Section InsertNewAgain.

Context {K V A : Type} `{Countable K} (key : A → K) (value : A → V).

Lemma insert_new_all_is_Some (rows : list A) (m : gmap K V) (k : K) :
  is_Some (insert_new_all key value rows m !! k)
  ↔ is_Some (m !! k) ∨ ∃ x, x ∈ rows ∧ key x = k.
Proof.
  revert m. induction rows as [|x rows IH]; intros m.
  - simpl. split; [by left|]. intros [Hm|(x & Hx & _)]; [done|].
    by apply elem_of_nil in Hx.
  - unfold insert_new_all in *. cbn [fold_left]. rewrite IH.
    destruct (decide (key x = k)) as [<-|Hne].
    + destruct (m !! key x) as [v|] eqn:Hx.
      * rewrite Hx. split; [intros _; left; by eexists|].
        intros _. left. by eexists.
      * rewrite lookup_insert_eq. split.
        -- intros _. right. exists x. split; [left|done].
        -- intros _. left. by eexists.
    + assert (match m !! key x with
              | Some _ => m
              | None => <[key x:=value x]> m
              end !! k = m !! k) as ->.
      { destruct (m !! key x); [done|]. by rewrite lookup_insert_ne. }
      split.
      * intros [Hm|(y & Hy & Hkey)]; [by left|right].
        exists y. split; [by right|done].
      * intros [Hm|(y & [->|Hy]%elem_of_cons & Hkey)];
          [by left|done|right; by exists y].
Qed.

Lemma insert_new_all_present (rows : list A) (m : gmap K V) :
  (∀ x, x ∈ rows → is_Some (m !! key x)) →
  insert_new_all key value rows m = m.
Proof.
  induction rows as [|x rows IH]; intros Hall; [done|].
  unfold insert_new_all in *. cbn [fold_left].
  destruct (Hall x (list_elem_of_here _ _)) as [v ->].
  apply IH. intros y Hy. apply Hall. by right.
Qed.

Lemma insert_new_all_idem (rows : list A) (m : gmap K V) :
  insert_new_all key value rows (insert_new_all key value rows m)
  = insert_new_all key value rows m.
Proof.
  apply insert_new_all_present. intros x Hx.
  apply insert_new_all_is_Some. right. by exists x.
Qed.

Lemma insert_new_all_app (rows1 rows2 : list A) (m : gmap K V) :
  insert_new_all key value (rows1 ++ rows2) m
  = insert_new_all key value rows2 (insert_new_all key value rows1 m).
Proof. unfold insert_new_all. apply fold_left_app. Qed.

Lemma upsert_all_app (rows1 rows2 : list A) (m : gmap K V) :
  upsert_all key value (rows1 ++ rows2) m
  = upsert_all key value rows2 (upsert_all key value rows1 m).
Proof. unfold upsert_all. apply fold_left_app. Qed.

End InsertNewAgain.

Lemma coverage_written_status (coverage_list : list DashboardSignalCoverage)
    (t : tables) :
  dashboard_signal_status (coverage_written coverage_list t)
  = dashboard_signal_status t.
Proof.
  unfold coverage_written.
  destruct (update_latest_coverage_fold
              ((λ kv, (kv.2, kv.1)) <$>
                 latest_dates
                   ((λ x, (cov_signal_id x, cov_date x)) <$> coverage_list))
              (fold_left (λ t p, insert_coverage p t)
                 ((λ x, (cov_signal_id x, cov_date x, geo_type x, count x))
                    <$> coverage_list) t))
    as (_ & -> & _).
  by destruct (insert_coverage_frame
                 ((λ x, (cov_signal_id x, cov_date x, geo_type x, count x))
                    <$> coverage_list) t) as (_ & ->).
Qed.

Lemma coverage_written_idem (coverage_list : list DashboardSignalCoverage)
    (t : tables) :
  coverage_written coverage_list (coverage_written coverage_list t)
  = coverage_written coverage_list t.
Proof.
  destruct set_coverage_laws as (Hgs & Hss & Hsg & Hid).
  apply tables_eq.
  - rewrite !dashboard_signal_coverage_written, <- list_fmap_compose.
    apply list_fmap_ext. intros i r _. simpl. by apply raised_idem.
  - by rewrite !coverage_written_status.
  - rewrite !coverage_written_coverage. apply insert_new_all_idem.
Qed.

(** X8.  When no statement fails, a second [write_coverage] of the same
    batch returns as the first did and leaves all the tables, committed and
    in the transaction, as the first left them; the coverage table then has
    a row for each key [(signal_id, date, geo_type)] that it had before or
    that the batch holds, and for no other. *)
Theorem write_coverage_twice
    (coverage_list : list DashboardSignalCoverage) (c : connection) :
  quiet c →
  let once := (Database.write_coverage coverage_list c).2 in
  let twice := (Database.write_coverage coverage_list once).2 in
  (Database.write_coverage coverage_list c).1 = Return () ∧
  (Database.write_coverage coverage_list once).1 = Return () ∧
  working twice = working once ∧
  committed twice = committed once ∧
  committed once = working once ∧
  (∀ k, is_Some (dashboard_signal_coverage (committed twice) !! k)
        ↔ is_Some (dashboard_signal_coverage (working c) !! k) ∨
          ∃ x, x ∈ coverage_list ∧ coverage_key x = k).
Proof.
  intros Hc once twice. unfold twice, once.
  destruct (succeeds_write_coverage coverage_list c Hc)
    as ([] & c1 & E1 & W1 & C1 & Q1).
  rewrite E1. cbn [fst snd].
  destruct (succeeds_write_coverage coverage_list c1 Q1)
    as ([] & c2 & E2 & W2 & C2 & Q2).
  rewrite E2. cbn [fst snd].
  rewrite C2, W2, C1, W1, coverage_written_idem.
  repeat split; try done.
  - rewrite coverage_written_coverage. by apply insert_new_all_is_Some.
  - rewrite coverage_written_coverage. by apply insert_new_all_is_Some.
Qed.

Lemma write_coverage_twice_witness :
  working
    (Database.write_coverage [example_coverage 3; example_coverage 5]
       (Database.write_coverage [example_coverage 3; example_coverage 5]
          (example_connection [None; None; None])).2).2
  = working
      (Database.write_coverage [example_coverage 3; example_coverage 5]
         (example_connection [None; None; None])).2.
Proof.
  destruct (write_coverage_twice [example_coverage 3; example_coverage 5]
              (example_connection [None; None; None])
              ltac:(repeat constructor))
    as (_ & _ & Hsame & _).
  exact Hsame.
Defined.

(** ** One batch or several, status first or coverage first *)

Lemma status_written_app (batch1 batch2 : list DashboardSignalStatus)
    (t : tables) :
  status_written (batch1 ++ batch2) t
  = status_written batch2 (status_written batch1 t).
Proof.
  destruct set_status_laws as (Hgs & Hss & Hsg & Hid).
  apply tables_eq.
  - rewrite !dashboard_signal_status_written, <- list_fmap_compose, fmap_app.
    apply list_fmap_ext. intros i r _. simpl. symmetry. by apply raised_app.
  - destruct (status_written_status (batch1 ++ batch2) t) as [-> _].
    destruct (status_written_status batch2 (status_written batch1 t))
      as [-> _].
    destruct (status_written_status batch1 t) as [-> _].
    apply upsert_all_app.
  - destruct (status_written_status (batch1 ++ batch2) t) as [_ ->].
    destruct (status_written_status batch2 (status_written batch1 t))
      as [_ ->].
    by destruct (status_written_status batch1 t) as [_ ->].
Qed.

Lemma coverage_written_app (batch1 batch2 : list DashboardSignalCoverage)
    (t : tables) :
  coverage_written (batch1 ++ batch2) t
  = coverage_written batch2 (coverage_written batch1 t).
Proof.
  destruct set_coverage_laws as (Hgs & Hss & Hsg & Hid).
  apply tables_eq.
  - rewrite !dashboard_signal_coverage_written, <- list_fmap_compose, fmap_app.
    apply list_fmap_ext. intros i r _. simpl. symmetry. by apply raised_app.
  - by rewrite !coverage_written_status.
  - rewrite !coverage_written_coverage. apply insert_new_all_app.
Qed.

Lemma written_commute (status_list : list DashboardSignalStatus)
    (coverage_list : list DashboardSignalCoverage) (t : tables) :
  coverage_written coverage_list (status_written status_list t)
  = status_written status_list (coverage_written coverage_list t).
Proof.
  apply tables_eq.
  - rewrite dashboard_signal_coverage_written, dashboard_signal_status_written,
      dashboard_signal_status_written, dashboard_signal_coverage_written,
      <- !list_fmap_compose.
    apply list_fmap_ext. intros i r _. by destruct r.
  - rewrite coverage_written_status.
    destruct (status_written_status status_list
                (coverage_written coverage_list t)) as [-> _].
    destruct (status_written_status status_list t) as [-> _].
    by rewrite coverage_written_status.
  - rewrite !coverage_written_coverage.
    destruct (status_written_status status_list
                (coverage_written coverage_list t)) as [_ ->].
    destruct (status_written_status status_list t) as [_ ->].
    by rewrite coverage_written_coverage.
Qed.

(** X9.  When no statement fails, writing two status batches one after the
    other leaves the tables that writing them as one batch leaves, and so
    for two coverage batches. *)
Theorem batches_may_be_split
    (status1 status2 : list DashboardSignalStatus)
    (coverage1 coverage2 : list DashboardSignalCoverage) (c : connection) :
  quiet c →
  let status_split :=
    (Database.write_status status2 (Database.write_status status1 c).2).2 in
  let status_joined := (Database.write_status (status1 ++ status2) c).2 in
  let coverage_split :=
    (Database.write_coverage coverage2
       (Database.write_coverage coverage1 c).2).2 in
  let coverage_joined :=
    (Database.write_coverage (coverage1 ++ coverage2) c).2 in
  working status_split = working status_joined ∧
  committed status_split = committed status_joined ∧
  working coverage_split = working coverage_joined ∧
  committed coverage_split = committed coverage_joined.
Proof.
  intros Hc. cbv zeta.
  destruct (succeeds_write_status status1 c Hc)
    as ([] & s1 & Es1 & Ws1 & Cs1 & Qs1).
  destruct (succeeds_write_status status2 s1 Qs1)
    as ([] & s2 & Es2 & Ws2 & Cs2 & Qs2).
  destruct (succeeds_write_status (status1 ++ status2) c Hc)
    as ([] & s12 & Es12 & Ws12 & Cs12 & Qs12).
  destruct (succeeds_write_coverage coverage1 c Hc)
    as ([] & v1 & Ev1 & Wv1 & Cv1 & Qv1).
  destruct (succeeds_write_coverage coverage2 v1 Qv1)
    as ([] & v2 & Ev2 & Wv2 & Cv2 & Qv2).
  destruct (succeeds_write_coverage (coverage1 ++ coverage2) c Hc)
    as ([] & v12 & Ev12 & Wv12 & Cv12 & Qv12).
  rewrite Es1. cbn [snd]. rewrite Es2, Es12. cbn [snd].
  rewrite Ev1. cbn [snd]. rewrite Ev2, Ev12. cbn [snd].
  rewrite Ws2, Cs2, Ws1, Ws12, Cs12, Wv2, Cv2, Wv1, Wv12, Cv12.
  by rewrite status_written_app, coverage_written_app.
Qed.

(** X10.  When no statement fails, [write_status] and then [write_coverage],
    the order of [main], leaves the tables that [write_coverage] and then
    [write_status] leaves: the two writes do not read what the other
    writes. *)
Theorem status_and_coverage_writes_commute
    (status_list : list DashboardSignalStatus)
    (coverage_list : list DashboardSignalCoverage) (c : connection) :
  quiet c →
  let status_first :=
    (Database.write_coverage coverage_list
       (Database.write_status status_list c).2).2 in
  let coverage_first :=
    (Database.write_status status_list
       (Database.write_coverage coverage_list c).2).2 in
  working status_first = working coverage_first ∧
  committed status_first = committed coverage_first.
Proof.
  intros Hc. cbv zeta.
  destruct (succeeds_write_status status_list c Hc)
    as ([] & s1 & Es1 & Ws1 & Cs1 & Qs1).
  destruct (succeeds_write_coverage coverage_list s1 Qs1)
    as ([] & s2 & Es2 & Ws2 & Cs2 & Qs2).
  destruct (succeeds_write_coverage coverage_list c Hc)
    as ([] & v1 & Ev1 & Wv1 & Cv1 & Qv1).
  destruct (succeeds_write_status status_list v1 Qv1)
    as ([] & v2 & Ev2 & Wv2 & Cv2 & Qv2).
  rewrite Es1. cbn [snd]. rewrite Es2. cbn [snd].
  rewrite Ev1. cbn [snd]. rewrite Ev2. cbn [snd].
  rewrite Ws2, Cs2, Ws1, Wv2, Cv2, Wv1.
  by rewrite written_commute.
Qed.

Lemma batches_may_be_split_witness :
  working
    (Database.write_status [example_status (ymd2ord 2023 1 7) 0]
       (Database.write_status [example_status (ymd2ord 2023 1 6) 0]
          (example_connection [])).2).2
  = working
      (Database.write_status
         ([example_status (ymd2ord 2023 1 6) 0]
          ++ [example_status (ymd2ord 2023 1 7) 0])
         (example_connection [])).2.
Proof.
  destruct (batches_may_be_split
              [example_status (ymd2ord 2023 1 6) 0]
              [example_status (ymd2ord 2023 1 7) 0]
              [example_coverage 3] [example_coverage 5]
              (example_connection []) (Forall_nil_2 _))
    as (Hsame & _).
  exact Hsame.
Defined.

Lemma status_and_coverage_writes_commute_witness :
  committed
    (Database.write_coverage [example_coverage 3]
       (Database.write_status [example_status (ymd2ord 2023 1 6) 0]
          (example_connection [])).2).2
  = committed
      (Database.write_status [example_status (ymd2ord 2023 1 6) 0]
         (Database.write_coverage [example_coverage 3]
            (example_connection [])).2).2.
Proof.
  destruct (status_and_coverage_writes_commute
              [example_status (ymd2ord 2023 1 6) 0] [example_coverage 3]
              (example_connection []) (Forall_nil_2 _))
    as (_ & Hsame).
  exact Hsame.
Defined.

(** ** The watermarks cover the rows *)

Lemma watermarks_cover_status_written
    (status_list : list DashboardSignalStatus) (t : tables) :
  watermarks_cover t → watermarks_cover (status_written status_list t).
Proof.
  intros [Hstatus Hcoverage].
  destruct (status_written_status status_list t) as [Estatus Ecoverage].
  split.
  - intros k d v r' Hrow Hr' Hid.
    rewrite dashboard_signal_status_written in Hr'.
    apply list_elem_of_fmap in Hr' as (r & -> & Hr).
    destruct (raised_is_maximum SignalTable.latest_status_update
                set_latest_status_update (status_key <$> status_list) r)
      as (Hge & Hub & _); [done|].
    assert (SignalTable.id r = k) as Hidr by done.
    destruct (decide ((k, d) ∈ status_key <$> status_list)) as [Hin|Hout].
    + apply Hub. by rewrite Hidr.
    + rewrite Estatus in Hrow.
      rewrite upsert_all_other in Hrow.
      * pose proof (Hstatus k d v r Hrow Hr Hidr). cbv zeta in Hge. lia.
      * intros x Hx Hkey. apply Hout, list_elem_of_fmap. by exists x.
  - intros k d g n r' Hrow Hr' Hid.
    rewrite dashboard_signal_status_written in Hr'.
    apply list_elem_of_fmap in Hr' as (r & -> & Hr).
    rewrite Ecoverage in Hrow.
    by apply (Hcoverage k d g n r).
Qed.

Lemma watermarks_cover_coverage_written
    (coverage_list : list DashboardSignalCoverage) (t : tables) :
  watermarks_cover t → watermarks_cover (coverage_written coverage_list t).
Proof.
  intros [Hstatus Hcoverage]. split.
  - intros k d v r' Hrow Hr' Hid.
    rewrite dashboard_signal_coverage_written in Hr'.
    apply list_elem_of_fmap in Hr' as (r & -> & Hr).
    rewrite coverage_written_status in Hrow.
    by apply (Hstatus k d v r).
  - intros k d g n r' Hrow Hr' Hid.
    rewrite dashboard_signal_coverage_written in Hr'.
    apply list_elem_of_fmap in Hr' as (r & -> & Hr).
    destruct (raised_is_maximum SignalTable.latest_coverage_update
                set_latest_coverage_update
                ((λ x, (cov_signal_id x, cov_date x)) <$> coverage_list) r)
      as (Hge & Hub & _); [done|].
    assert (SignalTable.id r = k) as Hidr by done.
    destruct (decide ((k, d, g) ∈ coverage_key <$> coverage_list))
      as [Hin|Hout].
    + apply Hub. rewrite Hidr.
      apply list_elem_of_fmap in Hin as (x & Hkey & Hx).
      apply list_elem_of_fmap. exists x. split; [|done].
      unfold coverage_key in Hkey. by injection Hkey as -> -> _.
    + rewrite coverage_written_coverage in Hrow.
      rewrite insert_new_all_other in Hrow.
      * pose proof (Hcoverage k d g n r Hrow Hr Hidr). cbv zeta in Hge. lia.
      * intros x Hx Hkey. apply Hout, list_elem_of_fmap. by exists x.
Qed.

(** X11.  If, in the tables of the transaction, no row of the status table
    is dated later than the [latest_status_update] of its signal and no row
    of the coverage table later than its [latest_coverage_update], then this
    is so again, in the transaction and in the committed tables, after a
    [write_status] and after a [write_coverage] in which no statement
    fails. *)
Theorem writes_keep_watermarks_covering
    (status_list : list DashboardSignalStatus)
    (coverage_list : list DashboardSignalCoverage) (c : connection) :
  quiet c →
  watermarks_cover (working c) →
  watermarks_cover (working (Database.write_status status_list c).2) ∧
  watermarks_cover (committed (Database.write_status status_list c).2) ∧
  watermarks_cover (working (Database.write_coverage coverage_list c).2) ∧
  watermarks_cover (committed (Database.write_coverage coverage_list c).2).
Proof.
  intros Hc Hcover.
  destruct (succeeds_write_status status_list c Hc)
    as ([] & s1 & Es & Ws & Cs & _).
  destruct (succeeds_write_coverage coverage_list c Hc)
    as ([] & v1 & Ev & Wv & Cv & _).
  rewrite Es, Ev. cbn [snd]. rewrite Ws, Cs, Wv, Cv.
  repeat split;
    (by apply watermarks_cover_status_written)
    || (by apply watermarks_cover_coverage_written).
Qed.

Lemma writes_keep_watermarks_covering_witness :
  watermarks_cover
    (committed
       (Database.write_status
          [example_status (ymd2ord 2023 1 6) (ymd2ord 2023 1 5)]
          (example_connection [])).2).
Proof.
  destruct (writes_keep_watermarks_covering
              [example_status (ymd2ord 2023 1 6) (ymd2ord 2023 1 5)]
              [example_coverage 3] (example_connection []))
    as (_ & Hcommitted & _).
  - apply Forall_nil_2.
  - split.
    + intros k d v r Hrow. change ((∅ : gmap (Z * Z) (Z * Z)) !! (k, d) = Some v) in Hrow.
      by rewrite lookup_empty in Hrow.
    + intros k d g n r Hrow. change ((∅ : gmap (Z * Z * string) Z) !! (k, d, g) = Some n) in Hrow.
      by rewrite lookup_empty in Hrow.
  - exact Hcommitted.
Defined.

(** ** A failure between the insert and the commit *)

Lemma store_bind_unfold {A B : Type} (m : store A) (f : A → store B)
    (c : connection) :
  (m ≫= f) c
  = match m c with
    | (Return x, c') => f x c'
    | (Raise e, c') => (Raise e, c')
    end.
Proof. reflexivity. Qed.

Lemma execute_passes (statement : tables → tables) (c : connection)
    (fs : list (option string)) :
  faults c = None :: fs →
  execute statement c
  = (Return (),
     {| committed := committed c; working := statement (working c);
        faults := fs |}).
Proof.
  intros Hf. unfold execute. rewrite store_bind_unfold.
  unfold server_call. by rewrite Hf.
Qed.

Lemma execute_fails (statement : tables → tables) (c : connection)
    (msg : string) (fs : list (option string)) :
  faults c = Some msg :: fs →
  execute statement c
  = (Raise (MySQLError msg),
     {| committed := committed c; working := working c; faults := fs |}).
Proof.
  intros Hf. unfold execute. rewrite store_bind_unfold.
  unfold server_call. by rewrite Hf.
Qed.

Lemma latest_dates_nonempty (entries : list (Z * Z)) :
  entries ≠ [] → latest_dates entries ≠ [].
Proof.
  destruct entries as [|x entries]; [done|]. intros _ Hnil.
  destruct (note_dates_keys (x :: entries) []) as [_ Hkeys].
  assert (x.1 ∈ (latest_dates (x :: entries)).*1) as Hin
    by (rewrite latest_dates_fold; apply Hkeys; right; left).
  rewrite Hnil in Hin. by apply elem_of_nil in Hin.
Qed.

(** X12.  No failure is followed by a rollback.  When the INSERT of a
    [write_status] of a non-empty batch passes and its first UPDATE of a
    watermark raises, [write_status] raises with nothing committed and the
    inserted rows still in the transaction; if no later statement fails,
    the commit of the [write_coverage] that follows makes these status rows
    durable, with every [latest_status_update] as it was before. *)
Theorem failed_write_is_committed_by_next_write
    (status_list : list DashboardSignalStatus)
    (coverage_list : list DashboardSignalCoverage) (c : connection)
    (msg : string) (later : list (option string)) :
  status_list ≠ [] →
  faults c = None :: Some msg :: later →
  Forall (λ fault, fault = None) later →
  let failed := Database.write_status status_list c in
  let next := Database.write_coverage coverage_list failed.2 in
  failed.1 = Raise (MySQLError msg) ∧
  committed failed.2 = committed c ∧
  next.1 = Return () ∧
  dashboard_signal_status (committed next.2)
    = upsert_all status_key (λ x, (latest_issue x, latest_time_value x))
        status_list (dashboard_signal_status (working c)) ∧
  Forall2 (λ r r', SignalTable.latest_status_update r'
                   = SignalTable.latest_status_update r)
          (dashboard_signal (working c))
          (dashboard_signal (committed next.2)).
Proof.
  intros Hne Hfaults Hlater.
  assert (Database.write_status status_list c
          = (Raise (MySQLError msg),
             {| committed := committed c;
                working :=
                  fold_left (λ t p, insert_status p t)
                    ((λ x, (signal_id x, date_ x, latest_issue x,
                            latest_time_value x)) <$> status_list)
                    (working c);
                faults := later |})) as Efailed.
  { unfold Database.write_status. rewrite store_bind_unfold.
    unfold executemany_insert.
    destruct status_list as [|x xs] eqn:E; [done|]. rewrite <- E.
    assert (status_list ≠ []) as Hne' by (by rewrite E).
    replace (match
                (λ x0, (signal_id x0, date_ x0, latest_issue x0,
                        latest_time_value x0)) <$> status_list
              with
              | [] => mret ()
              | _ :: _ =>
                  execute
                    (λ t, fold_left (λ t0 p, insert_status p t0)
                            ((λ x0, (signal_id x0, date_ x0, latest_issue x0,
                                     latest_time_value x0)) <$> status_list) t)
              end)
      with (execute
              (λ t, fold_left (λ t0 p, insert_status p t0)
                      ((λ x0, (signal_id x0, date_ x0, latest_issue x0,
                               latest_time_value x0)) <$> status_list) t))
      by (by rewrite E).
    rewrite (execute_passes _ c (Some msg :: later) Hfaults).
    rewrite store_bind_unfold.
    pose proof (latest_dates_nonempty
                  ((λ x, (signal_id x, date_ x)) <$> status_list)) as Hlatest.
    destruct (latest_dates ((λ x, (signal_id x, date_ x)) <$> status_list))
      as [|kv latest]; [destruct Hlatest; [by rewrite E|done]|].
    cbn [fmap list_fmap executemany]. rewrite store_bind_unfold.
    by rewrite (execute_fails _ _ msg later). }
  cbv zeta. rewrite Efailed. cbn [fst snd].
  destruct (succeeds_write_coverage coverage_list
              {| committed := committed c;
                 working :=
                   fold_left (λ t p, insert_status p t)
                     ((λ x, (signal_id x, date_ x, latest_issue x,
                             latest_time_value x)) <$> status_list)
                     (working c);
                 faults := later |} Hlater)
    as ([] & c2 & E2 & W2 & C2 & Q2).
  rewrite E2. cbn [fst snd working committed] in *. rewrite C2.
  destruct (insert_status_frame
              ((λ x, (signal_id x, date_ x, latest_issue x,
                      latest_time_value x)) <$> status_list) (working c))
    as (Hrows & _ & Hstatus).
  repeat split; try done.
  - rewrite coverage_written_status, Hstatus. unfold upsert_all.
    generalize (dashboard_signal_status (working c)).
    clear. induction status_list as [|x xs IH]; intros m; [done|].
    simpl. apply IH.
  - rewrite dashboard_signal_coverage_written, Hrows.
    apply Forall2_fmap_r, Forall_Forall2_diag, Forall_forall.
    intros r _. by destruct r.
Qed.

Lemma failed_write_is_committed_by_next_write_witness :
  dashboard_signal_status
    (committed
       (Database.write_coverage [example_coverage 3]
          (Database.write_status
             [example_status (ymd2ord 2023 1 6) (ymd2ord 2023 1 5)]
             (example_connection [None; Some "boom"])).2).2)
  = upsert_all status_key (λ x, (latest_issue x, latest_time_value x))
      [example_status (ymd2ord 2023 1 6) (ymd2ord 2023 1 5)] ∅.
Proof.
  destruct (failed_write_is_committed_by_next_write
              [example_status (ymd2ord 2023 1 6) (ymd2ord 2023 1 5)]
              [example_coverage 3]
              (example_connection [None; Some "boom"]) "boom" [])
    as (_ & _ & _ & Hstatus & _).
  - discriminate.
  - reflexivity.
  - apply Forall_nil_2.
  - exact Hstatus.
Defined.

(** ** The loop and the outcome of a run *)

Section Outcome.

Context (covidcast_signal :
           string → string → Z → Z → option (list TimeSeries.row))
        (covidcast_metadata : result (list Metadata.row))
        (today : Z).



(** X14.  [main] returns nothing but [True]: the exit status is 0 exactly
    when [main] returns, and 1 exactly when an exception leaves [main]; the
    exit on a false result of [main] is never taken. *)
Theorem main_returns_only_true (args : option Namespace) (w : world) :
  (∀ b w', main covidcast_signal covidcast_metadata today args w
           = (Return b, w') → b = true) ∧
  ((exit_status covidcast_signal covidcast_metadata today args w).1 = 0
   ↔ ∃ w', main covidcast_signal covidcast_metadata today args w
           = (Return true, w')) ∧
  ((exit_status covidcast_signal covidcast_metadata today args w).1 = 1
   ↔ ∃ e w', main covidcast_signal covidcast_metadata today args w
             = (Raise e, w')).
Proof.
  assert (∀ b w', main covidcast_signal covidcast_metadata today args w
                  = (Return b, w') → b = true) as Htrue.
  { intros b w' H. unfold main in H. rewrite run_bind_unfold in H.
    destruct (on_database Database.init w) as [[[]|e1] w1]; [|discriminate].
    rewrite run_bind_unfold in H.
    destruct (on_database Database.get_enabled_signals w1)
      as [[signals|e2] w2]; [|discriminate].
    rewrite run_bind_unfold in H. unfold logger_info at 1 in H.
    rewrite run_bind_unfold in H. unfold computed at 1 in H.
    destruct covidcast_metadata as [metadata|e3]; [|discriminate].
    rewrite run_bind_unfold in H. unfold computed at 1 in H.
    destruct (generate covidcast_signal today metadata signals [] [])
      as [[status coverage]|e4]; [|discriminate].
    rewrite run_bind_unfold, try_except_write in H
      by apply raises_mysql_only_write_status.
    rewrite run_bind_unfold, try_except_write in H
      by apply raises_mysql_only_write_coverage.
    rewrite run_bind_unfold in H. unfold logger_info, mret, run_ret in H.
    by injection H as <- _. }
  split; [done|]. unfold exit_status.
  destruct (main covidcast_signal covidcast_metadata today args w)
    as [[b|e] w'] eqn:E.
  - rewrite (Htrue b w' eq_refl). simpl. split; split; try done.
    + intros _. by exists w'.
    + intros (e & w'' & [=]).
  - simpl. split; split; try done.
    + intros (w'' & [=]).
    + intros _. by exists e, w'.
Qed.

Lemma get_enabled_signals_returns (c c' : connection)
    (signals : list DashboardSignal) :
  Database.get_enabled_signals c = (Return signals, c') →
  signals = enabled_signals (working c).
Proof.
  unfold Database.get_enabled_signals. rewrite store_bind_unfold.
  destruct (server_call c) as [[[]|e] c1] eqn:E; [|discriminate].
  apply server_call_tables in E as [Hw _].
  rewrite store_bind_unfold. unfold read_transaction, mret, store_ret.
  intros [= <- <-]. by rewrite Hw.
Qed.


Lemma write_status_nil (c : connection) : Database.write_status [] c = commit c.
Proof. reflexivity. Qed.

Lemma write_coverage_nil (c : connection) :
  Database.write_coverage [] c = commit c.
Proof. reflexivity. Qed.

Lemma commit_tables (c : connection) :
  working (commit c).2 = working c ∧
  (committed (commit c).2 = committed c ∨ committed (commit c).2 = working c).
Proof.
  unfold commit. rewrite store_bind_unfold.
  destruct (server_call c) as [[[]|e] c1] eqn:E;
    apply server_call_tables in E as [Hw Hc]; simpl.
  - split; [done|]. by right.
  - split; [done|]. by left.
Qed.

(** X15.  When opening the connection, the SELECT of the enabled signals or
    the fetch of the metadata raises, that exception leaves [main]: the
    tables are as they were, and the log has no record, or only the record
    of the start when it is the fetch of the metadata that raised. *)
Theorem failure_before_the_loop_aborts_run
    (args : option Namespace) (w : world) (e : exn) :
  (∀ c1, Database.init (conn w) = (Raise e, c1) →
         main covidcast_signal covidcast_metadata today args w
           = (Raise e, {| conn := c1; log := log w |}) ∧
         working c1 = working (conn w) ∧ committed c1 = committed (conn w)) ∧
  (∀ c1 c2,
      Database.init (conn w) = (Return (), c1) →
      Database.get_enabled_signals c1 = (Raise e, c2) →
      main covidcast_signal covidcast_metadata today args w
        = (Raise e, {| conn := c2; log := log w |}) ∧
      working c2 = working (conn w) ∧ committed c2 = committed (conn w)) ∧
  (∀ c1 c2 signals_to_generate,
      Database.init (conn w) = (Return (), c1) →
      Database.get_enabled_signals c1 = (Return signals_to_generate, c2) →
      covidcast_metadata = Raise e →
      main covidcast_signal covidcast_metadata today args w
        = (Raise e,
           {| conn := c2;
              log := log w ++ [LogInfo "Starting generating dashboard data."]
           |}) ∧
      working c2 = working (conn w) ∧ committed c2 = committed (conn w)).
Proof.
  split; [|split].
  - intros c1 Hinit. destruct (init_tables _ _ _ Hinit) as [Hw Hc].
    split; [|done]. unfold main. rewrite run_bind_unfold.
    unfold on_database at 1. by rewrite Hinit.
  - intros c1 c2 Hinit Hselect.
    destruct (init_tables _ _ _ Hinit) as [Hw1 Hc1].
    destruct (get_enabled_signals_tables _ _ _ Hselect) as [Hw2 Hc2].
    split; [|split; congruence]. unfold main. rewrite run_bind_unfold.
    unfold on_database at 1. rewrite Hinit.
    rewrite run_bind_unfold. unfold on_database at 1. cbn [conn].
    by rewrite Hselect.
  - intros c1 c2 signals Hinit Hselect Hmeta.
    destruct (init_tables _ _ _ Hinit) as [Hw1 Hc1].
    destruct (get_enabled_signals_tables _ _ _ Hselect) as [Hw2 Hc2].
    split; [|split; congruence]. unfold main. rewrite run_bind_unfold.
    unfold on_database at 1. rewrite Hinit.
    rewrite run_bind_unfold. unfold on_database at 1. cbn [conn].
    rewrite Hselect.
    rewrite run_bind_unfold. unfold logger_info at 1. cbn [conn log].
    rewrite run_bind_unfold. unfold computed at 1. by rewrite Hmeta.
Qed.

(** X16.  With no enabled signal, a run whose connection, SELECT and
    metadata fetch pass returns [True] whatever the metadata and the API
    are: the two batch writes send nothing but their commits, the tables of
    the transaction are as they were, and the committed tables are as they
    were or equal to them. *)
Theorem run_without_enabled_signals
    (args : option Namespace) (w : world) (c1 c2 : connection)
    (metadata : list Metadata.row) :
  Database.init (conn w) = (Return (), c1) →
  Database.get_enabled_signals c1 = (Return [], c2) →
  covidcast_metadata = Return metadata →
  ∃ w',
    main covidcast_signal covidcast_metadata today args w = (Return true, w') ∧
    conn w' = (commit (commit c2).2).2 ∧
    log w' = log w ++
      [ LogInfo "Starting generating dashboard data.";
        write_record "Wrote status." (commit c2).1;
        write_record "Wrote coverage." (commit (commit c2).2).1;
        LogInfo "Generated signal dashboard data" ] ∧
    working (conn w') = working (conn w) ∧
    (committed (conn w') = committed (conn w) ∨
     committed (conn w') = working (conn w)).
Proof.
  intros Hinit Hselect Hmeta.
  pose proof (main_after_computation covidcast_signal covidcast_metadata
                today args w c1 c2 [] metadata [] [] Hinit Hselect Hmeta
                eq_refl) as Hmain.
  rewrite !write_status_nil, !write_coverage_nil in Hmain.
  eexists. split; [exact Hmain|]. cbn [conn log].
  destruct (init_tables _ _ _ Hinit) as [Hw1 Hc1].
  destruct (get_enabled_signals_tables _ _ _ Hselect) as [Hw2 Hc2].
  destruct (commit_tables c2) as [Hw3 Hc3].
  destruct (commit_tables (commit c2).2) as [Hw4 Hc4].
  split; [done|]. split; [done|]. split; [congruence|].
  destruct Hc4 as [Hc4|Hc4], Hc3 as [Hc3|Hc3].
  - left. congruence.
  - right. congruence.
  - right. congruence.
  - right. congruence.
Qed.




End Outcome.

(** ** The worked run, again *)


Lemma main_returns_only_true_witness :
  ∃ w',
    main (example_api (Some example_three_counties))
         (Return example_metadata) example_today None
         (example_world [None; None; Some "boom"])
    = (Return true, w').
Proof.
  destruct (main_returns_only_true
              (example_api (Some example_three_counties))
              (Return example_metadata) example_today None
              (example_world [None; None; Some "boom"]))
    as (_ & Hzero & _).
  apply Hzero. vm_compute. reflexivity.
Defined.

Lemma failure_before_the_loop_aborts_run_witness :
  main (example_api (Some example_three_counties))
       (Return example_metadata) example_today None
       (example_world [Some "down"])
  = (Raise (MySQLError "down"),
     {| conn := example_connection []; log := [] |}).
Proof.
  destruct (failure_before_the_loop_aborts_run
              (example_api (Some example_three_counties))
              (Return example_metadata) example_today None
              (example_world [Some "down"]) (MySQLError "down"))
    as (Hinit & _).
  destruct (Hinit (example_connection [])) as (Hmain & _).
  - reflexivity.
  - exact Hmain.
Defined.

Lemma run_without_enabled_signals_witness :
  ∃ w',
    main (example_api None) (Return example_metadata) example_today None
         (example_world_disabled [])
    = (Return true, w') ∧
    working (conn w') = example_tables_disabled.
Proof.
  destruct (run_without_enabled_signals
              (example_api None) (Return example_metadata) example_today None
              (example_world_disabled [])
              (conn (example_world_disabled []))
              (conn (example_world_disabled []))
              example_metadata)
    as (w' & Hmain & _ & _ & Hworking & _).
  - reflexivity.
  - reflexivity.
  - reflexivity.
  - exists w'. split; [exact Hmain|exact Hworking].
Defined.


(** ** No row is lost *)

Lemma rows_remain_refl (t : tables) : rows_remain t t.
Proof. by split. Qed.

Lemma rows_remain_trans (t1 t2 t3 : tables) :
  rows_remain t1 t2 → rows_remain t2 t3 → rows_remain t1 t3.
Proof. intros [C12 S12] [C23 S23]. split; auto. Qed.

Lemma rows_remain_insert_status (p : Z * Z * Z * Z) (t : tables) :
  rows_remain t (insert_status p t).
Proof.
  destruct p as [[[k d] issue] day]. split; [done|]. intros key Hkey. simpl.
  destruct (decide ((k, d) = key)) as [<-|Hne].
  - rewrite lookup_insert_eq. by eexists.
  - by rewrite lookup_insert_ne.
Qed.

Lemma rows_remain_insert_coverage (p : Z * Z * string * Z) (t : tables) :
  rows_remain t (insert_coverage p t).
Proof.
  destruct p as [[[k d] g] cnt]. split; [|done]. intros key n Hkey. simpl.
  destruct (dashboard_signal_coverage t !! (k, d, g)) eqn:Hthere; [done|].
  rewrite lookup_insert_ne; [done|]. intros <-. congruence.
Qed.

(** X18.  Whatever fails, neither batch write loses a row: a row of the
    coverage table is in the table with the same count after a
    [write_status] and after a [write_coverage], and a key that has a row
    in the status table has one afterwards. *)
Theorem writes_lose_no_row
    (status_list : list DashboardSignalStatus)
    (coverage_list : list DashboardSignalCoverage) (c : connection) :
  let after_status := working (Database.write_status status_list c).2 in
  let after_coverage := working (Database.write_coverage coverage_list c).2 in
  (∀ k n, dashboard_signal_coverage (working c) !! k = Some n →
          dashboard_signal_coverage after_status !! k = Some n ∧
          dashboard_signal_coverage after_coverage !! k = Some n) ∧
  (∀ k, is_Some (dashboard_signal_status (working c) !! k) →
        is_Some (dashboard_signal_status after_status !! k) ∧
        is_Some (dashboard_signal_status after_coverage !! k)).
Proof.
  assert (keeps rows_remain (Database.write_status status_list)) as Hstatus.
  { unfold Database.write_status.
    apply (keeps_bind _ rows_remain_trans);
      [|intros _; apply (keeps_bind _ rows_remain_trans)].
    - apply (keeps_executemany_insert _ rows_remain_refl rows_remain_trans).
      apply rows_remain_insert_status.
    - apply (keeps_executemany _ rows_remain_refl rows_remain_trans).
      intros p t. by split.
    - intros _. apply (keeps_commit _ rows_remain_refl rows_remain_trans). }
  assert (keeps rows_remain (Database.write_coverage coverage_list))
    as Hcoverage.
  { unfold Database.write_coverage.
    apply (keeps_bind _ rows_remain_trans);
      [|intros _; apply (keeps_bind _ rows_remain_trans)].
    - apply (keeps_executemany_insert _ rows_remain_refl rows_remain_trans).
      apply rows_remain_insert_coverage.
    - apply (keeps_executemany _ rows_remain_refl rows_remain_trans).
      intros p t. by split.
    - intros _. apply (keeps_commit _ rows_remain_refl rows_remain_trans). }
  destruct (Hstatus c) as [Cs Ss]. destruct (Hcoverage c) as [Cc Sc].
  split.
  - intros k n Hk. split; [by apply Cs|by apply Cc].
  - intros k Hk. split; [by apply Ss|by apply Sc].
Qed.
